(** * PitchMate-AI: the scripted-interview core, embedded and verified

    A shallow embedding of the decision logic of the repository:

    - [src/graph/script_catalog.py] and [src/graph/nodes_script.py]
      (the Script Engine),
    - [src/graph/router.py] (the Domain/Segment Router),
    - [src/graph/length_control.py] (the Length Governor),
    - [src/app_server.py] (the request handler that chains them),
    - [src/core/cache.py], [src/core/llm.py], [src/core/prefetcher.py]
      and [src/app.py] (the cache, the completions and the event
      stream).

    Python [str] values are sequences of Unicode code points and are
    modelled as [list N].  Python [int]s that may be negative are [Z];
    positions inside a string are [nat].  Calls that may raise are
    modelled with the result type [res].  Library functions whose tables
    are not part of the repository (Unicode normalisation and case
    mapping, [float] parsing, the [tiktoken] encoder, SHA-256) are
    taken as parameters, and so are the answers of the services the
    process talks to (Redis, the completion API, the clock). *)

From Stdlib Require Import List NArith ZArith QArith Bool Arith Lia String Ascii.
From Stdlib Require Import DecimalString.
Import ListNotations.

Close Scope Q_scope.

(* ===================================================================== *)
(** * Part I: definitions                                                 *)
(* ===================================================================== *)

(** ** Python strings and the primitives the sources use *)

Module Py.

(** A Python [str]: its code points. *)
Definition pystr := list N.

Definition eqb_str (a b : pystr) : bool :=
  if list_eq_dec N.eq_dec a b then true else false.

(** Source literals are written as UTF-8 string literals and decoded. *)
Fixpoint utf8_decode (bs : list N) : pystr :=
  match bs with
  | [] => []
  | b0 :: r0 =>
    if (b0 <? 128)%N then b0 :: utf8_decode r0
    else if (b0 <? 224)%N then
      match r0 with
      | b1 :: r1 =>
        (N.lor (N.shiftl (N.land b0 31) 6) (N.land b1 63)) :: utf8_decode r1
      | [] => []
      end
    else if (b0 <? 240)%N then
      match r0 with
      | b1 :: b2 :: r2 =>
        (N.lor (N.shiftl (N.land b0 15) 12)
           (N.lor (N.shiftl (N.land b1 63) 6) (N.land b2 63))) :: utf8_decode r2
      | _ => []
      end
    else
      match r0 with
      | b1 :: b2 :: b3 :: r3 =>
        (N.lor (N.shiftl (N.land b0 7) 18)
           (N.lor (N.shiftl (N.land b1 63) 12)
              (N.lor (N.shiftl (N.land b2 63) 6) (N.land b3 63)))) :: utf8_decode r3
      | _ => []
      end
  end.

Definition u (s : string) : pystr :=
  utf8_decode (List.map N_of_ascii (list_ascii_of_string s)).

(** [str.isspace] for one character; also the class [\s] of [re] on
    [str] patterns and the characters removed by [str.strip]. *)
Definition isspace (c : N) : bool :=
  ((9 <=? c) && (c <=? 13) || (28 <=? c) && (c <=? 32)
   || (c =? 133) || (c =? 160) || (c =? 5760)
   || (8192 <=? c) && (c <=? 8202)
   || (c =? 8232) || (c =? 8233) || (c =? 8239) || (c =? 8287)
   || (c =? 12288))%N.

(** [s.lstrip()], [s.rstrip()], [s.strip()]. *)
Fixpoint lstrip (s : pystr) : pystr :=
  match s with
  | c :: s' => if isspace c then lstrip s' else s
  | [] => []
  end.

Fixpoint rstrip (s : pystr) : pystr :=
  match s with
  | [] => []
  | c :: s' =>
    match rstrip s' with
    | [] => if isspace c then [] else [c]
    | r => c :: r
    end
  end.

Definition strip (s : pystr) : pystr := rstrip (lstrip s).

(** [s.startswith(p)]. *)
Fixpoint starts_with (p s : pystr) : bool :=
  match p, s with
  | [], _ => true
  | _ :: _, [] => false
  | a :: p', b :: s' => (a =? b)%N && starts_with p' s'
  end.

(** [p in s] for strings. *)
Fixpoint contains (p s : pystr) : bool :=
  starts_with p s ||
  match s with
  | [] => false
  | _ :: s' => contains p s'
  end.

(** [s.count(p)]: the number of non-overlapping occurrences, scanning
    from the left.  [skip] is the number of characters still covered
    by the occurrence found last. *)
Fixpoint count_from (p : pystr) (skip : nat) (s : pystr) : nat :=
  match s with
  | [] => 0
  | _ :: s' =>
    match skip with
    | S k => count_from p k s'
    | O => if starts_with p s
           then S (count_from p (Nat.pred (List.length p)) s')
           else count_from p 0 s'
    end
  end.

Definition count (p s : pystr) : nat := count_from p 0 s.

(** [s[:k]] for a Python [int] [k]: a negative [k] counts from the end. *)
Definition slice_to {A} (s : list A) (k : Z) : list A :=
  if (0 <=? k)%Z then firstn (Z.to_nat k) s
  else firstn (List.length s - Z.to_nat (- k)) s.

(** [s[a:b]] for non-negative positions. *)
Definition slice (s : pystr) (a b : nat) : pystr :=
  skipn a (firstn b s).

(** [sep.join(parts)]. *)
Fixpoint join (sep : pystr) (parts : list pystr) : pystr :=
  match parts with
  | [] => []
  | [x] => x
  | x :: rest => x ++ sep ++ join sep rest
  end.

(** [s.split()]: maximal runs of non-whitespace characters.  [cur] is
    the word being read, reversed. *)
Fixpoint split_from (cur : pystr) (s : pystr) : list pystr :=
  match s with
  | [] => match cur with [] => [] | _ => [rev cur] end
  | c :: s' =>
    if isspace c
    then match cur with
         | [] => split_from [] s'
         | _ => rev cur :: split_from [] s'
         end
    else split_from (c :: cur) s'
  end.

Definition split (s : pystr) : list pystr := split_from [] s.

(** Results of calls that may raise. *)
Inductive exn := KeyError | IndexError | ValueError | OverflowError | TypeError.

Inductive res (A : Type) :=
| Ok (a : A)
| Raise (e : exn).
Arguments Ok {A} a.
Arguments Raise {A} e.

Definition bind {A B} (m : res A) (f : A -> res B) : res B :=
  match m with
  | Ok a => f a
  | Raise e => Raise e
  end.

(** The Unicode tables of the interpreter: [unicodedata.normalize] in
    form NFKC, and [str.lower]. *)
Class Unicode := {
  nfkc : pystr -> pystr;
  lower : pystr -> pystr
}.

(** The tables restricted to text that is already in NFKC form and has
    no cased letter outside ASCII (precomposed Hangul, ASCII): there
    normalisation is the identity and [lower] maps [A-Z] to [a-z].
    The concrete runs below use it on such text only. *)
Definition ascii_lower (c : N) : N :=
  if ((65 <=? c) && (c <=? 90))%N then (c + 32)%N else c.

#[export] Instance plain_unicode : Unicode := {|
  nfkc := fun s => s;
  lower := List.map ascii_lower
|}.

(** The character class of the first [re.sub] of [_norm]: quotes,
    backtick, dot, comma, colon, semicolon, the three kinds of brackets,
    angle brackets, tilde, caret, hyphen, underscore, slash, backslash.
    Each such character is replaced by a space. *)
Definition norm_punct (c : N) : bool :=
  existsb (N.eqb c)
    [34; 39; 96; 46; 44; 58; 59; 40; 41; 91; 93; 123; 125; 60; 62; 126; 94; 45; 95; 47; 92]%N.

(** The second [re.sub] of [_norm]: every maximal run of whitespace
    becomes one space. *)
Fixpoint collapse_ws (s : pystr) : pystr :=
  match s with
  | [] => []
  | c :: s' =>
    if isspace c
    then 32%N :: match s' with
                 | d :: _ => if isspace d then List.tl (collapse_ws s') else collapse_ws s'
                 | [] => []
                 end
    else c :: collapse_ws s'
  end.

(** The body shared by the two [_norm] helpers, applied to the string
    itself ([None] and the empty string give the empty string). *)
Definition norm_body `{Unicode} (s : pystr) : pystr :=
  let s1 := strip (lower (nfkc s)) in
  let s2 := List.map (fun c => if norm_punct c then 32%N else c) s1 in
  collapse_ws s2.

End Py.

Import Py.

(** ** [script_catalog.py]: the slot catalogue and the progress cursor *)

Module ScriptCatalog.

Local Open Scope string_scope.

Definition A_ORDER : list string :=
  ["A1_problem"; "A2_pain"; "A3_reason"; "A4_unmet"].
Definition B_ORDER : list string :=
  ["B1_core_service"; "B2_value"; "B3_features"; "B4_diff"; "B5_edge"].
Definition C_ORDER : list string :=
  ["C1_consumer"; "C2_alternatives"; "C3_paincases"; "C4_market_size";
   "C5_competitors"; "C6_customer_traits"; "C7_issues"].
Definition D_ORDER : list string :=
  ["D1_revenue_sources"; "D2_model"; "D3_segments"; "D4_resources";
   "D5_extensions"; "D6_diff"; "D7_go_to_market"; "D8_activation";
   "D9_kpi"; "D10_trust"].

(** A Python dict with string keys, in insertion order. *)
Fixpoint dict_get {V} (d : list (string * V)) (k : string) : option V :=
  match d with
  | [] => None
  | (k', v) :: d' => if String.eqb k k' then Some v else dict_get d' k
  end.

Definition SECTION_ORDER : list (string * list string) :=
  [("A", A_ORDER); ("B", B_ORDER); ("C", C_ORDER); ("D", D_ORDER)].

Definition QUESTIONS : list (string * pystr) :=
  [("A1_problem", u "당신이 주목한 문제나 새로운 기회는 무엇인가요?");
   ("A2_pain", u "현재 가장 부족하거나 불편한 점은 무엇이라 보나요?");
   ("A3_reason", u "이 주제를 선택한 계기(시장 분위기, 개인경험, 트렌드 등)가 있나요?");
   ("A4_unmet", u "기존 시장에서 미충족된 고객 니즈는 무엇이라고 생각하시나요?");
   ("B1_core_service", u "제공할 핵심 서비스/경험은 무엇인가요? (예: 초보자 맞춤 강습+장비 예약 통합, 안전/보험 자동 연동 등)");
   ("B2_value", u "우리 서비스가 제공하는 '경험/가치'는 무엇인가요?");
   ("B3_features", u "핵심 서비스/제품/기능은 무엇인가요?");
   ("B4_diff", u "경쟁사와의 차별화 포인트는?");
   ("B5_edge", u "경쟁사보다 더 우월한 점/한계점 1가지는?");
   ("C1_consumer", u "상품 소비자의 특징(연령, 동기, 지역성 등)을 알고 있나요?");
   ("C2_alternatives", u "기존 비슷한 온라인/오프라인 서비스는? 차별화 필요성은?");
   ("C3_paincases", u "고객이 기존 서비스에서 겪는 불편 사례는?");
   ("C4_market_size", []);
   ("C5_competitors", u "대표적인 경쟁 서비스(플랫폼/운영 업체)는 무엇이고, 강점/약점은?");
   ("C6_customer_traits", u "고객(이용자)의 주요 특성(연령, 가족/직장인, 여행 스타일 등)을 어떻게 보나요?");
   ("C7_issues", u "해당 분야의 주요 이슈나 니즈도 파악되어 있나요?");
   ("D1_revenue_sources", u "사업의 주요 수익원은 무엇인가요? (예: 예약수수료, 장비렌털, 멤버십, 광고 등)");
   ("D2_model", u "수익 모델은 무엇인가요? (복수예약 중개, 정액 구독, 후기/포인트 프로그램 등)");
   ("D3_segments", u "주요 고객층은 누구로 설정할 건가요?");
   ("D4_resources", u "필요 리소스가 있나요?");
   ("D5_extensions", u "장기적으로 확장 가능한 추가 기능/서비스 아이디어가 있나요?");
   ("D6_diff", u "유사 서비스와의 차별점은 무엇인가요?");
   ("D7_go_to_market", u "시장진입 방법(마케팅, 홍보 채널, 첫 파트너 선정기준 등)은?");
   ("D8_activation", u "고객 확보/활성화 전략(커뮤니티, SNS, MZ 감성 등)은?");
   ("D9_kpi", u "성공지표(KPI)를 어떻게 정할 것인지?");
   ("D10_trust", u "서비스 품질보증/신뢰확보 방안은?")].

(** [SEG_LABEL]: the key [None] is the default label. *)
Definition SEG_LABEL (segment : option string) : option pystr :=
  match segment with
  | None => Some (u "여행·레저")
  | Some s =>
    if String.eqb s "camping" then Some (u "캠핑/글램핑")
    else if String.eqb s "experience" then Some (u "현지체험/액티비티")
    else if String.eqb s "sports" then Some (u "레저 스포츠(서핑/등산 등)")
    else None
  end.

Definition KEYWORDS : list (string * list pystr) :=
  [("D1_revenue_sources",
    [u "수익원"; u "수익"; u "매출"; u "수수료"; u "구독"; u "광고"; u "멤버십"; u "렌털"; u "유료"]);
   ("B1_core_service",
    [u "핵심 서비스"; u "무엇을 제공"; u "경험 제공"; u "통합"; u "강습"; u "예약"]);
   ("C4_market_size", [u "시장 규모"; u "성장 추세"; u "트렌드"; u "규모"]);
   ("B4_diff", [u "차별화"; u "우월"; u "다름"; u "강점"; u "약점"])].

Definition _norm `{Unicode} (s : pystr) : pystr := norm_body s.

Definition _dyn_question (slot_id : string) (segment : option string) : pystr :=
  if String.eqb slot_id "C4_market_size" then
    let label := match SEG_LABEL segment with
                 | Some l => l
                 | None => u "여행·레저"
                 end in
    (label ++ u " 시장 규모와 최근 성장 추세에 대해 알고 있나요?")%list
  else match dict_get QUESTIONS slot_id with
       | Some q => q
       | None => []
       end.

(** The progress cursor, a dict with the keys [section], [index] and
    [answered]. *)
Record Progress := mkProgress {
  section : string;
  index : Z;
  answered : list string
}.

Definition with_index (p : Progress) (i : Z) : Progress :=
  mkProgress (section p) i (answered p).

Definition first_progress : Progress := mkProgress "A" 0 [].

Definition flow : list string := ["A"; "B"; "C"; "D"].

(** [l.index(x)]: the first position of [x], if any. *)
Fixpoint list_index (x : string) (l : list string) : option nat :=
  match l with
  | [] => None
  | y :: l' => if String.eqb x y then Some 0%nat
               else option_map S (list_index x l')
  end.

(** [next_progress]: [SECTION_ORDER[section]] raises [KeyError] for an
    unknown section; the lookup of the following section is guarded by
    [try] and gives [None]. *)
Definition next_progress (progress : Progress) : res (option Progress) :=
  match dict_get SECTION_ORDER (section progress) with
  | None => Raise KeyError
  | Some order =>
    let index := (index progress + 1)%Z in
    if (index <? Z.of_nat (List.length order))%Z
    then Ok (Some (with_index progress index))
    else
      match list_index (section progress) flow with
      | None => Ok None
      | Some i =>
        match nth_error flow (i + 1) with
        | None => Ok None
        | Some nxt_section => Ok (Some (mkProgress nxt_section 0 (answered progress)))
        end
      end
  end.

Record Question := mkQuestion { q_id : string; q_text : pystr }.

Definition current_question (progress : Progress) (segment : option string)
  : option Question :=
  match dict_get SECTION_ORDER (section progress) with
  | None => None
  | Some order =>
    let index := index progress in
    match order with
    | [] => None
    | _ =>
      if ((index <? 0) || (Z.of_nat (List.length order) <=? index))%Z then None
      else
        match nth_error order (Z.to_nat index) with
        | None => None
        | Some slot_id =>
          let text := match _dyn_question slot_id segment with
                      | [] => match dict_get QUESTIONS slot_id with
                              | Some q => q
                              | None => []
                              end
                      | t => t
                      end in
          match text with
          | [] => None
          | _ => Some (mkQuestion slot_id text)
          end
        end
    end
  end.

Definition _score_slot `{Unicode} (user_text : pystr) (slot_id : string) : nat :=
  match user_text with
  | [] => 0
  | _ =>
    let t := _norm user_text in
    let kws := match dict_get KEYWORDS slot_id with
               | Some l => l
               | None => []
               end in
    List.length (List.filter (fun kw => contains (_norm kw) t) kws)
  end.

(** [sorted(xs, key=..., reverse=True)]: a stable sort, so that among
    entries with equal keys the original order is kept. *)
Fixpoint insert_desc {A} (key : A -> nat) (x : A) (l : list A) : list A :=
  match l with
  | [] => [x]
  | y :: l' => if (key y <=? key x)%nat then x :: l
               else y :: insert_desc key x l'
  end.

Fixpoint sorted_desc {A} (key : A -> nat) (l : list A) : list A :=
  match l with
  | [] => []
  | x :: l' => insert_desc key x (sorted_desc key l')
  end.

Definition mem (x : string) (l : list string) : bool :=
  existsb (String.eqb x) l.

(** [order.index(sid) >= index + 1] for a [sid] taken from [order]. *)
Definition after_index (order : list string) (index : Z) (sid : string) : bool :=
  match list_index sid order with
  | Some i => (index + 1 <=? Z.of_nat i)%Z
  | None => false
  end.

Definition remaining_slots (order answered : list string) (index : Z) : list string :=
  List.filter (fun sid => negb (mem sid answered) && after_index order index sid) order.

Definition choose_next_progress `{Unicode} (progress : Progress) (user_text : pystr)
  : res (option Progress) :=
  let order := match dict_get SECTION_ORDER (section progress) with
               | Some o => o
               | None => []
               end in
  match order with
  | [] => next_progress progress
  | _ =>
    let remaining := remaining_slots order (answered progress) (index progress) in
    match remaining with
    | [] => next_progress progress
    | _ =>
      let scored := sorted_desc snd
                      (List.map (fun sid => (sid, _score_slot user_text sid)) remaining) in
      match scored with
      | (top_sid, top_score) :: _ =>
        if (0 <? top_score)%nat
        then match list_index top_sid order with
             | Some i => Ok (Some (with_index progress (Z.of_nat i)))
             | None => Raise ValueError
             end
        else next_progress progress
      | [] => Raise IndexError
      end
    end
  end.

End ScriptCatalog.

(** ** [nodes_script.py]: one turn of the Script Engine *)

Module NodesScript.

Import ScriptCatalog.
Local Open Scope string_scope.

Record Turn := mkTurn { role : string; content : pystr }.

(** The part of [GraphState] the node reads: the turns, the parameter
    bag and the [domain] entry of the stage outputs. *)
Record GraphState := mkState {
  turns : list Turn;
  param_script_progress : option Progress;
  param_last_slot : option string;
  param_segment : option string;
  domain_isOnTopic : option bool;
  domain_segment : option string
}.

Inductive ScriptOutput :=
| Notice (message : pystr)
| Ask (question : pystr) (slot_key : string) (section : string) (progress : Progress)
| End (message : pystr).

Definition NOTICE_MESSAGE : pystr :=
  (u "이 챗봇은 여행·레저(캠핑/체험/스포츠) 전용입니다. 원하는 세그먼트를 알려주세요. 예) "
   ++ [34%N] ++ u "캠핑으로 할래요" ++ [34%N])%list.

Definition END_MESSAGE : pystr :=
  u "모든 핵심 질문을 수집했습니다. 원하시면 요약이나 사업계획서 초안을 생성해 드릴게요.".

(** The content of the last turn whose role is [user], or the empty
    string. *)
Definition _last_user_text (ts : list Turn) : pystr :=
  match List.find (fun t => String.eqb (role t) "user") (rev ts) with
  | Some t => content t
  | None => []
  end.

Definition truthy (s : option string) : option string :=
  match s with
  | Some EmptyString => None
  | _ => s
  end.

Definition _get_segment (state : GraphState) : option string :=
  match truthy (domain_segment state) with
  | Some seg => Some seg
  | None => param_segment state
  end.

(** [list(set(answered) | {slot})]: the order of a Python set is not
    specified; the model keeps one copy of every member. *)
Definition add_answered (slot : string) (answered : list string) : list string :=
  nodup string_dec (answered ++ [slot])%list.

(** The node returns the [script] output together with the caller's
    [script_progress] object as the call leaves it: the node assigns
    to [progress["answered"]] in place. *)
Definition script_qna_node `{Unicode} (state : GraphState)
  : res (ScriptOutput * option Progress) :=
  let on_topic := match domain_isOnTopic state with Some b => b | None => true end in
  let segment := _get_segment state in
  if negb on_topic then Ok (Notice NOTICE_MESSAGE, param_script_progress state)
  else
    let progress := match param_script_progress state with
                    | Some p => p
                    | None => first_progress
                    end in
    let user_text := strip (_last_user_text (turns state)) in
    let asked_slot := truthy (param_last_slot state) in
    let curr_q := current_question progress segment in
    let answering :=
      match asked_slot, curr_q, user_text with
      | Some a, Some q, _ :: _ => String.eqb a (q_id q)
      | _, _, _ => false
      end in
    let stored p := match param_script_progress state with
                    | Some _ => Some p
                    | None => None
                    end in
    let finish (progress : Progress) (kept : option Progress) :=
      match current_question progress segment with
      | None => Ok (End END_MESSAGE, kept)
      | Some q => Ok (Ask (q_text q) (q_id q) (section progress) progress, kept)
      end in
    if answering then
      let marked := mkProgress (section progress) (index progress)
                      (add_answered (match asked_slot with Some a => a | None => EmptyString end)
                                    (answered progress)) in
      bind (choose_next_progress marked user_text) (fun chosen =>
      bind (match chosen with
            | Some n => Ok (Some n)
            | None => next_progress marked
            end) (fun nxt =>
      finish (match nxt with Some n => n | None => marked end) (stored marked)))
    else finish progress (param_script_progress state).

(** The caller's round trip: the progress and the slot of an [Ask]
    output are resubmitted with the next user message. *)
Definition resubmit (text : pystr) (segment : option string) (out : ScriptOutput)
  : GraphState :=
  match out with
  | Ask _ slot _ progress =>
    mkState [mkTurn "user" text] (Some progress) (Some slot) segment (Some true) None
  | _ => mkState [mkTurn "user" text] None None segment (Some true) None
  end.

(** The first turn, without stored progress, followed by [n] turns that
    each answer the question just asked with [text]; the outputs are
    listed oldest first. *)
Fixpoint interview `{Unicode} (text : pystr) (segment : option string) (n : nat)
  : res (list ScriptOutput) :=
  match n with
  | O =>
    bind (script_qna_node
            (mkState [mkTurn "user" text] None None segment (Some true) None))
         (fun r => Ok [fst r])
  | S k =>
    bind (interview text segment k) (fun outs =>
    bind (script_qna_node (resubmit text segment (last outs (End []))))
         (fun r => Ok (outs ++ [fst r])%list))
  end.

End NodesScript.

(** ** [router.py]: relevance, segment and on-topic decision *)

Module Router.

Local Open Scope Q_scope.
Local Open Scope string_scope.

Definition INTENTS : list string :=
  ["script_qna"; "ideate"; "feedback_quick"; "summary"; "research"; "revenue"; "write"].

Definition CONF_STRONG_RULE : Q := 90 # 100.
Definition MAX_HISTORY_TURNS : nat := 3.
Definition UNRELATED_MIN_LEN : nat := 2.
Definition ON_TOPIC_THRESHOLD : Q := 28 # 100.

Definition SEGMENTS : list string := ["camping"; "experience"; "sports"].

Definition SEGMENT_KEYWORDS (seg : string) : list pystr :=
  if String.eqb seg "camping" then
    [u "캠핑"; u "텐트"; u "오토캠핑"; u "글램핑"; u "카라반"; u "차박"; u "야영";
     u "camp"; u "camping"; u "tent"; u "rv"; u "caravan"; u "glamping"]
  else if String.eqb seg "experience" then
    [u "체험"; u "액티비티"; u "가이드투어"; u "현지체험"; u "현지 투어"; u "워크샵";
     u "쿠킹클래스"; u "공방";
     u "experience"; u "activity"; u "guided tour"; u "local tour"; u "workshop";
     u "cooking class"; u "craft"]
  else if String.eqb seg "sports" then
    [u "스포츠"; u "서핑"; u "스키"; u "스노보드"; u "등산"; u "하이킹"; u "트레킹";
     u "사이클"; u "자전거"; u "클라이밍"; u "암벽"; u "축구"; u "야구"; u "골프";
     u "테니스"; u "마라톤";
     u "surf"; u "ski"; u "snowboard"; u "hike"; u "trek"; u "hiking"; u "cycling";
     u "bike"; u "climbing"; u "soccer"; u "football"; u "baseball"; u "golf";
     u "tennis"; u "marathon"]
  else [].

Definition ON_TOPIC_HINTS : list pystr :=
  [u "여행"; u "레저"; u "관광"; u "투어"; u "가이드"; u "체험"; u "액티비티";
   u "숙소"; u "예약"; u "티켓"; u "패스"].

Definition _norm `{Unicode} (s : pystr) : pystr := norm_body s.

Record Turn := mkTurn { role : string; content : pystr }.

Definition last_user_text (ts : list Turn) : pystr :=
  match List.find (fun t => String.eqb (role t) "user") (rev ts) with
  | Some t => content t
  | None => []
  end.

(** [turns[-k:]] and the history text, one line per turn. *)
Definition last_k {A} (k : nat) (l : list A) : list A :=
  skipn (List.length l - k) l.

Definition short_history (ts : list Turn) (k : nat) : pystr :=
  join [10%N]
    (List.map (fun t => (Py.u (role t) ++ Py.u ": " ++ content t)%list) (last_k k ts)).

(** The class [[A-Za-z0-9]] extended with the Hangul syllables. *)
Definition is_alnum_hangul (c : N) : bool :=
  ((65 <=? c) && (c <=? 90) || (97 <=? c) && (c <=? 122)
   || (48 <=? c) && (c <=? 57) || (44032 <=? c) && (c <=? 55203))%N.

Definition is_unrelated (msg : pystr) : bool :=
  if (List.length (strip msg) <? UNRELATED_MIN_LEN)%nat then true
  else if negb (existsb is_alnum_hangul msg) then true
  else false.

Definition _keyword_match_any `{Unicode} (text : pystr) (words : list pystr) : bool :=
  match text with
  | [] => false
  | _ => let t := _norm text in existsb (fun w => contains (_norm w) t) words
  end.

(** The hit count of one segment. *)
Definition segment_hits `{Unicode} (t : pystr) (seg : string) : nat :=
  List.length (List.filter (fun w => _keyword_match_any t [w]) (SEGMENT_KEYWORDS seg)).

Definition tie_order (seg : string) : nat :=
  if String.eqb seg "camping" then 2
  else if String.eqb seg "experience" then 1
  else 0.

(** The key of [max]: the pair of hits and priority, compared
    lexicographically. *)
Definition key_lt (a b : nat * nat) : bool :=
  (fst a <? fst b)%nat || ((fst a =? fst b)%nat && (snd a <? snd b)%nat).

(** [max(items, key=...)]: the first item whose key is maximal. *)
Fixpoint max_by {A} (key : A -> nat * nat) (best : A) (l : list A) : A :=
  match l with
  | [] => best
  | x :: l' => max_by key (if key_lt (key best) (key x) then x else best) l'
  end.

(** The dict [scores]: the segments with at least one hit, in the
    order of [SEGMENTS]. *)
Definition segment_scores `{Unicode} (t : pystr) : list (string * nat) :=
  List.filter (fun kv => (0 <? snd kv)%nat)
              (List.map (fun seg => (seg, segment_hits t seg)) SEGMENTS).

Definition rule_segment `{Unicode} (msg : pystr) : option string :=
  let t := msg in
  match segment_scores t with
  | [] => None
  | kv :: rest =>
    Some (fst (max_by (fun kv => (snd kv, tie_order (fst kv))) kv rest))
  end.

Definition on_topic_hits `{Unicode} (msg : pystr) : nat :=
  let t := _norm msg in
  let hits := List.length (List.filter (fun k => contains (_norm k) t) ON_TOPIC_HINTS) in
  if existsb (fun seg => _keyword_match_any t (SEGMENT_KEYWORDS seg)) SEGMENTS
  then S hits else hits.

(** [min(a, b)] and [max(a, b)] of Python on numbers: the first
    argument is kept unless the second is strictly better. *)
Definition py_min (a b : Q) : Q := if Qle_bool a b then a else b.
Definition py_max (a b : Q) : Q := if Qle_bool b a then a else b.

Definition on_topic_score `{Unicode} (msg : pystr) : Q :=
  py_min (Z.of_nat (on_topic_hits msg) # 5) 1.

(** [round(x, 2)] on a non-negative rational, halves to even. *)
Definition round2 (q : Q) : Q :=
  let n := (Qnum q * 100)%Z in
  let d := Z.pos (Qden q) in
  let fl := (n / d)%Z in
  let r2 := (2 * (n mod d))%Z in
  let up := if (d <? r2)%Z then true
            else if (r2 =? d)%Z then Z.odd fl else false in
  ((if up then fl + 1 else fl)%Z # 100).

Record DomainDecision := mkDecision {
  intent : string;
  domain : string;
  confidence : Q;
  subdomain : option string;
  segment : option string;
  via : option string;
  isOnTopic : bool;
  onTopicScore : Q
}.

(** The [domain] entry written by the node: the short-circuit entry
    for an explicit routing label, or a decision. *)
Inductive DomainOutput :=
| Explicit (routed_step : string)
| Decision (d : DomainDecision).

Record GraphState := mkState {
  step : string;
  turns : list Turn;
  param_segment : option string;
  param_allow_zero_shot : bool;
  relevance_related : option bool
}.

Definition mem (x : string) (l : list string) : bool := existsb (String.eqb x) l.

Definition in_segments (s : option string) : option string :=
  match s with
  | Some x => if mem x SEGMENTS then Some x else None
  | None => None
  end.

(** [classify_segment_zero_shot] awaits the remote model; its answer,
    with every failure already turned into [None], is the argument
    [zero_shot] applied to the message and the history. *)
Definition domain_detect_node `{Unicode}
    (zero_shot : pystr -> pystr -> option string) (state : GraphState)
  : DomainOutput * string :=
  if mem (step state) INTENTS then (Explicit (step state), step state)
  else
    let msg := last_user_text (turns state) in
    let hist := short_history (turns state) MAX_HISTORY_TURNS in
    let related := match relevance_related state with Some b => b | None => true end in
    if negb related then
      (Decision (mkDecision "script_qna" "travel" (30 # 100) None None
                   (Some "unrelated") false 0), "script_qna")
    else
      (* A *)
      let seg := in_segments (param_segment state) in
      let via := match seg with Some _ => Some "param" | None => None end in
      let conf := match seg with Some _ => 95 # 100 | None => 0 end in
      (* B *)
      let '(seg, via, conf) :=
        match seg with
        | Some _ => (seg, via, conf)
        | None =>
          match rule_segment msg with
          | Some s => (Some s, Some "rule", CONF_STRONG_RULE)
          | None => (None, via, conf)
          end
        end in
      (* C *)
      let '(seg, via, conf) :=
        match seg with
        | None =>
          if param_allow_zero_shot state then
            match in_segments (zero_shot msg hist) with
            | Some z => (Some z, Some "zero-shot", py_max conf (65 # 100))
            | None => (seg, via, conf)
            end
          else (seg, via, conf)
        | Some _ => (seg, via, conf)
        end in
      (* D *)
      let '(via, conf) :=
        match seg with
        | None => (match via with Some v => Some v | None => Some "default" end,
                   py_max conf (50 # 100))
        | Some _ => (via, conf)
        end in
      let topic_score := on_topic_score msg in
      let is_on_topic :=
        Qle_bool ON_TOPIC_THRESHOLD topic_score
        || match seg with Some _ => true | None => false end in
      let '(via, conf) :=
        if negb is_on_topic then (Some "unrelated", py_min conf (30 # 100))
        else (via, conf) in
      (Decision (mkDecision "script_qna" "travel" conf seg seg via is_on_topic
                   (round2 topic_score)), "script_qna").

End Router.

(** ** The regular expressions of [length_control.py]

    Every pattern of the module is an alternation of character classes,
    each either repeated ([+]) or single.  [finditer] scans from the
    left; at a position the first alternative that matches is taken, a
    repeated class greedily, and the scan resumes after the match. *)

Module Regex.

Inductive alt :=
| Run (cls : N -> bool)
| Single (cls : N -> bool).

Definition in_class (chars : pystr) (c : N) : bool := existsb (N.eqb c) chars.

(** The length of the longest prefix of [s] inside [cls]. *)
Fixpoint run_length (cls : N -> bool) (s : pystr) : nat :=
  match s with
  | c :: s' => if cls c then S (run_length cls s') else 0
  | [] => 0
  end.

Definition match_alt (a : alt) (s : pystr) : nat :=
  match a with
  | Run cls => run_length cls s
  | Single cls => match s with
                  | c :: _ => if cls c then 1 else 0
                  | [] => 0
                  end
  end.

(** The length of the match at the head of [s]; [0] when no
    alternative matches (no pattern here matches the empty string). *)
Fixpoint match_here (re : list alt) (s : pystr) : nat :=
  match re with
  | [] => 0
  | a :: re' => match match_alt a s with
                | O => match_here re' s
                | n => n
                end
  end.

(** [re.finditer]: the matches as pairs of start and end.  [pos] is
    the position of the head of [s], [skip] the number of characters
    still inside the match found last. *)
Fixpoint finditer_from (re : list alt) (pos skip : nat) (s : pystr)
  : list (nat * nat) :=
  match s with
  | [] => []
  | _ :: s' =>
    match skip with
    | S k => finditer_from re (S pos) k s'
    | O =>
      match match_here re s with
      | O => finditer_from re (S pos) 0 s'
      | S n => (pos, pos + S n) :: finditer_from re (S pos) n s'
      end
    end
  end.

Definition finditer (re : list alt) (s : pystr) : list (nat * nat) :=
  finditer_from re 0 0 s.

End Regex.

(** ** [length_control.py]: the Length Governor *)

Module LengthControl.

Import Regex.
Local Open Scope string_scope.

(** *** Presets and style resolution *)

Record Preset := mkPreset { chars : Z; tokens : Z }.

Definition LENGTH_PRESETS (style : string) : option Preset :=
  if String.eqb style "one_line" then Some (mkPreset 140 50)
  else if String.eqb style "short" then Some (mkPreset 400 120)
  else if String.eqb style "medium" then Some (mkPreset 1200 300)
  else if String.eqb style "long" then Some (mkPreset 4000 1000)
  else None.

Definition USER_HINTS : list (string * list pystr) :=
  [("one_line", [u "한줄"; u "한 줄"; u "슬로건"; u "엘리베이터"; u "한문장"; u "한 문장"]);
   ("short", [u "짧게"; u "간단히"; u "요약"; u "핵심만"]);
   ("medium", [u "보통"; u "중간"; u "적당히"]);
   ("long", [u "길게"; u "자세히"; u "상세히"; u "보고서"; u "전체 초안"; u "풀버전"])].

Definition any_in (hints : list pystr) (q : pystr) : bool :=
  existsb (fun h => contains h q) hints.

Definition detect_user_style (user_query : pystr) : option string :=
  option_map fst (List.find (fun sh => any_in (snd sh) user_query) USER_HINTS).

Definition auto_classify_style (user_query : pystr) : string :=
  if any_in [u "슬로건"; u "한줄"; u "한 문장"] user_query then "one_line"
  else if any_in [u "요약"; u "핵심"] user_query then "short"
  else if any_in [u "전체"; u "초안"; u "보고서"] user_query then "long"
  else "medium".

Definition decide_length_style (user_query : pystr) (default : string) : string :=
  match detect_user_style user_query with
  | Some s => s
  | None => match auto_classify_style user_query with
            | EmptyString => default
            | s => s
            end
  end.

(** *** The tokenizer *)

(** An exact encoder ([tiktoken]), when one is installed. *)
Record Encoding := mkEncoding {
  enc_encode : pystr -> list Z;
  enc_decode : list Z -> res pystr
}.

(** A [Tokenizer] object: its field [_enc]. *)
Record Tokenizer := mkTokenizer { _enc : option Encoding }.

Inductive ids :=
| IntIds (l : list Z)
| StrIds (l : list pystr).

Definition ids_length (i : ids) : nat :=
  match i with IntIds l => List.length l | StrIds l => List.length l end.

Definition ids_firstn (n : nat) (i : ids) : ids :=
  match i with IntIds l => IntIds (firstn n l) | StrIds l => StrIds (firstn n l) end.

Definition encode (tok : Tokenizer) (text : pystr) : ids :=
  match _enc tok with
  | Some e => IntIds (enc_encode e text)
  | None => StrIds (split text)
  end.

Definition decode (tok : Tokenizer) (i : ids) : res pystr :=
  match _enc tok with
  | Some e => match i with
              | IntIds l => enc_decode e l
              | StrIds _ => Raise TypeError
              end
  | None => match i with
            | StrIds (x :: l) => Ok (join [32%N] (x :: l))
            | _ => Ok []
            end
  end.

(** What the interpreter supplies: the encoder found by
    [Tokenizer()], if [tiktoken] can be imported, and [float] on
    strings ([None] for a [ValueError]). *)
Inductive pyfloat :=
| Finite (q : Q)
| PosInf
| NegInf
| NaN.

Class Runtime := {
  tiktoken : option Encoding;
  float_of_str : pystr -> option pyfloat
}.

Definition new_tokenizer `{Runtime} : Tokenizer := mkTokenizer tiktoken.

Definition enforce_token_cap `{Runtime}
    (text : pystr) (max_tokens : option Z) (tokenizer : option Tokenizer) : pystr :=
  match max_tokens with
  | None => text
  | Some mt =>
    if (mt <=? 0)%Z then text
    else
      let tok := match tokenizer with Some t => t | None => new_tokenizer end in
      let i := encode tok text in
      if (Z.of_nat (ids_length i) <=? mt)%Z then text
      else
        match decode tok (ids_firstn (Z.to_nat mt) i) with
        | Ok trimmed => trimmed
        | Raise _ =>
          match i with
          | StrIds (x :: l) => join [32%N] (firstn (Z.to_nat mt) (x :: l))
          | _ => slice_to text (mt * 4)
          end
        end
  end.

(** *** Boundaries, fences and links *)

Definition SENT_PUNCT : alt := Run (in_class (u ".!?。！？…")).
Definition NEWLINES : alt := Run (in_class [10%N]).
Definition CLOSERS : alt := Single (in_class (u "”’" ++ [34%N] ++ u "'」』)]")%list).

(** The pattern of step 1 of [soft_cut]: [_SENT_PUNCT] or
    [_EXPLICIT_END]. *)
Definition SENT_OR_END : list alt := [SENT_PUNCT; NEWLINES; CLOSERS].

Definition is_boundary (c : N) : bool :=
  isspace c || in_class (u ",;:/·-–—") c.

Definition _WORD_BOUNDARY : list alt := [Run is_boundary].

Definition _FENCE_TRIPLE : pystr := u "```".
Definition _FENCE_TILDES : pystr := u "~~~".
Definition _LINK_TOKENS : list pystr := [u "]("; u "http://"; u "https://"; u "://"].
Definition ELLIPSIS : pystr := u "…".

Definition _balance_fences (text : pystr) : pystr :=
  let text := if Nat.odd (count _FENCE_TRIPLE text)
              then (text ++ [10%N] ++ _FENCE_TRIPLE)%list else text in
  if Nat.odd (count _FENCE_TILDES text)
  then (text ++ [10%N] ++ _FENCE_TILDES)%list else text.

Definition _inside_code_block (text : pystr) (idx : nat) : bool :=
  let before := firstn (Nat.max 0 (Nat.min idx (List.length text))) text in
  Nat.odd (count _FENCE_TRIPLE before) || Nat.odd (count _FENCE_TILDES before).

Definition _backoff_link_boundary (text : pystr) (cut_idx : nat) : nat :=
  let start := (cut_idx - 6)%nat in
  if existsb (fun tok => contains tok (slice text start cut_idx)) _LINK_TOKENS
  then match rev (finditer _WORD_BOUNDARY (firstn cut_idx text)) with
       | m :: _ => fst m
       | [] => cut_idx
       end
  else cut_idx.

(** The loop [while cut_idx > 0 and _inside_code_block(text, cut_idx)]. *)
Fixpoint retreat (text : pystr) (cut_idx : nat) : nat :=
  match cut_idx with
  | O => O
  | S k => if _inside_code_block text cut_idx then retreat text k else cut_idx
  end.

(** Steps 1 and 2 of [soft_cut] on the snippet: the end of the last
    sentence or closing mark, else the start of the last word
    boundary, else the end of the snippet. *)
Definition stage_cut (snippet : pystr) : nat :=
  match rev (finditer SENT_OR_END snippet) with
  | m :: _ => snd m
  | [] => match rev (finditer _WORD_BOUNDARY snippet) with
          | m2 :: _ => fst m2
          | [] => List.length snippet
          end
  end.

(** The final value of [cut_idx] in [soft_cut], after steps 3 and 4 and
    the clamp to a non-empty prefix of the snippet. *)
Definition cut_point (text : pystr) (max_chars : Z) : nat :=
  let snippet := slice_to text max_chars in
  let cut_idx := stage_cut snippet in
  let cut_idx := retreat text cut_idx in
  let cut_idx := _backoff_link_boundary text cut_idx in
  Nat.max 1 (Nat.min cut_idx (List.length snippet)).

Definition soft_cut (text : pystr) (max_chars : Z) (add_ellipsis : bool) : pystr :=
  if (Z.of_nat (List.length text) <=? max_chars)%Z then _balance_fences text
  else
    let cut_idx := cut_point text max_chars in
    let out := rstrip (firstn cut_idx text) in
    let out := _balance_fences out in
    if add_ellipsis then (out ++ ELLIPSIS)%list else out.

Definition enforce_char_cap (text : pystr) (max_chars : Z) (is_code : bool) : pystr :=
  if (Z.of_nat (List.length text) <=? max_chars)%Z then _balance_fences text
  else if is_code then
    let cut := slice_to text max_chars in
    let i := retreat text (List.length cut) in
    _balance_fences (rstrip (firstn (Nat.max 1 i) text))
  else soft_cut text max_chars true.

(** *** The payload trimmer *)

Record Policy := mkPolicy {
  p_type : string;
  p_max_chars : option Z;
  p_max_each : option Z;
  p_max_count : option Z;
  p_tail : option bool
}.

Definition text_policy : Policy := mkPolicy "text" None None None None.
Definition code_policy : Policy := mkPolicy "code" None None None None.
Definition list_policy : Policy := mkPolicy "list" None None None None.

Definition KEY_POLICY (key : string) : option Policy :=
  if String.eqb key "one_liner" then Some (mkPolicy "text" (Some 140%Z) None None None)
  else if String.eqb key "summary_text" then Some text_policy
  else if String.eqb key "plan_md" then Some text_policy
  else if String.eqb key "body" then Some text_policy
  else if String.eqb key "text" then Some text_policy
  else if String.eqb key "content" then Some text_policy
  else if String.eqb key "answer" then Some text_policy
  else if String.eqb key "code" then Some code_policy
  else if String.eqb key "json" then Some code_policy
  else if String.eqb key "bullets" then
    Some (mkPolicy "list" None (Some 250%Z) (Some 7%Z) (Some true))
  else if String.eqb key "outline" then
    Some (mkPolicy "list" None (Some 120%Z) (Some 10%Z) (Some true))
  else if String.eqb key "items" then
    Some (mkPolicy "list" None (Some 200%Z) (Some 10%Z) (Some true))
  else None.

Definition SKIP_KEYS : list string := ["relevance"; "faq"; "domain"].

(** The decimal digits of a count, as in an f-string. *)
Definition str_of_nat (n : nat) : pystr :=
  u (NilZero.string_of_uint (Nat.to_uint n)).

Definition more_marker (remain : nat) : pystr :=
  (u "… (+" ++ str_of_nat remain ++ u " more)")%list.

Definition enforce_bullets (lst : list pystr) (max_each max_count : Z) (tail : bool)
  : list pystr :=
  let out := List.map (fun s => enforce_char_cap s max_each false)
                      (slice_to lst max_count) in
  let remain := Z.to_nat (Z.max 0 (Z.of_nat (List.length lst) - max_count)) in
  if tail && (0 <? remain)%nat then (out ++ [more_marker remain])%list else out.

(** A payload: a JSON-like tree.  Everything that is neither a string
    nor a list nor a dict is an atom. *)
Inductive atom :=
| ANone
| ABool (b : bool)
| AInt (z : Z)
| AFloat (q : Q).

#[warnings="-register-all"] Inductive value :=
| VAtom (a : atom)
| VStr (s : pystr)
| VList (l : list value)
| VDict (d : list (string * value)).

Definition is_str (v : value) : bool :=
  match v with VStr _ => true | _ => false end.

Definition strings_of (l : list value) : list pystr :=
  flat_map (fun v => match v with VStr s => [s] | _ => [] end) l.

(** [a or b] on an optional number: [None] and [0] give [b]. *)
Definition or_else (a : option Z) (b : Z) : Z :=
  match a with
  | Some x => if (x =? 0)%Z then b else x
  | None => b
  end.

Definition get_default {A} (o : option A) (d : A) : A :=
  match o with Some x => x | None => d end.

Definition mem (x : string) (l : list string) : bool := existsb (String.eqb x) l.

Definition key_or_empty (key : option string) : string := get_default key EmptyString.

Definition truthy_cap (c : option Z) : bool :=
  match c with Some x => negb (x =? 0)%Z | None => false end.

Fixpoint _trim_value `{Runtime} (key : option string) (v : value)
    (style_chars : option Z) (global_cap : Z)
    (token_cap : option Z) (tokenizer : option Tokenizer) {struct v} : value :=
  match v with
  | VStr s =>
    let policy := get_default (KEY_POLICY (key_or_empty key)) text_policy in
    let is_code := String.eqb (p_type policy) "code" in
    let txt := if negb is_code && truthy_cap token_cap
               then enforce_token_cap s token_cap tokenizer else s in
    let cap_chars :=
      Z.min (get_default (p_max_chars policy) (or_else style_chars global_cap))
            global_cap in
    VStr (enforce_char_cap txt cap_chars is_code)
  | VList l =>
    if forallb is_str l then
      let policy := get_default (KEY_POLICY (key_or_empty key)) list_policy in
      let each := Z.min (get_default (p_max_each policy) (or_else style_chars 250)) 250 in
      let cnt := get_default (p_max_count policy) 7%Z in
      let tail := get_default (p_tail policy) false in
      VList (List.map VStr (enforce_bullets (strings_of l) each cnt tail))
    else
      VList (List.map (fun x => _trim_value key x style_chars global_cap
                                            token_cap tokenizer) l)
  | VDict d =>
    VDict (List.map (fun kv =>
                       match kv with
                       | (k, x) =>
                         if mem k SKIP_KEYS then (k, x)
                         else (k, _trim_value (Some k) x style_chars global_cap
                                              token_cap tokenizer)
                       end) d)
  | VAtom a => VAtom a
  end.

Definition nonempty (s : option string) : option string :=
  match s with
  | Some EmptyString => None
  | _ => s
  end.

Definition opt_min (a b : option Z) : option Z :=
  match a, b with
  | Some x, Some y => Some (Z.min x y)
  | Some x, None => Some x
  | None, Some y => Some y
  | None, None => None
  end.

(** The preset of a style, if the style is given and known. *)
Definition style_preset (length_style : option string) : option Preset :=
  match nonempty length_style with
  | Some s => LENGTH_PRESETS s
  | None => None
  end.

(** The token cap in force: the smaller of the caller's cap and the
    style's cap, when either is present. *)
Definition merged_token_cap (length_style : option string) (max_tokens : option Z)
  : option Z :=
  opt_min max_tokens (option_map tokens (style_preset length_style)).

Definition trim_payload `{Runtime} (payload : value) (length_style : option string)
    (max_chars : Z) (max_tokens : option Z) (tokenizer : option Tokenizer) : value :=
  let style_chars := option_map chars (style_preset length_style) in
  let token_cap := merged_token_cap length_style max_tokens in
  _trim_value None payload style_chars max_chars token_cap tokenizer.

(** *** The pipeline entry *)

(** A parameter value as the caller may send it. *)
Inductive pyval :=
| PNone
| PBool (b : bool)
| PInt (z : Z)
| PFloat (f : pyfloat)
| PStr (s : pystr)
| POther.

(** [int(x)] on a float: truncation towards zero; the infinities and
    NaN raise. *)
Definition int_of_float (f : pyfloat) : res Z :=
  match f with
  | Finite q => Ok (Z.quot (Qnum q) (Z.pos (Qden q)))
  | PosInf | NegInf => Raise OverflowError
  | NaN => Raise ValueError
  end.

Definition _to_int `{Runtime} (val : pyval) (default : option Z) : res (option Z) :=
  match val with
  | PNone => Ok default
  | PBool b => Ok (Some (if b then 1 else 0)%Z)
  | PInt z => Ok (Some z)
  | PFloat f => match int_of_float f with
                | Ok z => Ok (Some z)
                | Raise e => Raise e
                end
  | PStr s =>
    match strip s with
    | [] => Ok default
    | v => match float_of_str v with
           | Some f => match int_of_float f with
                       | Ok z => Ok (Some z)
                       | Raise _ => Ok default
                       end
           | None => Ok default
           end
    end
  | POther => Ok default
  end.

Record State := mkState {
  query : pystr;
  param_length_style : option string;
  param_max_chars : pyval;
  param_max_tokens : pyval;
  outputs : value
}.

(** The effective caps of [apply_length_control]: the cast, the
    fallback [or 4000], and the guards against zero and negative
    values. *)
Definition global_cap_of `{Runtime} (max_chars : pyval) : res Z :=
  bind (_to_int max_chars (Some 4000%Z)) (fun gc =>
  let global_cap := or_else gc 4000 in
  Ok (if (global_cap <=? 0)%Z then 4000%Z else global_cap)).

Definition token_cap_of `{Runtime} (max_tokens : pyval) : res (option Z) :=
  bind (_to_int max_tokens None) (fun token_cap =>
  Ok (match token_cap with
      | Some t => if (t <=? 0)%Z then None else Some t
      | None => None
      end)).

Definition apply_length_control `{Runtime} (state : State) : res State :=
  let style := match nonempty (param_length_style state) with
               | Some s => s
               | None => decide_length_style (query state) "medium"
               end in
  bind (global_cap_of (param_max_chars state)) (fun global_cap =>
  bind (token_cap_of (param_max_tokens state)) (fun token_cap =>
  let tokenizer := new_tokenizer in
  let trimmed := trim_payload (outputs state) (Some style) global_cap token_cap
                              (Some tokenizer) in
  Ok (mkState (query state) (Some style) (param_max_chars state)
              (param_max_tokens state) trimmed))).

(** A runtime without [tiktoken], whose [float] reads signed decimal
    integer literals only.  It agrees with the interpreter on such
    literals and on strings that are no number at all; the concrete
    runs below use no other string. *)
Fixpoint digits_value (acc : Z) (s : pystr) : option Z :=
  match s with
  | [] => Some acc
  | c :: s' =>
    if ((48 <=? c) && (c <=? 57))%N
    then digits_value (acc * 10 + Z.of_N (c - 48)) s'
    else None
  end.

Definition float_of_digits (s : pystr) : option pyfloat :=
  match s with
  | [] => None
  | 45%N :: (_ :: _) as d =>
    option_map (fun z => Finite (inject_Z (- z))) (digits_value 0 (List.tl d))
  | 43%N :: (_ :: _) as d =>
    option_map (fun z => Finite (inject_Z z)) (digits_value 0 (List.tl d))
  | _ => option_map (fun z => Finite (inject_Z z)) (digits_value 0 s)
  end.

#[export] Instance plain_runtime : Runtime := {|
  tiktoken := None;
  float_of_str := float_of_digits
|}.

End LengthControl.

(** ** Calls with keyword arguments *)

Module PyCall.

Local Open Scope string_scope.

(** A call [f(k1=..., k2=...)] that passes keyword arguments only, to a
    function whose parameters are listed with a flag telling whether
    they have a default.  The interpreter binds the arguments before the
    body runs: a keyword that names no parameter, or a parameter without
    default that no keyword names, raises [TypeError]. *)
Definition bind_keywords (params : list (string * bool)) (keywords : list string)
  : res unit :=
  if forallb (fun k => existsb (fun p => String.eqb k (fst p)) params) keywords
     && forallb (fun p => snd p || existsb (String.eqb (fst p)) keywords) params
  then Ok tt
  else Raise TypeError.

End PyCall.

Module LlmSig.

Local Open Scope string_scope.

(** [def ask_llm(messages, scope="llm_resp", use_cache=True)]. *)
Definition ask_llm_params : list (string * bool) :=
  [("messages", false); ("scope", true); ("use_cache", true)].

End LlmSig.

Module RouterNodes.

Import Router.
Local Open Scope string_scope.

(** [relevance_check_node]: writes [outputs["relevance"]]. *)
Definition relevance_check_node (state : GraphState) : GraphState :=
  let msg := last_user_text (turns state) in
  Router.mkState (step state) (turns state) (param_segment state)
    (param_allow_zero_shot state) (Some (negb (is_unrelated msg))).

(** [classify_segment_zero_shot].  The call of [ask_llm] passes the
    keywords [prompt], [system], [temperature] and [max_tokens];
    [awaited] is what the awaited call gives once its arguments are
    bound, and [read_segment] is the reading of the reply: the search
    for a braced group, [json.loads] and [data.get("segment")].  Every
    exception inside the [try] gives [None]. *)
Definition classify_segment_zero_shot `{Unicode}
    (awaited : res pystr) (read_segment : pystr -> res (option pystr))
    (msg hist : pystr) : option string :=
  match bind (PyCall.bind_keywords LlmSig.ask_llm_params
                ["prompt"; "system"; "temperature"; "max_tokens"])
             (fun _ => awaited) with
  | Raise _ => None
  | Ok resp =>
    match read_segment resp with
    | Raise _ => None
    | Ok found =>
      let seg := lower (strip (match found with Some s => s | None => [] end)) in
      if eqb_str seg (u "camping") then Some "camping"
      else if eqb_str seg (u "experience") then Some "experience"
      else if eqb_str seg (u "sports") then Some "sports"
      else None
    end
  end.

End RouterNodes.

(** ** [app_server.py]: one request through the four stages *)

Module AppServer.

Import ScriptCatalog LengthControl RouterNodes.
Local Open Scope string_scope.

(** [ChatRequest].  The stored progress is read through its three
    keys, as the Script Engine does. *)
Record ChatRequest := mkRequest {
  req_message : pystr;
  req_segment : option string;
  req_allow_zero_shot : bool;
  req_script_progress : option Progress;
  req_last_slot : option string;
  req_length_style : option string;
  req_max_chars : option Z;
  req_max_tokens : option Z
}.

(** [ChatResponse]: the [domain] and [script] entries of the outputs
    and the parameter bag as the stages leave it. *)
Record ChatResponse := mkResponse {
  resp_domain : value;
  resp_script : value;
  resp_script_progress : option Progress;
  resp_length_style : option string
}.

(** The entries of the outputs as payload values. *)
Definition opt_value (s : option string) : value :=
  match s with
  | Some x => VStr (u x)
  | None => VAtom ANone
  end.

Definition names (l : list string) : value := VList (List.map VStr (List.map u l)).

Definition progress_value (p : Progress) : value :=
  VDict [("section", VStr (u (section p)));
         ("index", VAtom (AInt (index p)));
         ("answered", names (answered p))].

Definition domain_value (o : Router.DomainOutput) : value :=
  match o with
  | Router.Explicit routed_step =>
    VDict [("routed_step", VStr (u routed_step)); ("via", VStr (u "explicit"))]
  | Router.Decision d =>
    VDict [("intent", VStr (u (Router.intent d)));
           ("domain", VStr (u (Router.domain d)));
           ("confidence", VAtom (AFloat (Router.confidence d)));
           ("subdomain", opt_value (Router.subdomain d));
           ("segment", opt_value (Router.segment d));
           ("via", opt_value (Router.via d));
           ("isOnTopic", VAtom (ABool (Router.isOnTopic d)));
           ("onTopicScore", VAtom (AFloat (Router.onTopicScore d)))]
  end.

Definition script_value (o : NodesScript.ScriptOutput) : value :=
  match o with
  | NodesScript.Notice message =>
    VDict [("mode", VStr (u "notice")); ("message", VStr message)]
  | NodesScript.End message =>
    VDict [("mode", VStr (u "end")); ("message", VStr message);
           ("progress", VAtom ANone)]
  | NodesScript.Ask question slot_key section progress =>
    VDict [("mode", VStr (u "ask")); ("question", VStr question);
           ("slot_key", VStr (u slot_key)); ("section", VStr (u section));
           ("progress", progress_value progress)]
  end.

Definition int_param (z : option Z) : pyval :=
  match z with
  | Some n => PInt n
  | None => PNone
  end.

(** [outputs.get(key, {})] on the trimmed outputs. *)
Definition entry (key : string) (outputs : value) : value :=
  match outputs with
  | VDict d => match dict_get d key with
               | Some v => v
               | None => VDict []
               end
  | _ => VDict []
  end.

(** [chat].  The state starts with the one user turn, the request as
    parameter bag, no outputs and an empty step; the four stages run in
    order.  [query] stands for [state.inputs["query"]], which the
    handler does not set; [awaited] and [read_segment] are the reply of
    the remote model and its reading, as in
    [classify_segment_zero_shot]. *)
Definition chat `{Unicode} `{Runtime}
    (awaited : res pystr) (read_segment : pystr -> res (option pystr))
    (query : pystr) (req : ChatRequest) : res ChatResponse :=
  let st := Router.mkState EmptyString [Router.mkTurn "user" (req_message req)]
              (req_segment req) (req_allow_zero_shot req) None in
  (* 1 *)
  let st := relevance_check_node st in
  let related := Router.relevance_related st in
  let '(domain, _) :=
    Router.domain_detect_node (classify_segment_zero_shot awaited read_segment) st in
  (* 2 *)
  let script_state :=
    NodesScript.mkState [NodesScript.mkTurn "user" (req_message req)]
      (req_script_progress req) (req_last_slot req) (req_segment req)
      (match domain with
       | Router.Decision d => Some (Router.isOnTopic d)
       | Router.Explicit _ => None
       end)
      (match domain with
       | Router.Decision d => Router.segment d
       | Router.Explicit _ => None
       end) in
  bind (NodesScript.script_qna_node script_state) (fun r =>
  let outputs :=
    VDict [("relevance",
            VDict [("related",
                    VAtom (ABool (match related with Some b => b | None => true end)))]);
           ("domain", domain_value domain);
           ("script", script_value (fst r))] in
  (* 3 *)
  bind (apply_length_control
          (mkState query (req_length_style req) (int_param (req_max_chars req))
             (int_param (req_max_tokens req)) outputs)) (fun st =>
  Ok (mkResponse (entry "domain" (LengthControl.outputs st))
        (entry "script" (LengthControl.outputs st))
        (snd r) (param_length_style st)))).

End AppServer.

(** ** [json.dumps] as the sources call it *)

Module Json.

Local Open Scope string_scope.

(** A lower-case hexadecimal digit. *)
Definition hex_digit (n : N) : N :=
  if (n <? 10)%N then (48 + n)%N else (87 + n)%N.

(** The escape of one character with [ensure_ascii=False]: the quote
    and the backslash get a backslash, the control characters below
    U+0020 their short escape or [\u00XX], and every other character
    is written as it is. *)
Definition escape_char (c : N) : pystr :=
  if (c =? 34)%N then [92; 34]%N
  else if (c =? 92)%N then [92; 92]%N
  else if (c =? 10)%N then [92; 110]%N
  else if (c =? 13)%N then [92; 114]%N
  else if (c =? 9)%N then [92; 116]%N
  else if (c =? 8)%N then [92; 98]%N
  else if (c =? 12)%N then [92; 102]%N
  else if (c <? 32)%N then
    [92; 117; 48; 48; hex_digit (c / 16); hex_digit (c mod 16)]%N
  else [c].

Definition escape (s : pystr) : pystr := flat_map escape_char s.

Definition dumps_str (s : pystr) : pystr := ([34%N] ++ escape s ++ [34%N])%list.

(** The values of the dicts the sources serialise: strings and
    booleans. *)
Inductive scalar :=
| JStr (s : pystr)
| JBool (b : bool).

Definition dumps_scalar (v : scalar) : pystr :=
  match v with
  | JStr s => dumps_str s
  | JBool true => u "true"
  | JBool false => u "false"
  end.

(** A dict with string keys, in insertion order. *)
Definition object := list (pystr * scalar).

Definition dumps_item (key_sep : pystr) (kv : pystr * scalar) : pystr :=
  (dumps_str (fst kv) ++ key_sep ++ dumps_scalar (snd kv))%list.

(** [json.dumps(d, ensure_ascii=False, separators=(item_sep, key_sep))]
    on a dict and on a list of dicts. *)
Definition dumps_dict (item_sep key_sep : pystr) (d : object) : pystr :=
  ([123%N] ++ join item_sep (List.map (dumps_item key_sep) d) ++ [125%N])%list.

Definition dumps_list (item_sep key_sep : pystr) (l : list object) : pystr :=
  ([91%N] ++ join item_sep (List.map (dumps_dict item_sep key_sep) l) ++ [93%N])%list.

(** The default separators. *)
Definition ITEM_SEP : pystr := u ", ".
Definition KEY_SEP : pystr := u ": ".

End Json.

(** ** What the process does not compute *)

Module Services.

(** The settings read from the environment when the process starts. *)
Class Settings := {
  LLM_MODEL : pystr;
  KNOWLEDGE_VERSION : pystr;
  CACHE_TTL_SECONDS : Z
}.

(** [hashlib.sha256(s.encode("utf-8")).hexdigest()]. *)
Class Hashlib := {
  sha256_hex : pystr -> pystr
}.

(** An exception raised by a service: the class the handlers of
    [app.py] tell apart, and its [str]. *)
Inductive failure_class := RateLimitError | AuthenticationError | OtherException.

Record failure := mkFailure { cls : failure_class; str : pystr }.

(** The result of a call that may raise. *)
Inductive io (A : Type) :=
| Returned (a : A)
| Raised (e : failure).
Arguments Returned {A} a.
Arguments Raised {A} e.

(** The answers of the outside world during one call of a function
    of the program: the clock, the Redis server ([GET key] and
    [SET key value EX ttl] through a client that decodes responses),
    and the completion API.  [completion] is what
    [resp.choices[0].message.content] evaluates to, or the exception
    raised on the way; [completion_stream] lists, for every chunk
    received, the content of its first choice's delta ([None] when
    the chunk has no choice, no delta or no content), and the
    exception that ended the stream, if one did. *)
Record World := mkWorld {
  time_time : Q;
  redis_get : pystr -> io (option pystr);
  redis_set : pystr -> option pystr -> Z -> io unit;
  completion : list (pystr * pystr) -> io (option pystr);
  completion_stream : list (pystr * pystr) -> list (option pystr) * option failure
}.

(** Truthiness of a string and of an optional string. *)
Definition truthy (s : pystr) : bool :=
  match s with [] => false | _ :: _ => true end.

Definition truthy_opt (s : option pystr) : bool :=
  match s with Some t => truthy t | None => false end.

End Services.

(** ** core/cache.py *)

Module Cache.

Import Services.

Record CacheEntry := mkEntry {
  value : option pystr;
  created_at : Q;
  version : pystr
}.

Definition _h `{Hashlib} (s : pystr) : pystr := sha256_hex s.

(** The dict [self._mem]. *)
Definition Mem := list (pystr * CacheEntry).

Fixpoint mem_get (mem : Mem) (k : pystr) : option CacheEntry :=
  match mem with
  | [] => None
  | (k', v) :: rest => if eqb_str k' k then Some v else mem_get rest k
  end.

Definition mem_set (mem : Mem) (k : pystr) (v : CacheEntry) : Mem := (k, v) :: mem.

Definition _key `{Hashlib} (scope raw ver : pystr) : pystr :=
  (u "pc:" ++ scope ++ u ":" ++ ver ++ u ":" ++ _h raw)%list.

(** [MultiLayerCache.get]: the result and the memory layer after the
    call.  A [CacheEntry] is truthy whatever it holds. *)
Definition get `{Hashlib} (w : World) (mem : Mem) (scope raw ver : pystr)
  : io (option pystr) * Mem :=
  let k := _key scope raw ver in
  match mem_get mem k with
  | Some v => (Returned (value v), mem)
  | None =>
    match redis_get w k with
    | Raised e => (Raised e, mem)
    | Returned (Some rv) =>
      if truthy rv
      then (Returned (Some rv), mem_set mem k (mkEntry (Some rv) (time_time w) ver))
      else (Returned None, mem)
    | Returned None => (Returned None, mem)
    end
  end.

(** [MultiLayerCache.set]: the memory layer is written first, then
    Redis. *)
Definition set `{Settings} `{Hashlib} (w : World) (mem : Mem) (scope raw ver : pystr)
    (val : option pystr) (ttl : option Z) : io unit * Mem :=
  let k := _key scope raw ver in
  let mem' := mem_set mem k (mkEntry val (time_time w) ver) in
  let ex := match ttl with
            | Some t => if (t =? 0)%Z then CACHE_TTL_SECONDS else t
            | None => CACHE_TTL_SECONDS
            end in
  (redis_set w k val ex, mem').

End Cache.

(** ** core/llm.py *)

Module Llm.

Import Services Cache Json.

(** A message: its role and its content. *)
Definition Message := (pystr * pystr)%type.

Definition role (m : Message) : pystr := fst m.
Definition content (m : Message) : pystr := snd m.

Definition _normalize_messages (messages : list Message) : pystr :=
  let norm := List.map (fun m =>
                [(u "role", JStr (strip (role m)));
                 (u "content", JStr (join (u " ") (split (content m))))]) messages in
  dumps_list (u ",") (u ":") norm.

Definition cache_key `{Settings} (messages : list Message) : pystr :=
  (_normalize_messages messages ++ u "|model=" ++ LLM_MODEL)%list.

(** [ask_llm], on the module's cache [mem]: the answer or the
    exception, and the memory layer after the call. *)
Definition ask_llm `{Settings} `{Hashlib} (w : World) (mem : Mem)
    (messages : list Message) (scope : pystr) (use_cache : bool)
  : io (option pystr) * Mem :=
  let key := cache_key messages in
  let call (mem1 : Mem) :=
    match completion w messages with
    | Raised e => (Raised e, mem1)
    | Returned out =>
      if use_cache
      then match set w mem1 scope key KNOWLEDGE_VERSION out None with
           | (Raised e, mem2) => (Raised e, mem2)
           | (Returned _, mem2) => (Returned out, mem2)
           end
      else (Returned out, mem1)
    end in
  if use_cache
  then match get w mem scope key KNOWLEDGE_VERSION with
       | (Raised e, mem1) => (Raised e, mem1)
       | (Returned hit, mem1) =>
         if truthy_opt hit then (Returned hit, mem1) else call mem1
       end
  else call mem.

(** The events of [stream_llm]. *)
Inductive Event :=
| Meta (model : pystr) (cached : bool)
| Token (delta : pystr)
| Done (cached : bool) (error : option pystr).

(** The texts of the chunks that carry one. *)
Definition deltas (chunks : list (option pystr)) : list pystr :=
  flat_map (fun c => match c with
                     | Some text => if truthy text then [text] else []
                     | None => []
                     end) chunks.

(** [stream_llm], consumed to its end: the events yielded, the
    exception that left the generator (only the cache lookup before
    the first event is outside the [try]), and the memory layer. *)
Definition stream_llm `{Settings} `{Hashlib} (w : World) (mem : Mem)
    (messages : list Message) (scope : pystr) (use_cache : bool)
  : list Event * option failure * Mem :=
  let key := cache_key messages in
  match (if use_cache then get w mem scope key KNOWLEDGE_VERSION
         else (Returned None, mem)) with
  | (Raised e, mem1) => ([], Some e, mem1)
  | (Returned hit, mem1) =>
    let meta := Meta LLM_MODEL (truthy_opt hit) in
    match hit with
    | Some text =>
      (meta :: List.map (fun ch => Token [ch]) text ++ [Done true None], None, mem1)
    | None =>
      let '(chunks, failed) := completion_stream w messages in
      let acc := deltas chunks in
      match failed with
      | Some e => (meta :: List.map Token acc ++ [Done false (Some (str e))], None, mem1)
      | None =>
        let final_text := List.concat acc in
        match set w mem1 scope key KNOWLEDGE_VERSION (Some final_text) None with
        | (Raised e, mem2) =>
          (meta :: List.map Token acc ++ [Done false (Some (str e))], None, mem2)
        | (Returned _, mem2) =>
          (meta :: List.map Token acc ++ [Done false None], None, mem2)
        end
      end
    end
  end.

(** The dict an event is yielded as: its name and its data. *)
Definition event_name (ev : Event) : pystr :=
  match ev with
  | Meta _ _ => u "meta"
  | Token _ => u "token"
  | Done _ _ => u "done"
  end.

Definition event_data (ev : Event) : object :=
  match ev with
  | Meta model cached => [(u "model", JStr model); (u "cached", JBool cached)]
  | Token delta => [(u "delta", JStr delta)]
  | Done cached None => [(u "cached", JBool cached)]
  | Done cached (Some e) => [(u "cached", JBool cached); (u "error", JStr e)]
  end.

End Llm.

(** ** core/prefetcher.py *)

Module Prefetcher.

Import Json.

Definition STATE_KEYS : list pystr := [u "topic"; u "season"; u "audience"; u "phase"].

Fixpoint state_get (state : object) (k : pystr) : option scalar :=
  match state with
  | [] => None
  | (k', v) :: rest => if eqb_str k' k then Some v else state_get rest k
  end.

Definition _state_key (state : object) : pystr :=
  let k := flat_map (fun x => match state_get state x with
                              | Some v => [(x, v)]
                              | None => []
                              end) STATE_KEYS in
  dumps_dict ITEM_SEP KEY_SEP k.

End Prefetcher.

(** ** app.py *)

Module App.

Import Services Cache Llm Json.

Local Open Scope string_scope.

Record ChatIn := mkChatIn {
  session_id : pystr;
  topic : pystr;
  season : pystr;
  audience : pystr;
  phase : pystr;
  message : pystr
}.

Definition sse_pack (event : pystr) (data : object) : pystr :=
  (u "event: " ++ event ++ [10%N] ++ u "data: " ++ dumps_dict ITEM_SEP KEY_SEP data
   ++ [10%N; 10%N])%list.

Definition system : pystr :=
  u "너는 여행/레저 도메인 창업 아이디어 코치야. 간결하게 구체적으로 답해.".

Definition msgs (in_ : ChatIn) : list Message :=
  [(u "system", system); (u "user", message in_)].

(** The state [chat] and [chat_stream] hand to the prefetcher. *)
Definition state_of (in_ : ChatIn) : object :=
  [(u "topic", JStr (topic in_)); (u "season", JStr (season in_));
   (u "audience", JStr (audience in_)); (u "phase", JStr (phase in_))].

Definition error_name (c : failure_class) : pystr :=
  match c with
  | RateLimitError => u "rate_limit"
  | AuthenticationError => u "auth_error"
  | OtherException => u "server_error"
  end.

(** [real_generator] of [chat_stream], consumed to its end: the
    frames sent, whether the prefetch of the next turn was scheduled,
    and the memory layer of the cache of [core.llm]. *)
Definition real_generator `{Settings} `{Hashlib} (w : World) (mem : Mem) (in_ : ChatIn)
  : list pystr * bool * Mem :=
  let '(events, raised, mem') := stream_llm w mem (msgs in_) (u "chat") true in
  let frames := List.map (fun ev => sse_pack (event_name ev) (event_data ev)) events in
  match raised with
  | Some e =>
    ((frames ++ [sse_pack (u "done")
                   [(u "error", JStr (error_name (cls e))); (u "detail", JStr (str e))]])%list,
     false, mem')
  | None => (frames, true, mem')
  end.

(** The key [get_prefetch] looks the prefetched texts up with. *)
Definition prefetch_key (topic season audience phase : pystr) : pystr :=
  dumps_dict ITEM_SEP KEY_SEP
    [(u "topic", JStr topic); (u "season", JStr season);
     (u "audience", JStr audience); (u "phase", JStr phase)].

End App.

(* ===================================================================== *)
(** * Part II: the vocabulary of the properties                           *)
(* ===================================================================== *)

(** The notions in which the properties below are stated, and the
    concrete inputs on which they are run. *)

Module ScriptSpec.

Import ScriptCatalog NodesScript.
Local Open Scope string_scope.

(** A progress is invalid when its section is none of A, B, C, D, or
    its index lies outside the slot list of its section. *)
Definition invalid_progress (p : Progress) : Prop :=
  ~ In (section p) flow \/
  exists order, dict_get SECTION_ORDER (section p) = Some order /\
                (index p < 0 \/ Z.of_nat (List.length order) <= index p)%Z.

(** Two resubmitted states with an invalid progress: an unknown
    section, and an index past the end of section B. *)
Definition bad_section_state : GraphState :=
  NodesScript.mkState [NodesScript.mkTurn "user" (u "네")]
    (Some (mkProgress "E" 0 ["A1_problem"])) (Some "A1_problem") None (Some true) None.

Definition bad_index_state : GraphState :=
  NodesScript.mkState [NodesScript.mkTurn "user" (u "네")]
    (Some (mkProgress "B" 5 ["A1_problem"])) (Some "B5_edge") None None None.

(** A candidate for a jump: a slot of the section strictly after the
    current index that is not in the answered set. *)
Definition candidate (p : Progress) (order : list string) (sid : string) (i : nat) : Prop :=
  nth_error order i = Some sid /\ (index p < Z.of_nat i)%Z /\ ~ In sid (answered p).

(** The slot list of the section of a progress; empty for an unknown
    section. *)
Definition section_slots (p : Progress) : list string :=
  match dict_get SECTION_ORDER (section p) with
  | Some o => o
  | None => []
  end.

(** A progress in section B with its first slot answered, a text that
    scores on [B4_diff], and a text that scores on nothing. *)
Definition jump_progress : Progress := mkProgress "B" 0 ["B1_core_service"].

Definition jump_text : pystr := u "경쟁사와 차별화, 강점".

Definition plain_text : pystr := u "네".

(** The 26 slots in catalogue order. *)
Definition ALL_SLOTS : list string := (A_ORDER ++ B_ORDER ++ C_ORDER ++ D_ORDER)%list.

(** The slot a progress points at. *)
Definition slot_of (p : Progress) : string :=
  nth (Z.to_nat (index p)) (section_slots p) EmptyString.

(** The progress points at a slot of a known section. *)
Definition validb (p : Progress) : bool :=
  match dict_get SECTION_ORDER (section p) with
  | Some order => ((0 <=? index p) && (index p <? Z.of_nat (List.length order)))%Z
  | None => false
  end.

(** The progress after the current slot has been answered without any
    keyword: the slot is marked, then the linear step is taken; when
    the linear step gives nothing the marked progress is kept. *)
Definition mark (p : Progress) : Progress :=
  mkProgress (section p) (index p) (add_answered (slot_of p) (answered p)).

Definition advance (p : Progress) : Progress :=
  match next_progress (mark p) with
  | Ok (Some n) => n
  | _ => mark p
  end.

(** The progress after [n] answers, from [first_progress]. *)
Definition walk (n : nat) : Progress := Nat.iter n advance first_progress.

(** The slot an output asks, if it asks one. *)
Definition slot_key_of (out : ScriptOutput) : option string :=
  match out with
  | Ask _ slot _ _ => Some slot
  | _ => None
  end.

(** The failing turn on its own: all other slots answered, the cursor on
    the last slot of section D, and that slot answered now. *)
Definition last_answer_state : GraphState :=
  NodesScript.mkState [NodesScript.mkTurn "user" plain_text]
    (Some (mkProgress "D" 9 (removelast ALL_SLOTS))) (Some "D10_trust")
    None (Some true) None.

End ScriptSpec.

Module RouterSpec.

Import Router.
Local Open Scope string_scope.

(** [max] over the scored segments, as a function of the three hit
    counts. *)
Definition pick (a b c : nat) : option string :=
  match List.filter (fun kv : string * nat => (0 <? snd kv)%nat)
          [("camping", a); ("experience", b); ("sports", c)] with
  | [] => None
  | kv :: rest => Some (fst (max_by (fun kv => (snd kv, tie_order (fst kv))) kv rest))
  end.

(** A message with one camping keyword and one experience keyword. *)
Definition tie_message : pystr := u "캠핑 체험 하고 싶어요".

(** A remote classifier that never answers, and a turn of small talk
    with the decision the router takes on it. *)
Definition no_classifier : pystr -> pystr -> option string := fun _ _ => None.

Definition chatter_state : GraphState :=
  Router.mkState EmptyString [Router.mkTurn "user" (u "hello there")] None false (Some true).

Definition chatter_decision : DomainDecision :=
  mkDecision "script_qna" "travel" (30 # 100) None None (Some "unrelated") false (0 # 100).

End RouterSpec.

Module LengthSpec.

Import Regex LengthControl.
Local Open Scope string_scope.

(** Induction over payloads, through lists and dicts. *)
Fixpoint value_rect' (P : value -> Prop)
    (Hatom : forall a, P (VAtom a))
    (Hstr : forall s, P (VStr s))
    (Hlist : forall l, Forall P l -> P (VList l))
    (Hdict : forall d, Forall (fun kv => P (snd kv)) d -> P (VDict d))
    (v : value) {struct v} : P v :=
  match v with
  | VAtom a => Hatom a
  | VStr s => Hstr s
  | VList l =>
    Hlist l ((fix go (l : list value) : Forall P l :=
                match l with
                | [] => Forall_nil P
                | x :: l' => Forall_cons x (value_rect' P Hatom Hstr Hlist Hdict x) (go l')
                end) l)
  | VDict d =>
    Hdict d ((fix go (d : list (string * value)) : Forall (fun kv => P (snd kv)) d :=
                match d with
                | [] => Forall_nil _
                | kv :: d' =>
                  Forall_cons kv (value_rect' P Hatom Hstr Hlist Hdict (snd kv)) (go d')
                end) d)
  end.

(** The shape relation between an input and its trimmed image: atoms
    are equal; a string maps to a string; a list of strings maps to a
    list of strings; any other list maps element by element; a dict
    maps to a dict with the same keys in the same order, the values
    under a metadata key being equal and the others related in turn. *)
#[warnings="-register-all"] Inductive same_shape : value -> value -> Prop :=
| shape_atom (a : atom) : same_shape (VAtom a) (VAtom a)
| shape_str (s s' : pystr) : same_shape (VStr s) (VStr s')
| shape_strings (l l' : list value) :
    forallb is_str l = true -> forallb is_str l' = true ->
    same_shape (VList l) (VList l')
| shape_list (l l' : list value) :
    forallb is_str l = false -> Forall2 same_shape l l' ->
    same_shape (VList l) (VList l')
| shape_dict (d d' : list (string * value)) :
    Forall2 (fun kv kv' =>
               fst kv = fst kv' /\
               (mem (fst kv) SKIP_KEYS = true -> snd kv = snd kv') /\
               (mem (fst kv) SKIP_KEYS = false -> same_shape (snd kv) (snd kv')))
            d d' ->
    same_shape (VDict d) (VDict d').

(** The malformed values for which the caps fall back to the defaults:
    a blank or non-numeric string, the boolean [False], zero, a
    negative integer, a finite float that is zero or negative, and a
    string that reads as such a float. *)
Inductive malformed `{Runtime} : pyval -> Prop :=
| mal_blank (s : pystr) : strip s = [] -> malformed (PStr s)
| mal_non_numeric (s : pystr) : float_of_str (strip s) = None -> malformed (PStr s)
| mal_false : malformed (PBool false)
| mal_zero : malformed (PInt 0)
| mal_negative (z : Z) : (z < 0)%Z -> malformed (PInt z)
| mal_float (q : Q) : (q <= 0)%Q -> malformed (PFloat (Finite q))
| mal_numeric_string (s : pystr) (q : Q) :
    float_of_str (strip s) = Some (Finite q) -> (q <= 0)%Q -> malformed (PStr s).

(** The state [apply_length_control] returns when both caps take their
    defaults: the outputs trimmed under the resolved style with a char
    cap of 4000 and no caller token cap. *)
Definition with_default_caps `{Runtime} (state : State) : State :=
  let style := match nonempty (param_length_style state) with
               | Some s => s
               | None => decide_length_style (query state) "medium"
               end in
  mkState (query state) (Some style) (param_max_chars state) (param_max_tokens state)
    (trim_payload (outputs state) (Some style) 4000 None (Some new_tokenizer)).

(** A state with a non-numeric char cap and a negative token cap. *)
Definition malformed_state : State :=
  mkState (u "짧게 요약해줘") None (PStr (u "abc")) (PInt (-3))
    (VDict [("answer", VStr (u "hello"))]).

(** A state whose char cap is the boolean [True]. *)
Definition true_cap_state : State :=
  mkState (u "길게") None (PBool true) PNone (VDict [("answer", VStr (u "hello"))]).

(** A fence pattern: three copies of one character. *)
Definition triple (f : N) : pystr := [f; f; f].

(** The character at a position. *)
Definition at_pos (s : pystr) (i : nat) (c : N) : Prop := nth_error s i = Some c.

(** A string that is empty or starts with another character than [f]. *)
Definition no_lead (f : N) (b : pystr) : Prop :=
  match b with
  | [] => True
  | x :: _ => x <> f
  end.

(** Both fence counts are even. *)
Definition fences_even (s : pystr) : Prop :=
  Nat.odd (count _FENCE_TRIPLE s) = false /\ Nat.odd (count _FENCE_TILDES s) = false.

(** The characters an alternative, or a pattern, can match. *)
Definition alt_class (a : alt) (c : N) : bool :=
  match a with
  | Run cls => cls c
  | Single cls => cls c
  end.

Definition any_class (re : list alt) (c : N) : bool :=
  existsb (fun a => alt_class a c) re.

(** The characters the two fences are made of. *)
Definition fence_char (c : N) : bool := ((c =? 96) || (c =? 126))%N.

(** Two adjacent characters, neither a fence character, among the six
    characters before position [k]. *)
Definition link_witness (text : pystr) (k : nat) : Prop :=
  exists q y z, k - 6 <= q /\ q + 1 < k /\
                at_pos text q y /\ at_pos text (q + 1) z /\
                fence_char y = false /\ fence_char z = false.

(** A closed code block followed by a link marker, cut at 12. *)
Definition fenced_link_text : pystr := u "```a b```](.zzz".

(** The same shape at the size of the pipeline: a [one_liner] of 151
    characters, cut at the cap of 140. *)
Definition fenced_one_liner : pystr :=
  (u "```" ++ repeat 120%N 120 ++ u " y```](." ++ repeat 122%N 20)%list.

(** The char cap of the [bullets] policy. *)
Definition bullet_cap (s : pystr) : pystr := enforce_char_cap s 250 false.

(** Eight bullets, the first of 300 characters. *)
Definition eight_bullets : list pystr :=
  repeat 97%N 300 :: List.map (fun c => [c]) (u "bcdefgh").

(** The entry count of the list policy of a key. *)
Definition max_count_of (key : option string) : Z :=
  get_default (p_max_count (get_default (KEY_POLICY (key_or_empty key)) list_policy)) 7%Z.

(** No token cap is in force: it is absent, zero or negative. *)
Definition token_cap_idle (token_cap : option Z) : Prop :=
  forall t, token_cap = Some t -> (t <= 0)%Z.

(** A payload on which a second trimming has nothing left to do: no
    string has an unclosed fence, and no list of strings has more than
    one entry beyond the count of its policy.  Values under a metadata
    key are not looked at. *)
#[warnings="-register-all"] Inductive steady : option string -> value -> Prop :=
| steady_atom (key : option string) (a : atom) : steady key (VAtom a)
| steady_str (key : option string) (s : pystr) : fences_even s -> steady key (VStr s)
| steady_strings (key : option string) (l : list value) :
    forallb is_str l = true ->
    (Z.of_nat (List.length l) <= max_count_of key + 1)%Z ->
    Forall fences_even (strings_of l) ->
    steady key (VList l)
| steady_list (key : option string) (l : list value) :
    forallb is_str l = false -> Forall (steady key) l -> steady key (VList l)
| steady_dict (key : option string) (d : list (string * value)) :
    Forall (fun kv => mem (fst kv) SKIP_KEYS = false -> steady (Some (fst kv)) (snd kv)) d ->
    steady key (VDict d).

(** A payload with a text to cut, eight bullets, a metadata entry, an
    atom and a mixed list. *)
Definition steady_payload : value :=
  VDict [("answer", VStr (u "Plan the launch. Then measure it, and repeat."));
         ("bullets", VList (List.map VStr eight_bullets));
         ("domain", VDict [("segment", VStr (u "```"))]);
         ("count", VAtom (AInt 3));
         ("mixed", VList [VStr (u "one two three four"); VAtom ANone])].

(** Nine bullets: the first pass reports two dropped entries, the
    second pass, on the eight entries it finds, reports one. *)
Definition nine_bullets : value :=
  VDict [("bullets", VList (List.map (fun c => VStr [c]) (u "abcdefghi")))].

End LengthSpec.

(** ** The order of the catalogue *)

Module ScriptOrder.

Import ScriptCatalog NodesScript ScriptSpec.
Local Open Scope string_scope.

(** The number of slots in the sections before a section. *)
Definition section_offset (s : string) : Z :=
  if String.eqb s "A" then 0
  else if String.eqb s "B" then 4
  else if String.eqb s "C" then 9
  else 16.

(** The position in the catalogue of the slot a progress points at. *)
Definition rank (p : Progress) : Z := (section_offset (section p) + index p)%Z.

(** The progress a turn starts from: the resubmitted one, or the first. *)
Definition working_progress (state : GraphState) : Progress :=
  match param_script_progress state with
  | Some p => p
  | None => first_progress
  end.

(** A turn that answers the slot its progress points at. *)
Definition answering_state (p : Progress) (text : pystr) (segment : option string)
  : GraphState :=
  NodesScript.mkState [NodesScript.mkTurn "user" text] (Some p) (Some (slot_of p))
    segment (Some true) None.

(** A turn with a blank text on the first question. *)
Definition blank_answer_state : GraphState :=
  NodesScript.mkState [NodesScript.mkTurn "user" (u "   ")] (Some first_progress)
    (Some "A1_problem") None (Some true) None.

End ScriptOrder.

(** ** The rows of the decision table *)

Module RouterTable.

Import Router RouterNodes.
Local Open Scope string_scope.

(** What the node reads from the state. *)
Definition message (state : GraphState) : pystr := last_user_text (turns state).

Definition history (state : GraphState) : pystr :=
  short_history (turns state) MAX_HISTORY_TURNS.

Definition related (state : GraphState) : bool :=
  match relevance_related state with Some b => b | None => true end.

(** The decision for a message that failed the relevance check. *)
Definition unrelated_decision : DomainDecision :=
  mkDecision "script_qna" "travel" (30 # 100) None None (Some "unrelated") false 0.

(** A row of the decision table. *)
Definition row (d : DomainDecision) (seg : option string) (tag : string) (conf : Q)
    (on_topic : bool) : Prop :=
  segment d = seg /\ via d = Some tag /\ confidence d = conf /\ isOnTopic d = on_topic.

(** A turn with a segment override and a message about something else. *)
Definition override_state : GraphState :=
  Router.mkState EmptyString [Router.mkTurn "user" (u "!")] (Some "sports") true None.

End RouterTable.

(** ** Bounds of the caps *)

Module LengthBounds.

Import Regex LengthControl LengthSpec.
Local Open Scope string_scope.

(** The closing lines [_balance_fences] can append. *)
Definition closers (s : pystr) : pystr :=
  ((if Nat.odd (count _FENCE_TRIPLE s) then [10%N] ++ _FENCE_TRIPLE else [])
   ++ (if Nat.odd (count _FENCE_TILDES s) then [10%N] ++ _FENCE_TILDES else []))%list.

(** The cut of [soft_cut] before the link backoff: the end of the last
    sentence or the last word boundary of the snippet, moved back out
    of an open fenced block. *)
Definition fence_free_cut (text : pystr) (n : nat) : nat :=
  retreat text (stage_cut (firstn n text)).

(** A word: a non-empty string without whitespace. *)
Definition word (w : pystr) : Prop :=
  w <> [] /\ Forall (fun c => isspace c = false) w.

(** A tokenizer without an encoder: the whitespace fallback. *)
Definition fallback : Tokenizer := mkTokenizer None.

(** Every text of a payload has at most [n] characters.  The texts are
    the strings outside lists of strings; values under a metadata key
    are not looked at. *)
#[warnings="-register-all"] Inductive texts_within (n : Z) : value -> Prop :=
| within_atom (a : atom) : texts_within n (VAtom a)
| within_str (s : pystr) : (Z.of_nat (List.length s) <= n)%Z -> texts_within n (VStr s)
| within_strings (l : list value) : forallb is_str l = true -> texts_within n (VList l)
| within_list (l : list value) :
    forallb is_str l = false -> Forall (texts_within n) l -> texts_within n (VList l)
| within_dict (d : list (string * value)) :
    Forall (fun kv => mem (fst kv) SKIP_KEYS = false -> texts_within n (snd kv)) d ->
    texts_within n (VDict d).

(** The names of the four presets. *)
Definition STYLES : list string := ["one_line"; "short"; "medium"; "long"].

(** A parameter value that makes [int] raise: an infinity or NaN. *)
Definition not_finite (v : pyval) : Prop :=
  v = PFloat PosInf \/ v = PFloat NegInf \/ v = PFloat NaN.

(** Three bullets over a count of two. *)
Definition three_bullets : list pystr := [u "a"; u "b"; u "c"].

End LengthBounds.

(** ** The stages of a request *)

Module ChatSpec.

Import ScriptCatalog LengthControl RouterNodes AppServer.
Local Open Scope string_scope.

(** The state the router sees in [chat], after the relevance check. *)
Definition routed_state (req : ChatRequest) : Router.GraphState :=
  relevance_check_node
    (Router.mkState EmptyString [Router.mkTurn "user" (req_message req)]
       (req_segment req) (req_allow_zero_shot req) None).

(** The router's decision in [chat], and the state the Script Engine
    then sees. *)
Definition routed `{Unicode} (awaited : res pystr)
    (read_segment : pystr -> res (option pystr)) (req : ChatRequest)
  : Router.DomainOutput :=
  fst (Router.domain_detect_node (classify_segment_zero_shot awaited read_segment)
         (routed_state req)).

Definition script_state (domain : Router.DomainOutput) (req : ChatRequest)
  : NodesScript.GraphState :=
  NodesScript.mkState [NodesScript.mkTurn "user" (req_message req)]
    (req_script_progress req) (req_last_slot req) (req_segment req)
    (match domain with
     | Router.Decision d => Some (Router.isOnTopic d)
     | Router.Explicit _ => None
     end)
    (match domain with
     | Router.Decision d => Router.segment d
     | Router.Explicit _ => None
     end).

(** The answered ids of the progress inside a [script] entry. *)
Definition answered_of (script : value) : list value :=
  match entry "progress" script with
  | VDict _ as p => match entry "answered" p with
                    | VList l => l
                    | _ => []
                    end
  | _ => []
  end.

(** A text the caps of the pipeline leave alone: at most 60
    characters, at most 14 words, and no fence. *)
Definition smallb (t : pystr) : bool :=
  ((List.length t <=? 60) && (List.length (split t) <=? 14))%nat
  && negb (Nat.odd (count _FENCE_TRIPLE t)) && negb (Nat.odd (count _FENCE_TILDES t)).

(** A script output with the answered ids of its progress cut to the
    first seven. *)
Definition cut_answered (out : NodesScript.ScriptOutput) : NodesScript.ScriptOutput :=
  match out with
  | NodesScript.Ask question slot_key section progress =>
    NodesScript.Ask question slot_key section
      (mkProgress (ScriptCatalog.section progress) (index progress)
         (firstn 7 (answered progress)))
  | _ => out
  end.

(** A turn that answers the ninth slot of the catalogue, with the first
    eight answered. *)
Definition ninth_answer : ChatRequest :=
  mkRequest (u "캠핑 예약 플랫폼입니다") (Some "camping") false
    (Some (mkProgress "B" 4
             ["A1_problem"; "A2_pain"; "A3_reason"; "A4_unmet";
              "B1_core_service"; "B2_value"; "B3_features"; "B4_diff"]))
    (Some "B5_edge") None None None.

End ChatSpec.

(** ** JSON texts *)

Module JsonSpec.

Import Json.

(** The characters [escape_char] rewrites. *)
Definition is_special (c : N) : bool := ((c <? 32) || (c =? 34) || (c =? 92))%N.

Definition SPECIALS : list N := (List.map N.of_nat (seq 0 32) ++ [34; 92])%N.

(** One string is a prefix of the other. *)
Definition compatible (a b : pystr) : bool := starts_with a b || starts_with b a.

(** No control character: every character is U+0020 or above. *)
Definition printable (s : pystr) : Prop := Forall (fun c => (32 <= c)%N) s.

End JsonSpec.

(** ** Cache keys, streams and sample services *)

Module CoreSpec.

Import Services Cache Llm Json App.

(** What [_normalize_messages] keeps of a message: the role without
    the whitespace around it, and the words of the content. *)
Definition normal (m : Message) : pystr * list pystr :=
  (strip (role m), split (content m)).

(** A message as [_normalize_messages] serialises it, and the two
    strings it holds. *)
Definition message_object (m : Message) : object :=
  [(u "role", JStr (strip (role m)));
   (u "content", JStr (join (u " ") (split (content m))))].

Definition fields (m : Message) : pystr * pystr :=
  (strip (role m), join (u " ") (split (content m))).

(** The text a stream carried: its deltas, concatenated. *)
Definition text_of (events : list Event) : pystr :=
  List.concat (flat_map (fun ev => match ev with Token d => [d] | _ => [] end) events).

(** The replay of a cached text: one token per character. *)
Definition replay `{Settings} (text : pystr) : list Event :=
  (Meta LLM_MODEL (truthy text) :: List.map (fun ch => Token [ch]) text
   ++ [Done true None])%list.

(** A frame of the [done] event. *)
Definition is_done (frame : pystr) : bool :=
  starts_with (u "event: done" ++ [10%N])%list frame.

(** Sample services: SHA-256 replaced by the identity, a Redis server
    that holds nothing and accepts every write, an API that answers
    [hello] in two chunks. *)
Definition sample_settings : Settings :=
  {| LLM_MODEL := u "gpt-4o-mini"; KNOWLEDGE_VERSION := u "v1";
     CACHE_TTL_SECONDS := 86400 |}.

Definition sample_hashlib : Hashlib := {| sha256_hex := fun s => s |}.

Definition sample_world : World :=
  {| time_time := 0%Q;
     redis_get := fun _ => Returned None;
     redis_set := fun _ _ _ => Returned tt;
     completion := fun _ => Returned (Some (u "hello"));
     completion_stream := fun _ => ([Some (u "hel"); None; Some (u "lo")], None) |}.

(** The same with every service down. *)
Definition down : failure := mkFailure OtherException (u "down").

Definition dead_world : World :=
  {| time_time := 0%Q;
     redis_get := fun _ => Raised down;
     redis_set := fun _ _ _ => Raised down;
     completion := fun _ => Raised down;
     completion_stream := fun _ => ([], Some down) |}.

Definition sample_messages : list Message := [(u "user", u "hi  there")].

End CoreSpec.

(* ===================================================================== *)
(** * Part III: properties                                                *)
(* ===================================================================== *)

(** ** The Script Engine *)

Module ScriptProofs.

Import ScriptCatalog NodesScript ScriptSpec.
Local Open Scope string_scope.

(** The four sections are the keys of [SECTION_ORDER]. *)
Lemma section_order_none (s : string) :
  ~ In s flow -> dict_get SECTION_ORDER s = None.
Proof.
  intros Hn. unfold SECTION_ORDER, dict_get.
  destruct (String.eqb_spec s "A") as [->|_]; [exfalso; apply Hn; simpl; tauto|].
  destruct (String.eqb_spec s "B") as [->|_]; [exfalso; apply Hn; simpl; tauto|].
  destruct (String.eqb_spec s "C") as [->|_]; [exfalso; apply Hn; simpl; tauto|].
  destruct (String.eqb_spec s "D") as [->|_]; [exfalso; apply Hn; simpl; tauto|].
  reflexivity.
Qed.

Lemma section_order_some (s : string) (order : list string) :
  dict_get SECTION_ORDER s = Some order ->
  (s = "A" /\ order = A_ORDER) \/ (s = "B" /\ order = B_ORDER) \/
  (s = "C" /\ order = C_ORDER) \/ (s = "D" /\ order = D_ORDER).
Proof.
  unfold SECTION_ORDER, dict_get.
  destruct (String.eqb_spec s "A") as [->|_]; [intros [= <-]; tauto|].
  destruct (String.eqb_spec s "B") as [->|_]; [intros [= <-]; tauto|].
  destruct (String.eqb_spec s "C") as [->|_]; [intros [= <-]; tauto|].
  destruct (String.eqb_spec s "D") as [->|_]; [intros [= <-]; tauto|].
  discriminate.
Qed.

Lemma current_question_invalid (p : Progress) (segment : option string) :
  invalid_progress p -> current_question p segment = None.
Proof.
  intros [Hsec | (order & Hord & Hidx)]; unfold current_question.
  - now rewrite (section_order_none _ Hsec).
  - rewrite Hord. destruct order; [reflexivity|].
    replace ((index p <? 0)%Z || (Z.of_nat (List.length (s :: order)) <=? index p)%Z)
      with true; [reflexivity|].
    symmetry. apply orb_true_iff.
    destruct Hidx; [left; now apply Z.ltb_lt | right; now apply Z.leb_le].
Qed.



(** *** The stable descending sort and its head *)

Lemma insert_desc_head {A} (key : A -> nat) (x t : A) (r : list A) :
  insert_desc key x (t :: r) =
  if (key t <=? key x)%nat then x :: t :: r else t :: insert_desc key x r.
Proof. reflexivity. Qed.

(** The head of the sorted list is the first entry of the input whose
    key is maximal. *)
Lemma sorted_desc_head {A} (key : A -> nat) (l : list A) :
  l <> [] ->
  exists top rest pre post,
    sorted_desc key l = top :: rest /\ l = (pre ++ top :: post)%list /\
    (forall x, In x pre -> key x < key top) /\
    (forall x, In x post -> key x <= key top).
Proof.
  induction l as [|x l IH]; [congruence|]. intros _.
  destruct l as [|y l'].
  - exists x, [], [], []. simpl. repeat split; auto; intros ? [].
  - destruct IH as (top & rest & pre & post & Hs & Hl & Hpre & Hpost); [congruence|].
    cbn [sorted_desc] in *. rewrite Hs, insert_desc_head.
    destruct (Nat.leb_spec (key top) (key x)) as [Hle|Hlt].
    + exists x, (top :: rest), [], (y :: l'). repeat split; auto.
      * intros ? [].
      * intros z Hz. rewrite Hl in Hz. apply in_app_or in Hz.
        destruct Hz as [Hz|[<-|Hz]]; [apply Hpre in Hz|..|apply Hpost in Hz]; lia.
    + exists top, (insert_desc key x rest), (x :: pre), post. repeat split; auto.
      * now rewrite Hl.
      * intros z [<-|Hz]; [lia|now apply Hpre].
Qed.

(** *** Positions in a slot list *)

Lemma list_index_sound (x : string) (l : list string) (i : nat) :
  list_index x l = Some i -> nth_error l i = Some x.
Proof.
  revert i. induction l as [|y l IH]; intros i; simpl; [discriminate|].
  destruct (String.eqb_spec x y) as [->|Hne].
  - now intros [= <-].
  - destruct (list_index x l) as [j|]; simpl; [|discriminate].
    intros [= <-]. simpl. now apply IH.
Qed.

Lemma list_index_complete (x : string) (l : list string) (i : nat) :
  NoDup l -> nth_error l i = Some x -> list_index x l = Some i.
Proof.
  intros Hnd. revert i. induction Hnd as [|y l Hy Hnd IH]; intros i.
  - destruct i; discriminate.
  - destruct i as [|i]; simpl.
    + intros [= ->]. now rewrite String.eqb_refl.
    + intros Hi. destruct (String.eqb_spec x y) as [->|_].
      * exfalso. apply Hy. eapply nth_error_In; eauto.
      * now rewrite (IH _ Hi).
Qed.

Lemma filter_split {A} (f : A -> bool) (l pre post : list A) (x : A) :
  List.filter f l = (pre ++ x :: post)%list ->
  exists l1 l2, l = (l1 ++ x :: l2)%list /\
                List.filter f l1 = pre /\ List.filter f l2 = post /\ f x = true.
Proof.
  revert pre. induction l as [|y l IH]; intros pre; simpl.
  - destruct pre; discriminate.
  - destruct (f y) eqn:Hy.
    + destruct pre as [|z pre]; simpl.
      * intros [= -> <-]. exists [], l. simpl. auto.
      * intros [= -> Hl]. destruct (IH _ Hl) as (l1 & l2 & -> & H1 & H2 & Hx).
        exists (z :: l1), l2. simpl. rewrite Hy, H1. auto.
    + intros Hl. destruct (IH _ Hl) as (l1 & l2 & -> & H1 & H2 & Hx).
      exists (y :: l1), l2. simpl. rewrite Hy. auto.
Qed.

Lemma slot_lists_nodup (s : string) (order : list string) :
  dict_get SECTION_ORDER s = Some order -> NoDup order.
Proof.
  intros H. apply section_order_some in H.
  destruct H as [[_ ->]|[[_ ->]|[[_ ->]|[_ ->]]]];
    repeat (constructor; [simpl; intuition discriminate|]); constructor.
Qed.

Lemma mem_In (x : string) (l : list string) : mem x l = true <-> In x l.
Proof.
  unfold mem. rewrite existsb_exists. split.
  - intros (y & Hy & He). apply String.eqb_eq in He. now subst.
  - intros H. exists x. split; [assumption|apply String.eqb_refl].
Qed.

Lemma remaining_candidate (p : Progress) (order : list string) (sid : string) :
  NoDup order ->
  In sid (remaining_slots order (answered p) (index p)) <->
  exists i, candidate p order sid i.
Proof.
  intros Hnd. unfold remaining_slots, candidate, after_index.
  rewrite filter_In, andb_true_iff, negb_true_iff. split.
  - intros (Hin & Hm & Ha).
    destruct (list_index sid order) as [i|] eqn:Hi; [|discriminate].
    exists i. repeat split.
    + now apply list_index_sound.
    + apply Z.leb_le in Ha. lia.
    + intros Hc. apply mem_In in Hc. congruence.
  - intros (i & Hn & Hlt & Hna). split; [eapply nth_error_In; eauto|]. split.
    + destruct (mem sid (answered p)) eqn:Hm; [|reflexivity].
      apply mem_In in Hm. contradiction.
    + rewrite (list_index_complete _ _ _ Hnd Hn). apply Z.leb_le. lia.
Qed.

Lemma section_slots_nodup (p : Progress) : NoDup (section_slots p).
Proof.
  unfold section_slots.
  destruct (dict_get SECTION_ORDER (section p)) eqn:H; [|constructor].
  eapply slot_lists_nodup; eauto.
Qed.

(** Without a candidate of nonzero score the choice is the linear step. *)
Lemma choose_linear (U : Unicode) (p : Progress) (text : pystr) :
  (forall sid i, candidate p (section_slots p) sid i -> _score_slot text sid = 0) ->
  choose_next_progress p text = next_progress p.
Proof.
  intros Hz. unfold choose_next_progress. fold (section_slots p).
  destruct (section_slots p) as [|s0 order'] eqn:Hord; [reflexivity|].
  rewrite <- Hord in *.
  set (rem := remaining_slots _ _ _).
  destruct rem as [|r0 rem'] eqn:Hrem; [reflexivity|].
  destruct (sorted_desc_head (@snd string nat)
              (List.map (fun sid => (sid, _score_slot text sid)) (r0 :: rem')))
    as ([top sc] & rest & pre & post & Hs & Hl & _ & _); [discriminate|].
  rewrite Hs.
  assert (Hin : In (top, sc) (List.map (fun sid => (sid, _score_slot text sid)) (r0 :: rem')))
    by (rewrite Hl; apply in_elt).
  apply in_map_iff in Hin. destruct Hin as (sid & [= <- <-] & Hin).
  rewrite <- Hrem in Hin. subst rem.
  apply (remaining_candidate p _ sid (section_slots_nodup p)) in Hin.
  destruct Hin as (i & Hc). rewrite (Hz _ _ Hc). reflexivity.
Qed.

(** C7. If some slot of the current section strictly after the current
    index and outside the answered set has a nonzero keyword score,
    [choose_next_progress] returns the progress with the index set to
    the position of the highest-scoring such slot, the first one in list
    order among equals; if no such slot has a nonzero score, the result
    is that of [next_progress]. *)
Theorem C7_choose_next_progress (U : Unicode) (p : Progress) (text : pystr) :
  ((exists sid i, candidate p (section_slots p) sid i /\ 0 < _score_slot text sid) ->
   exists top j,
     candidate p (section_slots p) top j /\
     (forall s k, candidate p (section_slots p) s k ->
                  _score_slot text s <= _score_slot text top) /\
     (forall s k, candidate p (section_slots p) s k -> k < j ->
                  _score_slot text s < _score_slot text top) /\
     choose_next_progress p text = Ok (Some (with_index p (Z.of_nat j))))
  /\
  ((forall sid i, candidate p (section_slots p) sid i -> _score_slot text sid = 0) ->
   choose_next_progress p text = next_progress p).
Proof.
  split; [|apply choose_linear].
  intros (sid0 & i0 & Hc0 & Hpos0).
  pose proof (section_slots_nodup p) as Hnd.
  assert (Hin0 : In sid0 (remaining_slots (section_slots p) (answered p) (index p)))
    by (apply remaining_candidate; eauto).
  unfold choose_next_progress. fold (section_slots p).
  destruct (section_slots p) as [|s0 order'] eqn:Hord; [destruct Hin0|].
  rewrite <- Hord in *.
  destruct (remaining_slots (section_slots p) (answered p) (index p))
    as [|r0 rem'] eqn:Hrem; [destruct Hin0|].
  set (sc := fun sid => (sid, _score_slot text sid)).
  destruct (sorted_desc_head (@snd string nat) (List.map sc (r0 :: rem')))
    as ([top tsc] & rest & pre & post & Hs & Hl & Hpre & Hpost); [discriminate|].
  rewrite Hs.
  (* the split of the scored list is a split of the remaining slots *)
  assert (Hsplit : exists rpre rpost,
             (r0 :: rem') = (rpre ++ top :: rpost)%list /\
             pre = List.map sc rpre /\ post = List.map sc rpost /\
             tsc = _score_slot text top).
  { apply map_eq_app in Hl.
    destruct Hl as (rpre & r1 & Hr & Hp1 & Hp2).
    destruct r1 as [|t r1]; [discriminate|]. simpl in Hp2.
    injection Hp2 as Ht Hsc Hp2. subst t tsc.
    exists rpre, r1. auto. }
  destruct Hsplit as (rpre & rpost & Hr & -> & -> & ->).
  assert (Hmax : forall s, In s (r0 :: rem') -> _score_slot text s <= _score_slot text top).
  { intros s Hin. rewrite Hr in Hin. apply in_app_or in Hin.
    destruct Hin as [Hin|[<-|Hin]]; [|lia|].
    - specialize (Hpre (sc s) (in_map sc _ _ Hin)). simpl in Hpre. lia.
    - exact (Hpost (sc s) (in_map sc _ _ Hin)). }
  assert (Htop : 0 < _score_slot text top) by (specialize (Hmax _ Hin0); lia).
  apply Nat.ltb_lt in Htop. rewrite Htop.
  rewrite <- Hrem in Hr.
  destruct (filter_split _ _ _ _ _ Hr) as (o1 & o2 & Ho & Hf1 & Hf2 & Hft).
  assert (Hnth : nth_error (section_slots p) (List.length o1) = Some top).
  { rewrite Ho, nth_error_app2, Nat.sub_diag; [reflexivity|lia]. }
  rewrite (list_index_complete _ _ _ Hnd Hnth).
  assert (Hct : In top (remaining_slots (section_slots p) (answered p) (index p)))
    by (rewrite Hr; apply in_elt).
  apply (remaining_candidate p _ top Hnd) in Hct. destruct Hct as (j & Hcj).
  assert (j = List.length o1) as ->.
  { destruct Hcj as (Hj & _ & _).
    pose proof (list_index_complete _ _ _ Hnd Hj) as E1.
    pose proof (list_index_complete _ _ _ Hnd Hnth) as E2. congruence. }
  exists top, (List.length o1). repeat split; try apply Hcj.
  - intros s k Hc. apply Hmax. rewrite <- Hrem. apply remaining_candidate; eauto.
  - intros s k Hc Hk.
    assert (Hs1 : In s o1).
    { destruct Hc as (Hn & _ & _). rewrite Ho in Hn.
      rewrite nth_error_app1 in Hn by lia. eapply nth_error_In; eauto. }
    assert (Hsr : In s (remaining_slots (section_slots p) (answered p) (index p)))
      by (apply remaining_candidate; eauto).
    unfold remaining_slots in Hsr. apply filter_In in Hsr. destruct Hsr as [_ Hfs].
    assert (Hsp : In s rpre).
    { rewrite <- Hf1. apply filter_In. split; assumption. }
    specialize (Hpre (sc s) (in_map sc _ _ Hsp)). simpl in Hpre. exact Hpre.
Qed.

Lemma C7_witness :
  (exists top j,
     candidate jump_progress (section_slots jump_progress) top j /\
     (forall s k, candidate jump_progress (section_slots jump_progress) s k ->
                  _score_slot jump_text s <= _score_slot jump_text top) /\
     (forall s k, candidate jump_progress (section_slots jump_progress) s k -> k < j ->
                  _score_slot jump_text s < _score_slot jump_text top) /\
     choose_next_progress jump_progress jump_text
       = Ok (Some (with_index jump_progress (Z.of_nat j)))) /\
  choose_next_progress jump_progress plain_text = next_progress jump_progress.
Proof.
  split.
  - apply (proj1 (C7_choose_next_progress plain_unicode jump_progress jump_text)).
    exists "B4_diff", 3. split.
    + unfold candidate. split; [reflexivity|]. split; [simpl; lia|].
      simpl. intros [H|[]]. discriminate H.
    + vm_compute. lia.
  - apply (proj2 (C7_choose_next_progress plain_unicode jump_progress plain_text)).
    intros sid i (Hn & _ & _).
    do 5 (destruct i as [|i]; [injection Hn as <-; reflexivity|]).
    destruct i; discriminate Hn.
Defined.

(** *** The linear walk through the catalogue *)

Lemma walk_S (n : nat) : walk (S n) = advance (walk n).
Proof. reflexivity. Qed.

Lemma walk_stable (k : nat) : walk (26 + k) = walk 26.
Proof.
  induction k as [|k IH].
  - reflexivity.
  - replace (26 + S k) with (S (26 + k)) by lia.
    rewrite walk_S, IH. vm_compute. reflexivity.
Qed.

Lemma walk_cases (n : nat) : exists m, m <= 26 /\ walk n = walk m.
Proof.
  destruct (le_lt_dec n 26) as [H|H].
  - exists n. auto.
  - exists 26. split; [lia|]. replace n with (26 + (n - 26)) by lia. apply walk_stable.
Qed.

Ltac upto26 m H :=
  do 27 (destruct m as [|m]; [vm_compute; try reflexivity|]); exfalso; lia.

Lemma walk_valid (n : nat) : validb (walk n) = true.
Proof.
  destruct (walk_cases n) as (m & Hm & ->). upto26 m Hm.
Qed.

Lemma walk_slot (n : nat) :
  slot_of (walk n) = if (n <? 26)%nat then nth n ALL_SLOTS EmptyString else "D10_trust".
Proof.
  destruct (le_lt_dec 26 n) as [H|H].
  - replace n with (26 + (n - 26)) at 1 by lia. rewrite walk_stable.
    destruct (Nat.ltb_spec n 26); [lia|]. reflexivity.
  - do 26 (destruct n as [|n]; [vm_compute; reflexivity|]). exfalso; lia.
Qed.

Lemma app_nonempty (a b : pystr) : b <> [] -> exists c r, (a ++ b)%list = c :: r.
Proof.
  intros Hb. destruct a; simpl; [|eauto]. destruct b; [congruence|eauto].
Qed.

Ltac static_question :=
  match goal with
  | |- exists t, _ = Some (mkQuestion ?s t) =>
    exists (match dict_get QUESTIONS s with Some q => q | None => [] end);
    vm_compute; lazymatch goal with |- ?a = ?a => reflexivity end
  end.

(** A valid progress has a current question, whose id is the slot it
    points at. *)
Lemma current_question_valid (p : Progress) (segment : option string) :
  validb p = true ->
  exists t, current_question p segment = Some (mkQuestion (slot_of p) t).
Proof.
  destruct p as [sec idx ans]. unfold validb, slot_of, section_slots, current_question.
  cbn [section index].
  destruct (dict_get SECTION_ORDER sec) as [order|] eqn:Hord; [|discriminate].
  intros Hv. apply andb_true_iff in Hv. destruct Hv as [H0 H1].
  apply Z.leb_le in H0. apply Z.ltb_lt in H1.
  assert (Hi : exists i, idx = Z.of_nat i /\ i < List.length order).
  { exists (Z.to_nat idx). lia. }
  destruct Hi as (i & -> & Hi). rewrite Nat2Z.id.
  replace ((Z.of_nat i <? 0)%Z || (Z.of_nat (List.length order) <=? Z.of_nat i)%Z)
    with false
    by (symmetry; apply orb_false_iff; split; [apply Z.ltb_ge|apply Z.leb_gt]; lia).
  apply section_order_some in Hord.
  destruct Hord as [[_ ->]|[[_ ->]|[[_ ->]|[_ ->]]]];
    cbv [A_ORDER B_ORDER C_ORDER D_ORDER List.length] in Hi;
    repeat (destruct i as [|i]; [try static_question|try (exfalso; lia)]).
  (* the market-size slot, whose text depends on the segment *)
  cbn [C_ORDER nth_error nth].
  unfold _dyn_question. rewrite String.eqb_refl.
  destruct (app_nonempty
              (match SEG_LABEL segment with Some l => l | None => u "여행·레저" end)
              (u " 시장 규모와 최근 성장 추세에 대해 알고 있나요?")) as (c & r & ->);
    [discriminate|].
  eexists. reflexivity.
Qed.

Lemma slot_of_nonempty (p : Progress) : validb p = true -> slot_of p <> EmptyString.
Proof.
  destruct p as [sec idx ans]. unfold validb, slot_of, section_slots. cbn [section index].
  destruct (dict_get SECTION_ORDER sec) as [order|] eqn:Hord; [|discriminate].
  intros Hv. apply andb_true_iff in Hv. destruct Hv as [H0 H1].
  apply Z.leb_le in H0. apply Z.ltb_lt in H1.
  assert (Hi : Z.to_nat idx < List.length order) by lia.
  apply section_order_some in Hord.
  destruct Hord as [[_ ->]|[[_ ->]|[[_ ->]|[_ ->]]]];
    cbv [A_ORDER B_ORDER C_ORDER D_ORDER List.length] in Hi;
    set (i := Z.to_nat idx) in *; clearbody i;
    repeat (destruct i as [|i]; [discriminate|try (exfalso; lia)]).
Qed.

(** One answered turn without keywords: the node asks the slot the
    advanced progress points at. *)
Lemma answered_turn (U : Unicode) (text : pystr) (segment : option string)
    (p : Progress) (q : pystr) :
  strip text <> [] ->
  (forall sid, _score_slot (strip text) sid = 0) ->
  validb p = true -> validb (advance p) = true ->
  exists t kept,
    script_qna_node (resubmit text segment (Ask q (slot_of p) (section p) p))
    = Ok (Ask t (slot_of (advance p)) (section (advance p)) (advance p), kept).
Proof.
  intros Htext Hscore Hv Hv'.
  destruct (current_question_valid p segment Hv) as (t0 & Hq).
  destruct (current_question_valid (advance p) segment Hv') as (t1 & Hq').
  pose proof (slot_of_nonempty p Hv) as Hne.
  unfold script_qna_node, resubmit.
  cbn [domain_isOnTopic param_script_progress param_last_slot turns negb
       _get_segment domain_segment param_segment].
  unfold _last_user_text. cbn [rev app List.find role content String.eqb Ascii.eqb
                               Bool.eqb andb].
  replace (truthy (Some (slot_of p))) with (Some (slot_of p))
    by (unfold truthy; destruct (slot_of p); congruence).
  repeat match goal with
         | |- context [_get_segment ?st] => change (_get_segment st) with segment
         end.
  rewrite Hq. cbn [q_id].
  destruct (strip text) as [|c r] eqn:Hs; [congruence|].
  rewrite String.eqb_refl. fold (mark p).
  rewrite choose_linear by (intros; apply Hscore).
  unfold advance in Hq' |- *.
  destruct (next_progress (mark p)) as [[n|]|e] eqn:Hn; cbn [bind].
  - rewrite Hq'. cbn [q_id q_text]. eauto.
  - rewrite Hq'. cbn [q_id q_text]. eauto.
  - exfalso. revert Hn. unfold next_progress. cbn [mark section index].
    unfold validb in Hv. revert Hv.
    destruct (dict_get SECTION_ORDER (section p)); [intros _|discriminate].
    destruct (_ <? _)%Z; [discriminate|].
    destruct (list_index (section p) flow) as [i|]; [|discriminate].
    destruct (nth_error flow (i + 1)); discriminate.
Qed.

Lemma first_turn (U : Unicode) (text : pystr) (segment : option string) :
  exists t,
    script_qna_node
      (NodesScript.mkState [NodesScript.mkTurn "user" text] None None segment (Some true) None)
    = Ok (Ask t "A1_problem" "A" first_progress, None).
Proof.
  destruct (current_question_valid first_progress segment eq_refl) as (t & Hq).
  exists t. unfold script_qna_node.
  cbn [domain_isOnTopic param_script_progress param_last_slot negb truthy].
  repeat match goal with
         | |- context [_get_segment ?st] => change (_get_segment st) with segment
         end.
  rewrite Hq. reflexivity.
Qed.

(** The outputs of the interview follow the linear walk. *)
Lemma interview_follows_walk (U : Unicode) (text : pystr) (segment : option string) :
  strip text <> [] ->
  (forall sid, _score_slot (strip text) sid = 0) ->
  forall n, exists outs t,
    interview text segment n = Ok outs /\
    List.length outs = S n /\
    last outs (End []) = Ask t (slot_of (walk n)) (section (walk n)) (walk n) /\
    forall k, k <= n ->
      option_map slot_key_of (nth_error outs k) = Some (Some (slot_of (walk k))).
Proof.
  intros Htext Hscore. induction n as [|n IH].
  - destruct (first_turn U text segment) as (t & Ht).
    exists [Ask t "A1_problem" "A" first_progress], t.
    cbn [interview]. rewrite Ht. cbn [bind fst]. repeat split.
    intros k Hk. replace k with 0 by lia. reflexivity.
  - destruct IH as (outs & t & Hi & Hlen & Hlast & Hk).
    destruct (answered_turn U text segment (walk n) t Htext Hscore
                (walk_valid n) (walk_valid (S n))) as (t' & kept & Hstep).
    exists (outs ++ [Ask t' (slot_of (walk (S n))) (section (walk (S n))) (walk (S n))])%list, t'.
    cbn [interview]. rewrite Hi. cbn [bind]. rewrite Hlast, Hstep. cbn [bind fst].
    repeat split.
    + rewrite length_app. simpl. lia.
    + apply last_last.
    + intros k Hle. destruct (Nat.eq_dec k (S n)) as [->|Hne].
      * rewrite nth_error_app2 by lia. rewrite Hlen, Nat.sub_diag. reflexivity.
      * rewrite nth_error_app1 by lia. apply Hk. lia.
Qed.

(** C1, as the code behaves.  Started without stored progress and
    answered every turn with a non-empty text that scores on no slot,
    the node asks the 26 slots of the catalogue in order, one per
    turn.  On the turn after the last slot of section D is answered,
    and on every later turn, it asks [D10_trust] again: the terminal
    [End] output is never produced. *)
Theorem C1_linear_walk_repeats_last_slot
    (U : Unicode) (text : pystr) (segment : option string) :
  strip text <> [] ->
  (forall sid, _score_slot (strip text) sid = 0) ->
  forall n, exists outs,
    interview text segment n = Ok outs /\
    List.length outs = S n /\
    forall k, k <= n ->
      option_map slot_key_of (nth_error outs k)
      = Some (Some (if (k <? 26)%nat then nth k ALL_SLOTS EmptyString else "D10_trust")).
Proof.
  intros Htext Hscore n.
  destruct (interview_follows_walk U text segment Htext Hscore n)
    as (outs & t & Hi & Hlen & _ & Hk).
  exists outs. repeat split; auto.
  intros k Hle. rewrite (Hk k Hle), walk_slot. reflexivity.
Qed.

Example last_answer_asks_again :
  match script_qna_node last_answer_state with
  | Ok (Ask _ slot sec p, _) => Some (slot, sec, index p)
  | _ => None
  end = Some ("D10_trust", "D", 9%Z).
Proof. vm_compute. reflexivity. Qed.

Lemma C1_witness :
  exists outs,
    interview plain_text None 27 = Ok outs /\
    List.length outs = 28 /\
    forall k, k <= 27 ->
      option_map slot_key_of (nth_error outs k)
      = Some (Some (if (k <? 26)%nat then nth k ALL_SLOTS EmptyString else "D10_trust")).
Proof.
  apply (C1_linear_walk_repeats_last_slot plain_unicode plain_text None).
  - discriminate.
  - intros sid. unfold _score_slot. change (strip plain_text) with plain_text.
    unfold plain_text at 1. change (u "네") with [45348%N]. cbv beta iota.
    unfold KEYWORDS, dict_get.
    repeat match goal with
           | |- context [String.eqb sid ?k] => destruct (String.eqb sid k)
           end; vm_compute; reflexivity.
Defined.

End ScriptProofs.

(** ** The Domain/Segment Router *)

Module RouterProofs.

Import Router RouterSpec.
Local Open Scope string_scope.

Ltac split_compare :=
  repeat match goal with
         | |- context [(?x <? ?y)%nat] => destruct (Nat.ltb_spec x y)
         | |- context [(?x =? ?y)%nat] => destruct (Nat.eqb_spec x y)
         end.

Ltac segment_cases H :=
  cbn [In SEGMENTS] in H;
  destruct H as [H|[H|[H|[]]]]; subst.

Ltac no_if x :=
  lazymatch x with
  | context [if _ then _ else _] => fail
  | _ => idtac
  end.

Lemma pick_spec (a b c : nat) :
  pick a b c =
  if ((a =? 0) && (b =? 0) && (c =? 0))%nat then None
  else if ((b <=? a) && (c <=? a))%nat then Some "camping"
  else if (c <=? b)%nat then Some "experience"
  else Some "sports".
Proof.
  unfold pick.
  destruct a as [|a'], b as [|b'], c as [|c'];
    cbn [List.filter snd Nat.ltb Nat.leb Nat.eqb andb];
    cbn [max_by fst snd]; unfold key_lt;
    cbn [fst snd tie_order String.eqb Ascii.eqb Bool.eqb].
  all: try reflexivity.
  all: repeat (first
    [ progress cbn [orb andb fst snd tie_order String.eqb Ascii.eqb Bool.eqb]
    | match goal with
      | |- context [(?x <? ?y)%nat] => no_if x; destruct (Nat.ltb_spec x y)
      | |- context [(?x =? ?y)%nat] => no_if x; destruct (Nat.eqb_spec x y)
      | |- context [(?x <=? ?y)%nat] => no_if x; destruct (Nat.leb_spec x y)
      end ]).
  all: try reflexivity.
  all: exfalso; lia.
Qed.

Lemma rule_segment_by_hits (U : Unicode) (msg : pystr) :
  rule_segment msg =
  let a := segment_hits msg "camping" in
  let b := segment_hits msg "experience" in
  let c := segment_hits msg "sports" in
  if ((a =? 0) && (b =? 0) && (c =? 0))%nat then None
  else if ((b <=? a) && (c <=? a))%nat then Some "camping"
  else if (c <=? b)%nat then Some "experience"
  else Some "sports".
Proof.
  cbv zeta. rewrite <- pick_spec. reflexivity.
Qed.

Lemma in_segments_cases (seg : string) :
  In seg SEGMENTS -> seg = "camping" \/ seg = "experience" \/ seg = "sports".
Proof. intros [H|[H|[H|[]]]]; subst; tauto. Qed.

Lemma segments_all : In "camping" SEGMENTS /\ In "experience" SEGMENTS /\ In "sports" SEGMENTS.
Proof. unfold SEGMENTS, In. tauto. Qed.

Lemma tie_order_values :
  tie_order "camping" = 2 /\ tie_order "experience" = 1 /\ tie_order "sports" = 0.
Proof. repeat split. Qed.

(** C8. [rule_segment] is a total function of the message.  It returns
    none exactly when no segment keyword matched; otherwise it returns
    the segment with the highest keyword-substring hit count, and among
    segments with equal counts the one of highest priority, the
    priorities being camping over experience over sports.  In
    particular a message with one camping hit and one experience hit
    (and no more than one sports hit) resolves to camping. *)
Theorem C8_rule_segment (U : Unicode) (msg : pystr) :
  (tie_order "sports" < tie_order "experience" < tie_order "camping") /\
  (rule_segment msg = None <->
   forall seg, In seg SEGMENTS -> segment_hits msg seg = 0) /\
  (forall seg, rule_segment msg = Some seg ->
     In seg SEGMENTS /\ 0 < segment_hits msg seg /\
     forall seg', In seg' SEGMENTS -> seg' <> seg ->
       segment_hits msg seg' < segment_hits msg seg \/
       (segment_hits msg seg' = segment_hits msg seg /\
        tie_order seg' < tie_order seg)) /\
  (segment_hits msg "camping" = 1 -> segment_hits msg "experience" = 1 ->
   segment_hits msg "sports" <= 1 -> rule_segment msg = Some "camping").
Proof.
  pose proof (rule_segment_by_hits U msg) as H. cbv zeta in H.
  destruct segments_all as (Sc & Se & Ss).
  destruct tie_order_values as (Tc & Te & Ts).
  remember (segment_hits msg "camping") as a eqn:Ea.
  remember (segment_hits msg "experience") as b eqn:Eb.
  remember (segment_hits msg "sports") as c eqn:Ec.
  split; [rewrite Tc, Te, Ts; lia|]. split; [|split].
  - rewrite H. split.
    + intros Hn seg Hin.
      destruct (Nat.eqb_spec a 0), (Nat.eqb_spec b 0), (Nat.eqb_spec c 0);
        cbn [andb] in Hn;
        try (destruct ((b <=? a)%nat && (c <=? a)%nat); [discriminate|];
             destruct (c <=? b)%nat; discriminate).
      apply in_segments_cases in Hin. destruct Hin as [-> | [-> | ->]]; congruence.
    + intros Hz.
      rewrite (Hz _ Sc) in Ea. rewrite (Hz _ Se) in Eb. rewrite (Hz _ Ss) in Ec.
      subst. reflexivity.
  - intros seg. rewrite H.
    destruct (Nat.eqb_spec a 0), (Nat.eqb_spec b 0), (Nat.eqb_spec c 0);
      cbn [andb]; try discriminate;
      destruct (Nat.leb_spec b a), (Nat.leb_spec c a); cbn [andb];
      try destruct (Nat.leb_spec c b);
      intros [= <-]; (split; [assumption|]);
      rewrite <- ?Ea, <- ?Eb, <- ?Ec; (split; [lia|]);
      intros seg' Hin Hne; apply in_segments_cases in Hin;
      destruct Hin as [-> | [-> | ->]]; try congruence;
      rewrite <- ?Ea, <- ?Eb, <- ?Ec, ?Tc, ?Te, ?Ts; lia.
  - intros Ha Hb Hc. rewrite H, Ha, Hb.
    destruct c as [|[|c']]; [reflexivity|reflexivity|lia].
Qed.

Lemma C8_witness : rule_segment tie_message = Some "camping".
Proof.
  apply (proj2 (proj2 (proj2 (C8_rule_segment plain_unicode tie_message))));
    vm_compute; (reflexivity || lia).
Defined.

Lemma py_min_le_r (a b : Q) : (py_min a b <= b)%Q.
Proof.
  unfold py_min. destruct (Qle_bool a b) eqn:E.
  - now apply Qle_bool_iff.
  - apply Qle_refl.
Qed.

(** C4. In every decision payload written by [domain_detect_node], that
    is on every turn that is not short-circuited by an explicit routing
    label, if [isOnTopic] is false then the provenance tag [via] is
    [unrelated] and the confidence is at most 0.30.  This holds for
    every answer of the remote classifier. *)
Theorem C4_off_topic_invariant
    (U : Unicode) (zero_shot : pystr -> pystr -> option string)
    (state : GraphState) (d : DomainDecision) (step' : string) :
  domain_detect_node zero_shot state = (Decision d, step') ->
  isOnTopic d = false ->
  via d = Some "unrelated" /\ (confidence d <= 30 # 100)%Q.
Proof.
  intros H Hoff. unfold domain_detect_node in H.
  destruct (mem (step state) INTENTS); [discriminate|].
  destruct (negb _).
  - injection H as <- _. split; [reflexivity|apply Qle_refl].
  - destruct (in_segments (param_segment state)) as [s|];
      [|destruct (rule_segment _) as [s|];
        [|destruct (param_allow_zero_shot state);
          [destruct (in_segments (zero_shot _ _)) as [s|]|]]];
      cbn beta iota zeta in H;
      rewrite ?orb_true_r in H; cbn beta iota zeta in H.
    all: try (cbn [negb] in H; injection H as <- _; discriminate Hoff).
    all: rewrite orb_false_r in H;
      destruct (Qle_bool ON_TOPIC_THRESHOLD _); cbn [negb] in H;
      injection H as <- _; [discriminate Hoff|];
      split; [reflexivity|apply py_min_le_r].
Qed.

Lemma C4_witness :
  via chatter_decision = Some "unrelated" /\ (confidence chatter_decision <= 30 # 100)%Q.
Proof.
  apply (C4_off_topic_invariant plain_unicode no_classifier chatter_state
           chatter_decision "script_qna").
  - vm_compute. reflexivity.
  - reflexivity.
Defined.

(** A single character is unrelated, and the router then decides
    without looking at the message. *)
Example single_character_unrelated :
  is_unrelated (u "a") = true /\
  domain_detect_node no_classifier
    (Router.mkState EmptyString [Router.mkTurn "user" (u "a")] None false (Some false))
  = (Decision (mkDecision "script_qna" "travel" (30 # 100) None None
                 (Some "unrelated") false 0),
     "script_qna").
Proof. split; reflexivity. Qed.

(** The example of the specification: a camping message without a
    segment override is decided by rule, with confidence 0.90. *)
Example camping_message_by_rule :
  domain_detect_node no_classifier
    (Router.mkState EmptyString [Router.mkTurn "user" (u "캠핑으로 할래요")] None false (Some true))
  = (Decision (mkDecision "script_qna" "travel" (90 # 100) (Some "camping")
                 (Some "camping") (Some "rule") true (20 # 100)),
     "script_qna").
Proof. vm_compute. reflexivity. Qed.

End RouterProofs.

(** ** The Length Governor: shape of the trimmed payload *)

Module ShapeProofs.

Import LengthControl LengthSpec.
Local Open Scope string_scope.

Lemma forallb_is_str_map (l : list pystr) : forallb is_str (List.map VStr l) = true.
Proof. induction l; simpl; auto. Qed.

Lemma trim_value_shape (R : Runtime) (v : value) :
  forall key style_chars global_cap token_cap tokenizer,
    same_shape v (_trim_value key v style_chars global_cap token_cap tokenizer).
Proof.
  induction v as [a|s|l IH|d IH] using value_rect'; intros; cbn [_trim_value].
  - constructor.
  - constructor.
  - destruct (forallb is_str l) eqn:Hs.
    + apply shape_strings; [assumption|apply forallb_is_str_map].
    + apply shape_list; [assumption|].
      clear Hs. induction IH as [|x l Hx _ IHl]; simpl; constructor; auto.
  - apply shape_dict.
    induction IH as [|[k x] d Hx _ IHd]; cbn [List.map]; constructor; [|assumption].
    cbn [snd] in Hx. cbn [fst snd]. destruct (mem k SKIP_KEYS) eqn:Hk; cbn [fst snd].
    + split; [reflexivity|]. split; [reflexivity|discriminate].
    + split; [reflexivity|]. split; [discriminate|intros _; apply Hx].
Qed.

(** C9. [trim_payload] preserves the shape of its input: every dict of
    the output has exactly the keys of the corresponding input dict,
    lists map to lists and strings to strings, values that are neither
    strings nor lists nor dicts are returned unchanged, and the value
    under each of the metadata keys [relevance], [faq], [domain] is
    passed through unmodified. *)
Theorem C9_trim_payload_shape (R : Runtime) (payload : value)
    (length_style : option string) (max_chars : Z) (max_tokens : option Z)
    (tokenizer : option Tokenizer) :
  same_shape payload (trim_payload payload length_style max_chars max_tokens tokenizer).
Proof. unfold trim_payload. apply trim_value_shape. Qed.

(** What the relation says about a dict, spelled out. *)
Lemma same_shape_dict_keys (d : list (string * value)) (v : value) :
  same_shape (VDict d) v ->
  exists d', v = VDict d' /\ List.map fst d' = List.map fst d /\
             forall k x, In (k, x) d -> mem k SKIP_KEYS = true -> In (k, x) d'.
Proof.
  intros H. inversion H as [| | | |d0 d' HF]; subst. exists d'. split; [reflexivity|].
  induction HF as [|[k x] [k' x'] d d' (Hk & Hskip & _) HF IH]; simpl in *.
  - split; [reflexivity|]. intros ? ? [].
  - subst k'. destruct IH as [IH1 IH2]; [constructor; assumption|].
    split; [now rewrite IH1|].
    intros k0 x0 [[= <- <-]|Hin] Hm.
    + left. now rewrite (Hskip Hm).
    + right. now apply IH2.
Qed.

End ShapeProofs.

(** ** The Length Governor: malformed caps *)

Module CapProofs.

Import LengthControl LengthSpec.
Local Open Scope string_scope.

Lemma int_of_nonpositive (q : Q) :
  (q <= 0)%Q -> exists z, int_of_float (Finite q) = Ok z /\ (z <= 0)%Z.
Proof.
  intros Hq. eexists. split; [reflexivity|].
  destruct q as [n d]. unfold Qle in Hq. cbn [Qnum Qden] in *.
  assert (Hn : (n <= 0)%Z) by lia.
  rewrite <- (Z.opp_involutive n), Z.quot_opp_l by lia.
  pose proof (Z.quot_pos (- n) (Z.pos d)). lia.
Qed.

Lemma cast_of_malformed (R : Runtime) (v : pyval) (default : option Z) :
  malformed v ->
  _to_int v default = Ok default \/
  exists z, _to_int v default = Ok (Some z) /\ (z <= 0)%Z.
Proof.
  intros [s Hs|s Hs| | |z Hz|q Hq|s q Hs Hq]; cbn [_to_int].
  - rewrite Hs. now left.
  - destruct (strip s); [now left|]. rewrite Hs. now left.
  - right. exists 0%Z. split; [reflexivity|lia].
  - right. exists 0%Z. split; [reflexivity|lia].
  - right. exists z. split; [reflexivity|lia].
  - right. destruct (int_of_nonpositive q Hq) as (z & -> & Hz). eauto.
  - destruct (strip s); [now left|]. rewrite Hs.
    right. destruct (int_of_nonpositive q Hq) as (z & -> & Hz). eauto.
Qed.

Lemma caps_of_malformed (R : Runtime) (v : pyval) :
  malformed v -> global_cap_of v = Ok 4000%Z /\ token_cap_of v = Ok None.
Proof.
  intros Hv. split.
  - unfold global_cap_of.
    destruct (cast_of_malformed R v (Some 4000%Z) Hv) as [->|(z & -> & Hz)];
      cbn [bind or_else]; [reflexivity|].
    destruct (Z.eqb_spec z 0); [reflexivity|].
    destruct (Z.leb_spec z 0); [reflexivity|lia].
  - unfold token_cap_of.
    destruct (cast_of_malformed R v None Hv) as [->|(z & -> & Hz)];
      cbn [bind]; [reflexivity|].
    destruct (Z.leb_spec z 0); [reflexivity|lia].
Qed.




End CapProofs.

(** ** The Length Governor: counting fences *)

Module CountProofs.

Import Regex LengthControl LengthSpec.

Lemma fence_triple_eq : _FENCE_TRIPLE = triple 96.
Proof. reflexivity. Qed.

Lemma fence_tildes_eq : _FENCE_TILDES = triple 126.
Proof. reflexivity. Qed.

Lemma starts_with_triple (f : N) (s : pystr) :
  starts_with (triple f) s = true <-> exists r, s = f :: f :: f :: r.
Proof.
  unfold triple. split.
  - destruct s as [|a [|b [|c r]]]; simpl; try discriminate;
      rewrite ?andb_true_iff, ?andb_false_r; try (intros; intuition discriminate).
    intros (Ha & Hb & Hc & _).
    apply N.eqb_eq in Ha, Hb, Hc. subst. eauto.
  - intros (r & ->). simpl. now rewrite N.eqb_refl.
Qed.

Lemma starts_with_app (f : N) (a b : pystr) :
  no_lead f b ->
  starts_with (triple f) (a ++ b) = starts_with (triple f) a.
Proof.
  intros Hb. unfold triple. destruct b as [|x b'].
  - now rewrite app_nil_r.
  - simpl in Hb. assert (Hx : (f =? x)%N = false) by (apply N.eqb_neq; congruence).
    destruct a as [|a0 [|a1 [|a2 a']]]; simpl; rewrite ?Hx, ?andb_false_r; reflexivity.
Qed.

Lemma starts_with_length (f : N) (s : pystr) :
  starts_with (triple f) s = true -> 3 <= List.length s.
Proof.
  intros H. apply starts_with_triple in H. destruct H as (r & ->). simpl. lia.
Qed.

(** Counting over a concatenation whose second part does not start
    with the fence character: no occurrence straddles the seam. *)
Lemma count_from_app (f : N) (b : pystr) :
  no_lead f b ->
  forall a k, k <= List.length a ->
    count_from (triple f) k (a ++ b)
    = count_from (triple f) k a + count_from (triple f) 0 b.
Proof.
  intros Hb. induction a as [|c a IH]; intros k Hk.
  - simpl in Hk. replace k with 0 by lia. simpl.
    destruct b; reflexivity.
  - cbn [app count_from]. destruct k as [|k].
    + change (c :: (a ++ b)%list) with ((c :: a) ++ b)%list.
      rewrite (starts_with_app f (c :: a) b Hb).
      destruct (starts_with (triple f) (c :: a)) eqn:Hs.
      * apply starts_with_length in Hs. simpl in Hs.
        rewrite IH by (simpl; lia). reflexivity.
      * apply IH. lia.
    + apply IH. simpl in Hk. lia.
Qed.

Lemma count_app (f : N) (a b : pystr) :
  no_lead f b ->
  count (triple f) (a ++ b) = count (triple f) a + count (triple f) b.
Proof. intros Hb. unfold count. apply count_from_app; [assumption|lia]. Qed.

(** A string without the fence character has no fence. *)
Lemma count_from_none (f : N) (w : pystr) (k : nat) :
  ~ In f w -> count_from (triple f) k w = 0.
Proof.
  revert k. induction w as [|x w IH]; intros k Hw; [reflexivity|].
  cbn [count_from]. destruct k; [|apply IH; intros H; apply Hw; now right].
  destruct (starts_with (triple f) (x :: w)) eqn:Hs.
  - apply starts_with_triple in Hs. destruct Hs as (r & [= -> _]).
    exfalso. apply Hw. now left.
  - apply IH. intros H. apply Hw. now right.
Qed.

Lemma count_app_other (f : N) (a w : pystr) :
  ~ In f w -> count (triple f) (a ++ w) = count (triple f) a.
Proof.
  intros Hw. rewrite count_app.
  - unfold count at 2. rewrite count_from_none by assumption. lia.
  - destruct w; simpl; [trivial|]. intros ->. apply Hw. now left.
Qed.

(** A positive count exhibits an occurrence. *)
Lemma count_from_occurrence (f : N) (s : pystr) (k : nat) :
  0 < count_from (triple f) k s ->
  exists j, at_pos s j f /\ at_pos s (j + 1) f /\ at_pos s (j + 2) f.
Proof.
  revert k. induction s as [|x s IH]; intros k; [simpl; lia|].
  cbn [count_from]. destruct k as [|k].
  - destruct (starts_with (triple f) (x :: s)) eqn:Hs.
    + intros _. apply starts_with_triple in Hs. destruct Hs as (r & [= -> ->]).
      exists 0. repeat split.
    + intros H. destruct (IH _ H) as (j & H0 & H1 & H2).
      exists (S j). repeat split; assumption.
  - intros H. destruct (IH _ H) as (j & H0 & H1 & H2).
    exists (S j). repeat split; assumption.
Qed.

End CountProofs.

(** ** The Length Governor: stripping, balancing, retreating *)

Module FenceProofs.

Import Regex LengthControl LengthSpec CountProofs.

Lemma rstrip_split (s : pystr) :
  exists w, s = (rstrip s ++ w)%list /\ Forall (fun c => isspace c = true) w.
Proof.
  induction s as [|c s (w & Hs & Hw)]; [exists []; auto|].
  cbn [rstrip]. destruct (rstrip s) as [|r0 r] eqn:Hr.
  - simpl in Hs. subst w. destruct (isspace c) eqn:Hc.
    + exists (c :: s). split; [reflexivity|]. constructor; assumption.
    + exists s. split; [reflexivity|assumption].
  - exists w. split; [|assumption]. cbn [app]. now rewrite <- Hs at 1.
Qed.

Lemma rstrip_length (s : pystr) : List.length (rstrip s) <= List.length s.
Proof.
  destruct (rstrip_split s) as (w & Hs & _). rewrite Hs at 2.
  rewrite length_app. lia.
Qed.

Lemma rstrip_full (s : pystr) :
  List.length (rstrip s) = List.length s -> rstrip s = s.
Proof.
  intros H. destruct (rstrip_split s) as (w & Hs & _).
  assert (Hw : List.length w = 0).
  { apply (f_equal (@List.length N)) in Hs. rewrite length_app in Hs. lia. }
  destruct w; [|discriminate]. now rewrite app_nil_r in Hs.
Qed.

Lemma count_rstrip (f : N) (s : pystr) :
  isspace f = false -> count (triple f) (rstrip s) = count (triple f) s.
Proof.
  intros Hf. destruct (rstrip_split s) as (w & Hs & Hw).
  rewrite Hs at 2. symmetry. apply count_app_other.
  intros Hin. rewrite Forall_forall in Hw. apply Hw in Hin. congruence.
Qed.

Lemma count_closing_same (f : N) (s : pystr) :
  f <> 10%N -> count (triple f) (s ++ [10%N] ++ triple f) = S (count (triple f) s).
Proof.
  intros Hf. rewrite count_app by (simpl; congruence).
  unfold count at 2, triple. cbn [app count_from starts_with].
  destruct (N.eqb_spec f 10); [congruence|]. cbn [andb].
  rewrite N.eqb_refl. simpl. lia.
Qed.

Lemma count_closing_other (f g : N) (s : pystr) :
  f <> 10%N -> f <> g -> count (triple f) (s ++ [10%N] ++ triple g) = count (triple f) s.
Proof.
  intros Hf Hg. apply count_app_other. simpl. intuition congruence.
Qed.

(** What [_balance_fences] appends. *)
Lemma balance_spec (s : pystr) :
  _balance_fences s =
  (s ++ (if Nat.odd (count _FENCE_TRIPLE s) then [10%N] ++ _FENCE_TRIPLE else [])
     ++ (if Nat.odd (count _FENCE_TILDES s) then [10%N] ++ _FENCE_TILDES else []))%list.
Proof.
  unfold _balance_fences. rewrite fence_triple_eq, fence_tildes_eq.
  destruct (Nat.odd (count (triple 96) s)) eqn:H1.
  - rewrite (count_closing_other 126 96) by discriminate.
    destruct (Nat.odd (count (triple 126) s)); now rewrite <- ?app_assoc, ?app_nil_r.
  - destruct (Nat.odd (count (triple 126) s)); now rewrite ?app_nil_r.
Qed.

Ltac count_closing :=
  repeat first [ rewrite count_closing_same by discriminate
               | rewrite count_closing_other by discriminate ].

Lemma balance_even (s : pystr) : fences_even (_balance_fences s).
Proof.
  unfold fences_even, _balance_fences. rewrite fence_triple_eq, fence_tildes_eq.
  destruct (Nat.odd (count (triple 96) s)) eqn:H1; count_closing;
    destruct (Nat.odd (count (triple 126) s)) eqn:H2; count_closing;
    rewrite ?Nat.odd_succ, <- ?Nat.negb_odd, ?H1, ?H2; auto.
Qed.

Lemma balance_id (s : pystr) : fences_even s -> _balance_fences s = s.
Proof.
  intros [H1 H2]. unfold _balance_fences. now rewrite H1, H2.
Qed.

Lemma balance_idempotent (s : pystr) :
  _balance_fences (_balance_fences s) = _balance_fences s.
Proof. apply balance_id, balance_even. Qed.

Lemma fences_even_ellipsis (s : pystr) :
  fences_even s -> fences_even (s ++ ELLIPSIS).
Proof.
  unfold fences_even. rewrite fence_triple_eq, fence_tildes_eq.
  rewrite !count_app_other; [auto| |]; vm_compute; intuition discriminate.
Qed.

Lemma short_has_no_fence (f : N) (s : pystr) :
  List.length s <= 2 -> count (triple f) s = 0.
Proof.
  intros H. destruct (Nat.eq_dec (count (triple f) s) 0) as [|Hn]; [assumption|].
  destruct (count_from_occurrence f s 0) as (j & _ & _ & H2); [unfold count in Hn; lia|].
  assert (j + 2 < List.length s) by (apply nth_error_Some; unfold at_pos in H2; congruence).
  lia.
Qed.

Lemma short_fences_even (s : pystr) : List.length s <= 2 -> fences_even s.
Proof.
  intros H. unfold fences_even. rewrite fence_triple_eq, fence_tildes_eq.
  now rewrite !short_has_no_fence.
Qed.

Lemma fences_even_rstrip (s : pystr) : fences_even s -> fences_even (rstrip s).
Proof.
  unfold fences_even. rewrite fence_triple_eq, fence_tildes_eq.
  now rewrite !count_rstrip.
Qed.

(** *** Inside a code block, and the retreat *)

Lemma firstn_min_length {A} (l : list A) (i : nat) :
  firstn (Nat.max 0 (Nat.min i (List.length l))) l = firstn i l.
Proof.
  rewrite Nat.max_0_l. destruct (Nat.le_ge_cases i (List.length l)).
  - now rewrite Nat.min_l.
  - rewrite Nat.min_r by assumption. now rewrite !firstn_all2.
Qed.

Lemma inside_false (text : pystr) (i : nat) :
  _inside_code_block text i = false <-> fences_even (firstn i text).
Proof.
  unfold _inside_code_block, fences_even. cbv zeta.
  rewrite firstn_min_length. apply orb_false_iff.
Qed.

Lemma retreat_le (text : pystr) (k : nat) : retreat text k <= k.
Proof.
  induction k as [|k IH]; [reflexivity|]. cbn [retreat].
  destruct (_inside_code_block text (S k)); lia.
Qed.

Lemma retreat_outside (text : pystr) (k : nat) :
  retreat text k = 0 \/ _inside_code_block text (retreat text k) = false.
Proof.
  induction k as [|k IH]; [now left|]. cbn [retreat].
  destruct (_inside_code_block text (S k)) eqn:H; [exact IH|now right].
Qed.

Lemma retreat_even (text : pystr) (k : nat) : fences_even (firstn (retreat text k) text).
Proof.
  destruct (retreat_outside text k) as [->|H].
  - apply short_fences_even. simpl. lia.
  - now apply inside_false.
Qed.

Lemma firstn_prefix_eq {A} (l l' : list A) (n i : nat) :
  i <= n -> firstn n l = firstn n l' -> firstn i l = firstn i l'.
Proof.
  intros Hi H. rewrite <- (Nat.min_l i n) by assumption.
  rewrite <- !firstn_firstn. now rewrite H.
Qed.

Lemma inside_prefix (text text' : pystr) (n i : nat) :
  i <= n -> firstn n text = firstn n text' ->
  _inside_code_block text i = _inside_code_block text' i.
Proof.
  intros Hi H. unfold _inside_code_block. cbv zeta.
  rewrite !firstn_min_length. now rewrite (firstn_prefix_eq text text' n i Hi H).
Qed.

Lemma retreat_prefix (text text' : pystr) (n k : nat) :
  k <= n -> firstn n text = firstn n text' -> retreat text k = retreat text' k.
Proof.
  intros Hk H. induction k as [|k IH]; [reflexivity|]. cbn [retreat].
  rewrite (inside_prefix text text' n (S k) Hk H).
  destruct (_inside_code_block text' (S k)); [apply IH; lia|reflexivity].
Qed.

End FenceProofs.

(** ** The Length Governor: matches of the boundary patterns *)

Module MatchProofs.

Import Regex LengthControl LengthSpec CountProofs FenceProofs.

Lemma run_length_le (cls : N -> bool) (s : pystr) : run_length cls s <= List.length s.
Proof. induction s as [|c s IH]; simpl; [lia|]. destruct (cls c); simpl; lia. Qed.

Lemma run_length_in (cls : N -> bool) (s : pystr) (i : nat) :
  i < run_length cls s -> exists ch, nth_error s i = Some ch /\ cls ch = true.
Proof.
  revert i. induction s as [|c s IH]; intros i; simpl; [lia|].
  destruct (cls c) eqn:Hc; [|lia]. destruct i as [|i]; simpl.
  - eauto.
  - intros H. apply IH. lia.
Qed.

Lemma match_alt_le (a : alt) (s : pystr) : match_alt a s <= List.length s.
Proof.
  destruct a as [cls|cls]; simpl; [apply run_length_le|].
  destruct s as [|c s]; simpl; [lia|]. destruct (cls c); lia.
Qed.

Lemma match_alt_in (a : alt) (s : pystr) (i : nat) :
  i < match_alt a s -> exists ch, nth_error s i = Some ch /\ alt_class a ch = true.
Proof.
  destruct a as [cls|cls]; simpl; [apply run_length_in|].
  destruct s as [|c s]; [lia|]. destruct (cls c) eqn:Hc; [|lia].
  intros H. replace i with 0 by lia. simpl. eauto.
Qed.

Lemma match_alt_zero (a : alt) (c : N) (s : pystr) :
  match_alt a (c :: s) = 0 -> alt_class a c = false.
Proof.
  destruct a as [cls|cls]; simpl; destruct (cls c); congruence.
Qed.

Lemma match_here_le (re : list alt) (s : pystr) : match_here re s <= List.length s.
Proof.
  induction re as [|a re IH]; simpl; [lia|].
  pose proof (match_alt_le a s). destruct (match_alt a s); [assumption|lia].
Qed.

Lemma match_here_in (re : list alt) (s : pystr) (i : nat) :
  i < match_here re s -> exists ch, nth_error s i = Some ch /\ any_class re ch = true.
Proof.
  induction re as [|a re IH]; simpl; [lia|].
  destruct (match_alt a s) as [|n] eqn:Ha.
  - intros H. destruct (IH H) as (ch & H1 & H2). exists ch. split; [assumption|].
    change (any_class (a :: re) ch) with (alt_class a ch || any_class re ch).
    now rewrite H2, orb_true_r.
  - intros H. destruct (match_alt_in a s i) as (ch & H1 & H2); [lia|].
    exists ch. split; [assumption|].
    change (any_class (a :: re) ch) with (alt_class a ch || any_class re ch).
    now rewrite H2.
Qed.

Lemma match_here_zero (re : list alt) (c : N) (s : pystr) :
  match_here re (c :: s) = 0 -> any_class re c = false.
Proof.
  induction re as [|a re IH]; [reflexivity|]. cbn [match_here].
  change (any_class (a :: re) c) with (alt_class a c || any_class re c).
  destruct (match_alt a (c :: s)) eqn:Ha; [|discriminate].
  intros H. now rewrite (match_alt_zero a c s Ha), (IH H).
Qed.

(** Every match lies inside the string, after the skipped part, is not
    empty, and consists of characters of the pattern's classes. *)
Lemma finditer_from_spec (re : list alt) (s : pystr) :
  forall pos skip m, In m (finditer_from re pos skip s) ->
    pos + skip <= fst m /\ fst m < snd m /\ snd m <= pos + List.length s /\
    forall i, fst m <= i -> i < snd m ->
      exists ch, nth_error s (i - pos) = Some ch /\ any_class re ch = true.
Proof.
  induction s as [|c s IH]; intros pos skip m; cbn [finditer_from]; [intros []|].
  assert (Hrec : forall k, In m (finditer_from re (S pos) k s) ->
            S pos + k <= fst m /\ fst m < snd m /\ snd m <= pos + List.length (c :: s) /\
            forall i, fst m <= i -> i < snd m ->
              exists ch, nth_error (c :: s) (i - pos) = Some ch /\ any_class re ch = true).
  { intros k Hin. destruct (IH _ _ _ Hin) as (H1 & H2 & H3 & H4).
    repeat split; [assumption|assumption|simpl; lia|].
    intros i Hi1 Hi2. destruct (H4 i Hi1 Hi2) as (ch & Hch & Hcl).
    exists ch. split; [|assumption].
    replace (i - pos) with (S (i - S pos)) by lia. exact Hch. }
  destruct skip as [|k].
  - destruct (match_here re (c :: s)) as [|n] eqn:Hm.
    + intros Hin. destruct (Hrec 0 Hin) as (H1 & H2 & H3 & H4).
      repeat split; try assumption; lia.
    + intros [<-|Hin].
      * cbn [fst snd]. pose proof (match_here_le re (c :: s)) as Hle.
        repeat split; [lia|lia|lia|].
        intros i Hi1 Hi2. apply match_here_in. lia.
      * destruct (Hrec n Hin) as (H1 & H2 & H3 & H4).
        repeat split; try assumption; lia.
  - intros Hin. destruct (Hrec k Hin) as (H1 & H2 & H3 & H4).
    repeat split; try assumption; lia.
Qed.

Lemma finditer_spec (re : list alt) (s : pystr) (m : nat * nat) :
  In m (finditer re s) ->
  fst m < snd m /\ snd m <= List.length s /\
  forall i, fst m <= i -> i < snd m ->
    exists ch, nth_error s i = Some ch /\ any_class re ch = true.
Proof.
  intros Hin. destruct (finditer_from_spec re s 0 0 m Hin) as (_ & H2 & H3 & H4).
  repeat split; [assumption|assumption|].
  intros i Hi1 Hi2. destruct (H4 i Hi1 Hi2) as (ch & Hch & Hcl).
  rewrite Nat.sub_0_r in Hch. eauto.
Qed.

(** Without a match no character of the string is in a class. *)
Lemma finditer_from_nil (re : list alt) (s : pystr) :
  forall pos skip, finditer_from re pos skip s = [] ->
    forall i ch, skip <= i -> nth_error s i = Some ch -> any_class re ch = false.
Proof.
  induction s as [|c s IH]; intros pos skip H i ch Hi Hch.
  - destruct i; discriminate.
  - cbn [finditer_from] in H. destruct skip as [|k].
    + destruct (match_here re (c :: s)) as [|n] eqn:Hm; [|discriminate].
      destruct i as [|i].
      * injection Hch as <-. eapply match_here_zero; eauto.
      * eapply (IH _ _ H i); [lia|exact Hch].
    + destruct i as [|i]; [lia|].
      eapply (IH _ _ H i); [lia|exact Hch].
Qed.

Lemma finditer_nil (re : list alt) (s : pystr) (i : nat) (ch : N) :
  finditer re s = [] -> nth_error s i = Some ch -> any_class re ch = false.
Proof. intros H. apply (finditer_from_nil re s 0 0 H). lia. Qed.

Lemma last_match_in {A} (l : list A) (m : A) (r : list A) :
  rev l = m :: r -> In m l.
Proof. intros H. apply in_rev. rewrite H. now left. Qed.

Lemma boundary_not_fence (c : N) : is_boundary c = true -> fence_char c = false.
Proof.
  intros H. unfold fence_char.
  destruct (N.eqb_spec c 96) as [->|_]; [discriminate H|].
  destruct (N.eqb_spec c 126) as [->|_]; [discriminate H|reflexivity].
Qed.

Lemma sentence_end_not_fence (c : N) :
  any_class SENT_OR_END c = true -> fence_char c = false.
Proof.
  intros H. unfold fence_char.
  destruct (N.eqb_spec c 96) as [->|_]; [discriminate H|].
  destruct (N.eqb_spec c 126) as [->|_]; [discriminate H|reflexivity].
Qed.

Lemma word_boundary_class (c : N) : any_class _WORD_BOUNDARY c = is_boundary c.
Proof. unfold any_class, _WORD_BOUNDARY. simpl. apply orb_false_r. Qed.

(** *** The cut of steps 1 and 2 *)

Lemma stage_cut_le (snippet : pystr) : stage_cut snippet <= List.length snippet.
Proof.
  unfold stage_cut.
  destruct (rev (finditer SENT_OR_END snippet)) as [|m r] eqn:H1.
  - destruct (rev (finditer _WORD_BOUNDARY snippet)) as [|m r] eqn:H2; [lia|].
    apply last_match_in, finditer_spec in H2. lia.
  - apply last_match_in, finditer_spec in H1. lia.
Qed.

(** When the cut of steps 1 and 2 is the end of the snippet, either the
    last character of the snippet ends a sentence (or closes a quote or
    bracket), or the snippet has no word boundary at all. *)
Lemma stage_cut_full (snippet : pystr) :
  stage_cut snippet = List.length snippet ->
  (exists ch, nth_error snippet (List.length snippet - 1) = Some ch /\
              any_class SENT_OR_END ch = true) \/
  (forall i ch, nth_error snippet i = Some ch -> is_boundary ch = false).
Proof.
  unfold stage_cut.
  destruct (rev (finditer SENT_OR_END snippet)) as [|m r] eqn:H1.
  - destruct (rev (finditer _WORD_BOUNDARY snippet)) as [|m r] eqn:H2.
    + intros _. right. intros i ch Hch. rewrite <- word_boundary_class.
      apply (finditer_nil _ snippet i); [|assumption].
      apply (f_equal (@rev (nat * nat))) in H2. now rewrite rev_involutive in H2.
    + apply last_match_in, finditer_spec in H2. lia.
  - apply last_match_in, finditer_spec in H1. destruct H1 as (Ha & Hb & Hc).
    intros He. left. rewrite <- He. apply Hc; lia.
Qed.

(** *** The link backoff *)

Lemma contains_occurrence (p s : pystr) :
  contains p s = true -> exists q, starts_with p (skipn q s) = true.
Proof.
  induction s as [|c s IH]; cbn [contains]; intros H.
  - exists 0. now rewrite orb_false_r in H.
  - apply orb_true_iff in H. destruct H as [H|H].
    + now exists 0.
    + destruct (IH H) as (q & Hq). now exists (S q).
Qed.

Lemma starts_with_two (a b : N) (p r : pystr) :
  starts_with (a :: b :: p) r = true -> exists r', r = a :: b :: r'.
Proof.
  destruct r as [|x [|y r']]; simpl; try discriminate.
  - now rewrite andb_false_r.
  - intros H. apply andb_true_iff in H. destruct H as [Hx H].
    apply andb_true_iff in H. destruct H as [Hy _].
    apply N.eqb_eq in Hx, Hy. subst. eauto.
Qed.

Lemma link_token_witness (text : pystr) (k : nat) :
  existsb (fun tok => contains tok (slice text (k - 6) k)) _LINK_TOKENS = true ->
  link_witness text k.
Proof.
  intros H. apply existsb_exists in H. destruct H as (tok & Htok & Hc).
  apply contains_occurrence in Hc. destruct Hc as (q & Hq).
  assert (Hab : exists a b p, tok = a :: b :: p /\ fence_char a = false /\ fence_char b = false).
  { unfold _LINK_TOKENS in Htok. cbn [In] in Htok.
    destruct Htok as [<-|[<-|[<-|[<-|[]]]]]; vm_compute; eauto 8. }
  destruct Hab as (a & b & p & -> & Ha & Hb).
  apply starts_with_two in Hq. destruct Hq as (r' & Hr).
  unfold slice in Hr. rewrite skipn_skipn in Hr.
  assert (H0 : nth_error (firstn k text) (q + (k - 6)) = Some a).
  { rewrite <- (Nat.add_0_r (q + (k - 6))), <- nth_error_skipn, Hr. reflexivity. }
  assert (H1 : nth_error (firstn k text) (q + (k - 6) + 1) = Some b).
  { rewrite <- nth_error_skipn, Hr. reflexivity. }
  assert (Hlt : q + (k - 6) + 1 < k).
  { assert (Hl : q + (k - 6) + 1 < List.length (firstn k text))
      by (apply nth_error_Some; congruence).
    rewrite length_firstn in Hl. lia. }
  rewrite nth_error_firstn in H0, H1.
  destruct (Nat.ltb_spec (q + (k - 6)) k); [|lia].
  destruct (Nat.ltb_spec (q + (k - 6) + 1) k); [|lia].
  exists (q + (k - 6)), a, b. unfold at_pos. repeat split; auto; lia.
Qed.

Lemma backoff_cases (text : pystr) (k : nat) :
  _backoff_link_boundary text k = k \/
  (exists x, _backoff_link_boundary text k < k /\
             at_pos text (_backoff_link_boundary text k) x /\
             is_boundary x = true /\ link_witness text k).
Proof.
  unfold _backoff_link_boundary. cbv zeta.
  destruct (existsb _ _LINK_TOKENS) eqn:Htok; [|now left].
  destruct (rev (finditer _WORD_BOUNDARY (firstn k text))) as [|m r] eqn:Hm; [now left|].
  right. apply last_match_in, finditer_spec in Hm. destruct Hm as (Ha & Hb & Hc).
  destruct (Hc (fst m)) as (x & Hx & Hcl); [lia|lia|].
  rewrite length_firstn in Hb.
  rewrite nth_error_firstn in Hx. destruct (Nat.ltb_spec (fst m) k); [|lia].
  exists x. repeat split; [assumption|assumption| |].
  - now rewrite <- word_boundary_class.
  - now apply link_token_witness.
Qed.

Lemma backoff_le (text : pystr) (k : nat) : _backoff_link_boundary text k <= k.
Proof. destruct (backoff_cases text k) as [->|(x & H & _)]; lia. Qed.

Lemma backoff_prefix (text text' : pystr) (n k : nat) :
  k <= n -> firstn n text = firstn n text' ->
  _backoff_link_boundary text k = _backoff_link_boundary text' k.
Proof.
  intros Hk H. unfold _backoff_link_boundary, slice.
  now rewrite (firstn_prefix_eq text text' n k Hk H).
Qed.

End MatchProofs.

(** ** The Length Governor: the cut of [soft_cut] *)

Module CutProofs.

Import Regex LengthControl LengthSpec CountProofs FenceProofs MatchProofs.

Lemma at_pos_fun (text : pystr) (i i' : nat) (a b : N) :
  at_pos text i a -> at_pos text i' b -> i = i' -> a = b.
Proof. unfold at_pos. intros H1 H2 ->. congruence. Qed.

Lemma at_pos_lt (text : pystr) (i : nat) (a : N) :
  at_pos text i a -> i < List.length text.
Proof. unfold at_pos. intros H. apply nth_error_Some. congruence. Qed.

(** A fence that is open at [s] and closed at [c1] has an occurrence
    in between, after the non-fence character at [s]. *)
Lemma fence_between (f : N) (text : pystr) (s c1 : nat) (x : N) :
  s < c1 -> c1 <= List.length text -> at_pos text s x -> x <> f ->
  Nat.odd (count (triple f) (firstn s text)) = true ->
  Nat.odd (count (triple f) (firstn c1 text)) = false ->
  exists j, s < j /\ j + 3 <= c1 /\
            at_pos text j f /\ at_pos text (j + 1) f /\ at_pos text (j + 2) f.
Proof.
  intros Hs Hc Hx Hxf Ho He.
  set (b := skipn s (firstn c1 text)).
  assert (Hsplit : firstn c1 text = (firstn s text ++ b)%list).
  { rewrite <- (firstn_skipn s (firstn c1 text)) at 1.
    rewrite firstn_firstn, Nat.min_l by lia. reflexivity. }
  assert (Hb : forall i, nth_error b i = if (s + i <? c1)%nat then nth_error text (s + i) else None).
  { intros i. unfold b. rewrite nth_error_skipn, nth_error_firstn. reflexivity. }
  assert (Hlead : no_lead f b).
  { pose proof (Hb 0) as H0. rewrite Nat.add_0_r in H0.
    destruct (Nat.ltb_spec s c1); [|lia]. unfold at_pos in Hx. rewrite Hx in H0.
    destruct b as [|y b']; [discriminate|]. simpl in H0. injection H0 as ->. exact Hxf. }
  rewrite Hsplit, count_app, Nat.odd_add, Ho in He by assumption.
  assert (Hpos : 0 < count_from (triple f) 0 b).
  { unfold count in He. destruct (count_from (triple f) 0 b); [discriminate|lia]. }
  destruct (count_from_occurrence f b 0 Hpos) as (j & H0 & H1 & H2).
  unfold at_pos in H0, H1, H2. rewrite Hb in H0, H1, H2.
  destruct (Nat.ltb_spec (s + j) c1); [|discriminate].
  destruct (Nat.ltb_spec (s + (j + 1)) c1); [|discriminate].
  destruct (Nat.ltb_spec (s + (j + 2)) c1); [|discriminate].
  assert (j <> 0).
  { intros ->. rewrite Nat.add_0_r in H0. unfold at_pos in Hx. congruence. }
  exists (s + j). unfold at_pos. rewrite <- !Nat.add_assoc.
  repeat split; try assumption; lia.
Qed.

Lemma fence_char_96 : fence_char 96 = true.
Proof. reflexivity. Qed.

Lemma fence_char_126 : fence_char 126 = true.
Proof. reflexivity. Qed.

(** Six positions covered by a backtick fence and a tilde fence hold
    fence characters only. *)
Lemma covered_is_fence (text : pystr) (j1 j2 q : nat) (y : N) :
  at_pos text j1 96 -> at_pos text (j1 + 1) 96 -> at_pos text (j1 + 2) 96 ->
  at_pos text j2 126 -> at_pos text (j2 + 1) 126 -> at_pos text (j2 + 2) 126 ->
  at_pos text q y ->
  (j1 <= q < j1 + 3 \/ j2 <= q < j2 + 3) ->
  fence_char y = true.
Proof.
  intros A0 A1 A2 B0 B1 B2 Hq Hr.
  assert (Hc : q = j1 \/ q = j1 + 1 \/ q = j1 + 2 \/ q = j2 \/ q = j2 + 1 \/ q = j2 + 2) by lia.
  destruct Hc as [->|[->|[->|[->|[->| ->]]]]];
    match goal with
    | H : at_pos text ?i ?c |- _ =>
      rewrite (at_pos_fun text i i y c Hq H eq_refl); reflexivity
    end.
Qed.

Lemma fences_disjoint (text : pystr) (j1 j2 : nat) :
  at_pos text j1 96 -> at_pos text (j1 + 1) 96 -> at_pos text (j1 + 2) 96 ->
  at_pos text j2 126 -> at_pos text (j2 + 1) 126 -> at_pos text (j2 + 2) 126 ->
  j1 + 3 <= j2 \/ j2 + 3 <= j1.
Proof.
  intros A0 A1 A2 B0 B1 B2.
  destruct (le_lt_dec (j1 + 3) j2); [now left|].
  destruct (le_lt_dec (j2 + 3) j1); [now right|]. exfalso.
  assert (Hc : j2 = j1 \/ j2 = j1 + 1 \/ j2 = j1 + 2 \/ j1 = j2 + 1 \/ j1 = j2 + 2) by lia.
  destruct Hc as [Hc|[Hc|[Hc|[Hc|Hc]]]].
  - pose proof (at_pos_fun text _ _ _ _ A0 B0 (eq_sym Hc)). discriminate.
  - pose proof (at_pos_fun text _ _ _ _ A1 B0 (eq_sym Hc)). discriminate.
  - pose proof (at_pos_fun text _ _ _ _ A2 B0 (eq_sym Hc)). discriminate.
  - pose proof (at_pos_fun text _ _ _ _ A0 B1 Hc). discriminate.
  - pose proof (at_pos_fun text _ _ _ _ A0 B2 Hc). discriminate.
Qed.

(** With both fences open at [s] and closed at [c1], and a link token
    among the six characters before [c1], the two positions are at
    least eight apart. *)
Lemma two_fences_gap (text : pystr) (s c1 j1 j2 : nat) :
  s < j1 -> j1 + 3 <= c1 -> s < j2 -> j2 + 3 <= c1 ->
  at_pos text j1 96 -> at_pos text (j1 + 1) 96 -> at_pos text (j1 + 2) 96 ->
  at_pos text j2 126 -> at_pos text (j2 + 1) 126 -> at_pos text (j2 + 2) 126 ->
  link_witness text c1 ->
  s + 8 <= c1.
Proof.
  intros Hj1 Hj1' Hj2 Hj2' A0 A1 A2 B0 B1 B2 (q & y & z & Hq1 & Hq2 & Hy & Hz & Fy & Fz).
  pose proof (fences_disjoint text j1 j2 A0 A1 A2 B0 B1 B2) as Hd.
  destruct (le_lt_dec (s + 8) c1) as [|Hlt]; [assumption|]. exfalso.
  assert (Hcov : j1 <= q < j1 + 3 \/ j2 <= q < j2 + 3) by lia.
  pose proof (covered_is_fence text j1 j2 q y A0 A1 A2 B0 B1 B2 Hy Hcov). congruence.
Qed.

Section Cut.

Variable text : pystr.
Variable n : nat.
Hypothesis Hn1 : 1 <= n.
Hypothesis Hn2 : n < List.length text.

Let snippet : pystr := firstn n text.
Let c0 : nat := stage_cut snippet.
Let c1 : nat := retreat text c0.
Let c2 : nat := _backoff_link_boundary text c1.
Let c : nat := cut_point text (Z.of_nat n).
Let X : pystr := rstrip (firstn c text).

Lemma snippet_length : List.length snippet = n.
Proof. unfold snippet. rewrite length_firstn. lia. Qed.

Lemma slice_to_snippet : slice_to text (Z.of_nat n) = snippet.
Proof.
  unfold slice_to. destruct (Z.leb_spec 0 (Z.of_nat n)); [|lia].
  now rewrite Nat2Z.id.
Qed.

Lemma cut_point_eq : c = Nat.max 1 (Nat.min c2 n).
Proof.
  unfold c, cut_point. cbv zeta. rewrite slice_to_snippet, snippet_length. reflexivity.
Qed.

Lemma c0_le : c0 <= n.
Proof.
  pose proof (stage_cut_le snippet) as H. rewrite snippet_length in H. exact H.
Qed.

Lemma c1_le : c1 <= c0.
Proof. apply retreat_le. Qed.

Lemma c2_le : c2 <= c1.
Proof. apply backoff_le. Qed.

Lemma cut_point_range : 1 <= c <= n.
Proof. rewrite cut_point_eq. pose proof c0_le. pose proof c1_le. pose proof c2_le. lia. Qed.

Lemma X_length : List.length X <= c.
Proof.
  unfold X. pose proof (rstrip_length (firstn c text)) as H.
  rewrite length_firstn in H. lia.
Qed.

(** Either the cut leaves both fence counts even, or the link backoff
    moved it to a word boundary [c] before the fence-free point [c1]. *)
Lemma cut_structure :
  fences_even X \/
  (c < c1 /\ fences_even (firstn c1 text) /\
   (exists x, at_pos text c x /\ is_boundary x = true) /\ link_witness text c1).
Proof.
  pose proof cut_point_eq as Hc. pose proof c0_le. pose proof c1_le.
  pose proof (retreat_even text c0) as Hev. change (retreat text c0) with c1 in Hev.
  pose proof (backoff_cases text c1) as Hcases.
  change (_backoff_link_boundary text c1) with c2 in Hcases.
  destruct Hcases as [He|(x & Hlt & Hx & Hb & Hw)].
  - destruct (Nat.eq_dec c1 0) as [Hz|Hz].
    + left. apply short_fences_even. pose proof X_length. lia.
    + left. unfold X. apply fences_even_rstrip.
      replace c with c1 by lia. exact Hev.
  - destruct (Nat.eq_dec c2 0) as [Hz|Hz].
    + left. apply short_fences_even. pose proof X_length. lia.
    + right. replace c with c2 by lia.
      split; [exact Hlt|]. split; [exact Hev|].
      split; [exists x; split; assumption|exact Hw].
Qed.

Lemma odd_counts_X (f : N) :
  isspace f = false ->
  Nat.odd (count (triple f) X) = Nat.odd (count (triple f) (firstn c text)).
Proof. intros Hf. unfold X. now rewrite count_rstrip. Qed.

Lemma balance_length :
  List.length (_balance_fences X) =
  List.length X
  + (if Nat.odd (count (triple 96) (firstn c text)) then 4 else 0)
  + (if Nat.odd (count (triple 126) (firstn c text)) then 4 else 0).
Proof.
  rewrite balance_spec, fence_triple_eq, fence_tildes_eq.
  rewrite !odd_counts_X by reflexivity.
  destruct (Nat.odd (count (triple 96) (firstn c text))),
           (Nat.odd (count (triple 126) (firstn c text)));
    rewrite !length_app; simpl; lia.
Qed.

(** The balanced cut fits the cap. *)
Lemma balanced_cut_length : List.length (_balance_fences X) <= n.
Proof.
  pose proof cut_point_range as Hr. pose proof X_length as HX.
  pose proof c0_le. pose proof c1_le.
  destruct cut_structure as [Hev|(Hlt & [E1 E2] & (x & Hx & Hb) & Hw)].
  - rewrite balance_id by assumption. lia.
  - rewrite balance_length.
    rewrite fence_triple_eq, fence_tildes_eq in *.
    pose proof (boundary_not_fence x Hb) as Hnf. unfold fence_char in Hnf.
    apply orb_false_iff in Hnf. destruct Hnf as [Hx96 Hx126].
    apply N.eqb_neq in Hx96, Hx126.
    destruct (Nat.odd (count (triple 96) (firstn c text))) eqn:O1,
             (Nat.odd (count (triple 126) (firstn c text))) eqn:O2.
    + destruct (fence_between 96 text c c1 x) as (j1 & L1 & U1 & A0 & A1 & A2);
        try assumption; try lia.
      destruct (fence_between 126 text c c1 x) as (j2 & L2 & U2 & B0 & B1 & B2);
        try assumption; try lia.
      pose proof (two_fences_gap text c c1 j1 j2 L1 U1 L2 U2 A0 A1 A2 B0 B1 B2 Hw). lia.
    + destruct (fence_between 96 text c c1 x) as (j1 & ? & ? & _);
        try assumption; lia.
    + destruct (fence_between 126 text c c1 x) as (j2 & ? & ? & _);
        try assumption; lia.
    + lia.
Qed.

(** When the balanced cut is as long as the cap, it is the whole
    snippet, taken as it is. *)
Lemma balanced_cut_full :
  List.length (_balance_fences X) = n -> _balance_fences X = snippet.
Proof.
  intros Hlen.
  pose proof cut_point_range as Hr. pose proof X_length as HX.
  pose proof c0_le as Hc0. pose proof c1_le as Hc1.
  assert (Hfull : fences_even X -> _balance_fences X = snippet).
  { intros Hev. rewrite balance_id in * by assumption.
    assert (c = n) by lia.
    unfold X in *. rewrite rstrip_full.
    - unfold snippet. congruence.
    - rewrite length_firstn. lia. }
  destruct cut_structure as [Hev|(Hlt & [E1 E2] & (x & Hx & Hb) & Hw)];
    [now apply Hfull|].
  rewrite balance_length in Hlen.
  rewrite fence_triple_eq, fence_tildes_eq in *.
  pose proof (boundary_not_fence x Hb) as Hnf. unfold fence_char in Hnf.
  apply orb_false_iff in Hnf. destruct Hnf as [Hx96 Hx126].
  apply N.eqb_neq in Hx96, Hx126.
  (* the end of the snippet when the cut before the backoff is the cap *)
  assert (Hend : c1 = n ->
            exists ch, at_pos text (n - 1) ch /\ fence_char ch = false).
  { intros Hc1n. assert (Hc0n : c0 = n) by lia.
    unfold c0 in Hc0n.
    assert (Hc0s : stage_cut snippet = List.length snippet)
      by (rewrite snippet_length; exact Hc0n).
    destruct (stage_cut_full snippet Hc0s) as [(ch & Hch & Hcl)|Hnone].
    - rewrite snippet_length in Hch. unfold snippet in Hch.
      rewrite nth_error_firstn in Hch. destruct (Nat.ltb_spec (n - 1) n); [|lia].
      exists ch. split; [exact Hch|]. now apply sentence_end_not_fence.
    - exfalso. assert (Hxs : nth_error snippet c = Some x).
      { unfold snippet. rewrite nth_error_firstn.
        destruct (Nat.ltb_spec c n); [exact Hx|lia]. }
      apply Hnone in Hxs. congruence. }
  destruct (Nat.odd (count (triple 96) (firstn c text))) eqn:O1,
           (Nat.odd (count (triple 126) (firstn c text))) eqn:O2.
  - exfalso.
    destruct (fence_between 96 text c c1 x) as (j1 & L1 & U1 & A0 & A1 & A2);
      try assumption; try lia.
    destruct (fence_between 126 text c c1 x) as (j2 & L2 & U2 & B0 & B1 & B2);
      try assumption; try lia.
    pose proof (two_fences_gap text c c1 j1 j2 L1 U1 L2 U2 A0 A1 A2 B0 B1 B2 Hw) as Hgap.
    assert (Hc1n : c1 = n) by lia.
    destruct (Hend Hc1n) as (ch & Hch & Fch).
    pose proof (fences_disjoint text j1 j2 A0 A1 A2 B0 B1 B2) as Hd.
    destruct Hw as (q & y & z & Hq1 & Hq2 & Hy & Hz & Fy & Fz).
    assert (Hlast : ~ (j1 <= n - 1 < j1 + 3 \/ j2 <= n - 1 < j2 + 3)).
    { intros Hcov.
      pose proof (covered_is_fence text j1 j2 (n - 1) ch A0 A1 A2 B0 B1 B2 Hch Hcov).
      congruence. }
    assert (Hcov : j1 <= q < j1 + 3 \/ j2 <= q < j2 + 3) by lia.
    pose proof (covered_is_fence text j1 j2 q y A0 A1 A2 B0 B1 B2 Hy Hcov). congruence.
  - exfalso.
    destruct (fence_between 96 text c c1 x) as (j1 & ? & ? & A0 & A1 & A2);
      try assumption; try lia.
    assert (Hc1n : c1 = n) by lia.
    destruct (Hend Hc1n) as (ch & Hch & Fch).
    assert (ch = 96%N) by (apply (at_pos_fun text (n - 1) (j1 + 2) ch 96 Hch A2); lia).
    subst ch. discriminate.
  - exfalso.
    destruct (fence_between 126 text c c1 x) as (j2 & ? & ? & B0 & B1 & B2);
      try assumption; try lia.
    assert (Hc1n : c1 = n) by lia.
    destruct (Hend Hc1n) as (ch & Hch & Fch).
    assert (ch = 126%N) by (apply (at_pos_fun text (n - 1) (j2 + 2) ch 126 Hch B2); lia).
    subst ch. discriminate.
  - exfalso. lia.
Qed.

End Cut.

End CutProofs.

(** ** The Length Governor: bound and stability of the char cap *)

Module CapBound.

Import Regex LengthControl LengthSpec CountProofs FenceProofs MatchProofs CutProofs.

Lemma ellipsis_length : List.length ELLIPSIS = 1.
Proof. reflexivity. Qed.

Lemma cap_as_nat (text : pystr) (max_chars : Z) :
  (1 <= max_chars)%Z -> (max_chars < Z.of_nat (List.length text))%Z ->
  exists n, max_chars = Z.of_nat n /\ 1 <= n /\ n < List.length text.
Proof. intros H1 H2. exists (Z.to_nat max_chars). lia. Qed.

Lemma soft_cut_long (text : pystr) (n : nat) (e : bool) :
  n < List.length text ->
  soft_cut text (Z.of_nat n) e =
  let out := _balance_fences (rstrip (firstn (cut_point text (Z.of_nat n)) text)) in
  if e then (out ++ ELLIPSIS)%list else out.
Proof.
  intros H. unfold soft_cut.
  destruct (Z.leb_spec (Z.of_nat (List.length text)) (Z.of_nat n)); [lia|reflexivity].
Qed.

(** For a text longer than a positive cap, the soft cut with its
    ellipsis has at most cap + 1 characters. *)
Lemma soft_cut_length (text : pystr) (n : nat) :
  1 <= n -> n < List.length text ->
  List.length (soft_cut text (Z.of_nat n) true) <= n + 1.
Proof.
  intros H1 H2. rewrite soft_cut_long by assumption. cbv zeta.
  rewrite length_app, ellipsis_length.
  pose proof (balanced_cut_length text n H1 H2). lia.
Qed.

(** The cut of code values: a hard cut that retreats out of an open
    fence. *)
Lemma code_cut_even (text : pystr) (n : nat) :
  fences_even (rstrip (firstn (Nat.max 1 (retreat text n)) text)).
Proof.
  apply fences_even_rstrip.
  destruct (Nat.eq_dec (retreat text n) 0) as [Hz|Hz].
  - apply short_fences_even. rewrite length_firstn. lia.
  - replace (Nat.max 1 (retreat text n)) with (retreat text n) by lia.
    apply retreat_even.
Qed.

Lemma enforce_code_long (text : pystr) (n : nat) :
  1 <= n -> n < List.length text ->
  enforce_char_cap text (Z.of_nat n) true
  = rstrip (firstn (Nat.max 1 (retreat text n)) text).
Proof.
  intros H1 H2. unfold enforce_char_cap.
  destruct (Z.leb_spec (Z.of_nat (List.length text)) (Z.of_nat n)); [lia|].
  cbv zeta. unfold slice_to. destruct (Z.leb_spec 0 (Z.of_nat n)); [|lia].
  rewrite Nat2Z.id, length_firstn, Nat.min_l by lia.
  apply balance_id, code_cut_even.
Qed.

Lemma enforce_code_length (text : pystr) (n : nat) :
  1 <= n -> n < List.length text ->
  List.length (enforce_char_cap text (Z.of_nat n) true) <= n.
Proof.
  intros H1 H2. rewrite enforce_code_long by assumption.
  pose proof (rstrip_length (firstn (Nat.max 1 (retreat text n)) text)) as H.
  rewrite length_firstn in H. pose proof (retreat_le text n). lia.
Qed.

(** The bound of the char cap: a text longer than a positive cap is
    cut to at most cap + 1 characters, the ellipsis included. *)
Theorem enforce_char_cap_length (text : pystr) (max_chars : Z) (is_code : bool) :
  (1 <= max_chars)%Z -> (max_chars < Z.of_nat (List.length text))%Z ->
  (Z.of_nat (List.length (enforce_char_cap text max_chars is_code)) <= max_chars + 1)%Z.
Proof.
  intros H1 H2. destruct (cap_as_nat text max_chars H1 H2) as (n & -> & Hn1 & Hn2).
  destruct is_code.
  - pose proof (enforce_code_length text n Hn1 Hn2). lia.
  - unfold enforce_char_cap.
    destruct (Z.leb_spec (Z.of_nat (List.length text)) (Z.of_nat n)); [lia|].
    pose proof (soft_cut_length text n Hn1 Hn2). lia.
Qed.

(** The result of the char cap never has an unclosed fence. *)
Theorem enforce_char_cap_balanced (text : pystr) (max_chars : Z) (is_code : bool) :
  fences_even (enforce_char_cap text max_chars is_code).
Proof.
  unfold enforce_char_cap, soft_cut.
  destruct (Z.of_nat (List.length text) <=? max_chars)%Z; [apply balance_even|].
  destruct is_code; [apply balance_even|].
  apply fences_even_ellipsis, balance_even.
Qed.

(** The soft cut reads the text through its snippet only. *)
Lemma cut_point_prefix (text text' : pystr) (n : nat) :
  n < List.length text -> n < List.length text' ->
  firstn n text = firstn n text' ->
  cut_point text (Z.of_nat n) = cut_point text' (Z.of_nat n).
Proof.
  intros H1 H2 H. unfold cut_point, slice_to.
  destruct (Z.leb_spec 0 (Z.of_nat n)); [|lia]. rewrite Nat2Z.id, <- H.
  cbv zeta.
  assert (Hc0 : stage_cut (firstn n text) <= n).
  { pose proof (stage_cut_le (firstn n text)) as Hs. rewrite length_firstn in Hs. lia. }
  rewrite <- (retreat_prefix text text' n _ Hc0 H).
  pose proof (retreat_le text (stage_cut (firstn n text))) as Hc1.
  rewrite <- (backoff_prefix text text' n _ (Nat.le_trans _ _ _ Hc1 Hc0) H).
  reflexivity.
Qed.

Lemma soft_cut_prefix (text text' : pystr) (n : nat) (e : bool) :
  1 <= n -> n < List.length text -> n < List.length text' ->
  firstn n text = firstn n text' ->
  soft_cut text (Z.of_nat n) e = soft_cut text' (Z.of_nat n) e.
Proof.
  intros Hn H1 H2 H. rewrite !soft_cut_long by assumption. cbv zeta.
  rewrite <- (cut_point_prefix text text' n H1 H2 H).
  pose proof (cut_point_range text n Hn H1) as Hr.
  now rewrite (firstn_prefix_eq text text' n _ (proj2 Hr) H).
Qed.

(** Cutting a soft cut again changes nothing. *)
Lemma soft_cut_stable (text : pystr) (n : nat) :
  1 <= n -> n < List.length text ->
  soft_cut (soft_cut text (Z.of_nat n) true) (Z.of_nat n) true
  = soft_cut text (Z.of_nat n) true.
Proof.
  intros Hn H1.
  pose proof (balanced_cut_length text n Hn H1) as Hlen.
  pose proof (balanced_cut_full text n Hn H1) as Hfull.
  rewrite (soft_cut_long text n true H1). cbv zeta.
  set (Y := _balance_fences (rstrip (firstn (cut_point text (Z.of_nat n)) text))) in *.
  destruct (Nat.eq_dec (List.length Y) n) as [He|Hne].
  - specialize (Hfull He).
    assert (Hl : n < List.length (Y ++ ELLIPSIS)%list)
      by (rewrite length_app, ellipsis_length; lia).
    rewrite (soft_cut_prefix (Y ++ ELLIPSIS)%list text n true Hn Hl H1).
    + rewrite (soft_cut_long text n true H1). reflexivity.
    + rewrite firstn_app, He, Nat.sub_diag. simpl. rewrite app_nil_r.
      rewrite <- He at 1. rewrite firstn_all. exact Hfull.
  - unfold soft_cut at 1.
    destruct (Z.leb_spec (Z.of_nat (List.length (Y ++ ELLIPSIS)%list)) (Z.of_nat n)) as [_|Hgt].
    + apply balance_id, fences_even_ellipsis. apply balance_even.
    + rewrite length_app, ellipsis_length in Hgt. lia.
Qed.

(** The char cap is stable on its own results, for a positive cap and a
    text that is longer than the cap or has no unclosed fence. *)
Theorem enforce_char_cap_stable (text : pystr) (max_chars : Z) (is_code : bool) :
  (1 <= max_chars)%Z ->
  (max_chars < Z.of_nat (List.length text))%Z \/ fences_even text ->
  enforce_char_cap (enforce_char_cap text max_chars is_code) max_chars is_code
  = enforce_char_cap text max_chars is_code.
Proof.
  intros H1 Hor.
  destruct (Z.leb_spec (Z.of_nat (List.length text)) max_chars) as [Hle|Hgt].
  - destruct Hor as [Hlt|Hev]; [lia|].
    assert (He : enforce_char_cap text max_chars is_code = text).
    { unfold enforce_char_cap. destruct (Z.leb_spec (Z.of_nat (List.length text)) max_chars);
        [now apply balance_id|lia]. }
    now rewrite !He.
  - destruct (cap_as_nat text max_chars H1 Hgt) as (n & -> & Hn1 & Hn2).
    destruct is_code.
    + pose proof (enforce_code_length text n Hn1 Hn2) as Hl.
      pose proof (enforce_char_cap_balanced text (Z.of_nat n) true) as Hb.
      set (r := enforce_char_cap text (Z.of_nat n) true) in *.
      unfold enforce_char_cap at 1.
      destruct (Z.leb_spec (Z.of_nat (List.length r)) (Z.of_nat n)); [|lia].
      now apply balance_id.
    + assert (He : enforce_char_cap text (Z.of_nat n) false = soft_cut text (Z.of_nat n) true).
      { unfold enforce_char_cap.
        destruct (Z.leb_spec (Z.of_nat (List.length text)) (Z.of_nat n)); [lia|reflexivity]. }
      rewrite He.
      pose proof (soft_cut_stable text n Hn1 Hn2) as Hs.
      pose proof (soft_cut_length text n Hn1 Hn2) as Hl.
      set (r := soft_cut text (Z.of_nat n) true) in *.
      unfold enforce_char_cap.
      destruct (Z.leb_spec (Z.of_nat (List.length r)) (Z.of_nat n)) as [Hle|Hgt'].
      * unfold soft_cut in Hs.
        destruct (Z.leb_spec (Z.of_nat (List.length r)) (Z.of_nat n)); [exact Hs|lia].
      * exact Hs.
Qed.

End CapBound.

(** ** The Length Governor: cut points, bullets and repeated trimming *)

Module TrimProofs.

Import Regex LengthControl LengthSpec CountProofs FenceProofs MatchProofs CutProofs CapBound ShapeProofs.
Local Open Scope string_scope.

(** *** A cut that lands inside a fenced block *)

(** C2, as the code behaves.  The text is longer than the cap of 12.
    Steps 1 to 3 of [soft_cut] put the cut at 12, after the closed
    block; the link backoff of step 4 then moves it to the word
    boundary at 4, inside the block: one fence lies before the cut
    point.  The result, with the fence closed again and the ellipsis,
    has 9 characters. *)
Lemma C2_cut_lands_inside_fence :
  (12 < Z.of_nat (List.length fenced_link_text))%Z /\
  retreat fenced_link_text (stage_cut (slice_to fenced_link_text 12)) = 12 /\
  cut_point fenced_link_text 12 = 4 /\
  count _FENCE_TRIPLE (firstn 4 fenced_link_text) = 1 /\
  _inside_code_block fenced_link_text 4 = true /\
  enforce_char_cap fenced_link_text 12 false = (u "```a" ++ [10%N] ++ u "```…")%list.
Proof. vm_compute. repeat split; congruence. Qed.

Example one_liner_cut_inside_fence :
  cut_point fenced_one_liner 140 = 123 /\
  _inside_code_block fenced_one_liner 123 = true /\
  trim_payload (VDict [("one_liner", VStr fenced_one_liner)]) None 4000 None None
  = VDict [("one_liner",
            VStr (u "```" ++ repeat 120%N 120 ++ [10%N] ++ u "```…")%list)].
Proof. vm_compute. repeat split; congruence. Qed.

(** Cuts at a sentence end, and a hard cut without any boundary. *)
Example cut_at_sentence_end :
  enforce_char_cap (u "Hello. World and more") 10 false = u "Hello.…".
Proof. reflexivity. Qed.

Example cut_without_boundary :
  enforce_char_cap (u "aaaaaaaa") 5 false = u "aaaaa…".
Proof. reflexivity. Qed.

(** *** The bullets example *)

Lemma strings_of_map (l : list pystr) : strings_of (List.map VStr l) = l.
Proof. induction l as [|s l IH]; simpl; congruence. Qed.

Lemma trim_bullets (R : Runtime) (l : list pystr)
    (style_chars : option Z) (global_cap : Z) (token_cap : option Z)
    (tokenizer : option Tokenizer) :
  _trim_value None (VDict [("bullets", VList (List.map VStr l))])
    style_chars global_cap token_cap tokenizer
  = VDict [("bullets", VList (List.map VStr (enforce_bullets l 250 7 true)))].
Proof.
  cbn [_trim_value List.map].
  change (mem "bullets" SKIP_KEYS) with false. cbv iota.
  rewrite forallb_is_str_map, strings_of_map. reflexivity.
Qed.

(** C6, amended.  For a payload with eight strings under [bullets],
    the output list has exactly 7 content entries, the first seven
    strings each passed through the char cap of 250, followed by the
    marker for one dropped entry.  An entry cut from a string of more
    than 250 characters has at most 251 characters, the ellipsis
    included; a string of at most 250 characters is returned with only
    its missing closing fences appended. *)
Theorem C6_bullets_example (R : Runtime) (l : list pystr)
    (length_style : option string) (max_chars : Z) (max_tokens : option Z)
    (tokenizer : option Tokenizer) :
  List.length l = 8 ->
  trim_payload (VDict [("bullets", VList (List.map VStr l))])
    length_style max_chars max_tokens tokenizer
  = VDict [("bullets",
            VList (List.map VStr (List.map bullet_cap (firstn 7 l) ++ [u "… (+1 more)"])))]
  /\ List.length (List.map bullet_cap (firstn 7 l)) = 7
  /\ forall s, In s (firstn 7 l) ->
       (250 < List.length s -> List.length (bullet_cap s) <= 251) /\
       (List.length s <= 250 -> bullet_cap s = _balance_fences s).
Proof.
  intros Hl. split; [|split].
  - unfold trim_payload. rewrite trim_bullets. unfold enforce_bullets.
    rewrite Hl. reflexivity.
  - rewrite length_map, length_firstn. lia.
  - intros s _. unfold bullet_cap. split; intros Hs.
    + pose proof (enforce_char_cap_length s 250 false). lia.
    + unfold enforce_char_cap.
      destruct (Z.leb_spec (Z.of_nat (List.length s)) 250); [reflexivity|lia].
Qed.

Lemma C6_witness :
  trim_payload (VDict [("bullets", VList (List.map VStr eight_bullets))])
    (Some "short") 4000 None None
  = VDict [("bullets",
            VList (List.map VStr
                     (List.map bullet_cap (firstn 7 eight_bullets) ++ [u "… (+1 more)"])))]
  /\ List.length (List.map bullet_cap (firstn 7 eight_bullets)) = 7
  /\ forall s, In s (firstn 7 eight_bullets) ->
       (250 < List.length s -> List.length (bullet_cap s) <= 251) /\
       (List.length s <= 250 -> bullet_cap s = _balance_fences s).
Proof.
  apply (C6_bullets_example plain_runtime eight_bullets (Some "short") 4000 None None).
  reflexivity.
Defined.

(** The entry cut from the string of 300 characters has 251
    characters: 250 of the text and the ellipsis. *)
Lemma C6_counterexample :
  List.length eight_bullets = 8 /\
  List.length (nth 0 eight_bullets []) = 300 /\
  exists out,
    trim_payload (VDict [("bullets", VList (List.map VStr eight_bullets))])
      None 4000 None None
    = VDict [("bullets", VList (List.map VStr out))] /\
    List.length out = 8 /\
    nth 0 out [] = (repeat 97%N 250 ++ u "…")%list /\
    ~ List.length (nth 0 out []) <= 250.
Proof.
  split; [reflexivity|]. split; [reflexivity|].
  exists ((repeat 97%N 250 ++ u "…")%list
          :: (List.map (fun c => [c]) (u "bcdefg") ++ [u "… (+1 more)"])%list).
  split; [vm_compute; reflexivity|].
  split; [reflexivity|]. split; [reflexivity|]. vm_compute. lia.
Qed.

(** *** Trimming twice *)

(** The possible entries of the policy table. *)
Lemma key_policy_cases (P : option Policy -> Prop) (key : string) :
  P (Some (mkPolicy "text" (Some 140%Z) None None None)) ->
  P (Some text_policy) -> P (Some code_policy) ->
  P (Some (mkPolicy "list" None (Some 250%Z) (Some 7%Z) (Some true))) ->
  P (Some (mkPolicy "list" None (Some 120%Z) (Some 10%Z) (Some true))) ->
  P (Some (mkPolicy "list" None (Some 200%Z) (Some 10%Z) (Some true))) ->
  P None ->
  P (KEY_POLICY key).
Proof.
  intros. unfold KEY_POLICY.
  repeat match goal with
         | |- P (if ?b then _ else _) => destruct b
         end; assumption.
Qed.

Lemma policy_max_chars (key : string) :
  p_max_chars (get_default (KEY_POLICY key) text_policy) = None \/
  p_max_chars (get_default (KEY_POLICY key) text_policy) = Some 140%Z.
Proof. pattern (KEY_POLICY key). apply key_policy_cases; cbn; auto. Qed.

Lemma policy_max_each (key : string) (d : Z) :
  (1 <= d)%Z ->
  (1 <= get_default (p_max_each (get_default (KEY_POLICY key) list_policy)) d)%Z.
Proof. intros Hd. pattern (KEY_POLICY key). apply key_policy_cases; cbn; lia. Qed.

Lemma policy_max_count (key : option string) : (0 <= max_count_of key)%Z.
Proof.
  unfold max_count_of. pattern (KEY_POLICY (key_or_empty key)).
  apply key_policy_cases; cbn; lia.
Qed.

Lemma style_chars_positive (length_style : option string) (c : Z) :
  option_map chars (style_preset length_style) = Some c -> (1 <= c)%Z.
Proof.
  unfold style_preset. destruct (nonempty length_style) as [s|]; [|discriminate].
  unfold LENGTH_PRESETS.
  repeat (destruct (String.eqb s _); [cbn; intros [= <-]; lia|]). discriminate.
Qed.

Lemma or_else_positive (a : option Z) (b : Z) :
  (forall c, a = Some c -> (1 <= c)%Z) -> (1 <= b)%Z -> (1 <= or_else a b)%Z.
Proof.
  intros Ha Hb. destruct a as [c|]; cbn; [|assumption].
  specialize (Ha c eq_refl). destruct (Z.eqb_spec c 0); lia.
Qed.

Lemma token_idle_text (R : Runtime) (s : pystr) (is_code : bool)
    (token_cap : option Z) (tokenizer : option Tokenizer) :
  token_cap_idle token_cap ->
  (if negb is_code && truthy_cap token_cap
   then enforce_token_cap s token_cap tokenizer else s) = s.
Proof.
  intros Hidle. destruct (negb is_code && truthy_cap token_cap); [|reflexivity].
  unfold enforce_token_cap. destruct token_cap as [t|]; [|reflexivity].
  specialize (Hidle t eq_refl). destruct (Z.leb_spec t 0); [reflexivity|lia].
Qed.

Lemma is_str_trim (R : Runtime) (v : value) (key : option string)
    (style_chars : option Z) (global_cap : Z) (token_cap : option Z)
    (tokenizer : option Tokenizer) :
  is_str (_trim_value key v style_chars global_cap token_cap tokenizer) = is_str v.
Proof.
  destruct v; cbn [_trim_value is_str]; try reflexivity.
  destruct (forallb is_str l); reflexivity.
Qed.

Lemma map_char_cap_stable (each : Z) (l : list pystr) :
  (1 <= each)%Z -> Forall fences_even l ->
  List.map (fun s => enforce_char_cap s each false)
           (List.map (fun s => enforce_char_cap s each false) l)
  = List.map (fun s => enforce_char_cap s each false) l.
Proof.
  intros He Hl. rewrite map_map. apply map_ext_in. intros s Hs.
  apply enforce_char_cap_stable; [assumption|right].
  rewrite Forall_forall in Hl. now apply Hl.
Qed.

Lemma slice_to_nat {A} (l : list A) (k : Z) :
  (0 <= k)%Z -> slice_to l k = firstn (Z.to_nat k) l.
Proof. intros Hk. unfold slice_to. destruct (Z.leb_spec 0 k); [reflexivity|lia]. Qed.

Lemma Forall_firstn {A} (P : A -> Prop) (n : nat) (l : list A) :
  Forall P l -> Forall P (firstn n l).
Proof.
  intros H. revert n. induction H as [|x l Hx _ IH]; intros [|n]; simpl;
    constructor; auto.
Qed.

(** A list of strings with at most one entry beyond the count is
    capped the same way a second time. *)
Lemma enforce_bullets_stable (l : list pystr) (each cnt : Z) (tail : bool) :
  (1 <= each)%Z -> (0 <= cnt)%Z ->
  (Z.of_nat (List.length l) <= cnt + 1)%Z ->
  Forall fences_even l ->
  enforce_bullets (enforce_bullets l each cnt tail) each cnt tail
  = enforce_bullets l each cnt tail.
Proof.
  intros He Hc Hl Hev. unfold enforce_bullets. rewrite !slice_to_nat by assumption.
  set (E := fun s => enforce_char_cap s each false).
  set (cn := Z.to_nat cnt).
  destruct (Nat.le_gt_cases (List.length l) cn) as [Hle|Hgt].
  - (* nothing is dropped *)
    replace (Z.to_nat (Z.max 0 (Z.of_nat (List.length l) - cnt))) with 0 by lia.
    rewrite andb_false_r. rewrite (firstn_all2 l) by assumption.
    rewrite length_map.
    replace (Z.to_nat (Z.max 0 (Z.of_nat (List.length l) - cnt))) with 0 by lia.
    rewrite andb_false_r. rewrite firstn_all2 by (rewrite length_map; assumption).
    now apply map_char_cap_stable.
  - (* exactly one entry is dropped *)
    assert (Hlen : List.length l = S cn) by lia.
    replace (Z.to_nat (Z.max 0 (Z.of_nat (List.length l) - cnt))) with 1 by lia.
    assert (Hf : List.length (List.map E (firstn cn l)) = cn)
      by (rewrite length_map, length_firstn; lia).
    destruct tail; cbn [andb Nat.ltb Nat.leb].
    + rewrite length_app, Hf. cbn [List.length].
      replace (Z.to_nat (Z.max 0 (Z.of_nat (cn + 1) - cnt))) with 1 by lia.
      cbn [Nat.ltb Nat.leb].
      rewrite firstn_app, Hf, Nat.sub_diag. cbn [firstn]. rewrite app_nil_r.
      rewrite <- Hf at 1. rewrite firstn_all. subst E.
      rewrite map_char_cap_stable; [reflexivity|assumption|now apply Forall_firstn].
    + rewrite (firstn_all2 (List.map E (firstn cn l))) by (rewrite Hf; lia). subst E.
      apply map_char_cap_stable; [assumption|now apply Forall_firstn].
Qed.

Lemma strings_of_length (l : list value) :
  forallb is_str l = true -> List.length (strings_of l) = List.length l.
Proof.
  induction l as [|v l IH]; [reflexivity|]. cbn [forallb]. intros H.
  apply andb_true_iff in H. destruct H as [Hv Hl].
  destruct v; try discriminate. cbn [strings_of flat_map app List.length].
  f_equal. now apply IH.
Qed.

Lemma steady_str_inv (key : option string) (s : pystr) :
  steady key (VStr s) -> fences_even s.
Proof. intros H. inversion H. assumption. Qed.

Lemma steady_list_inv (key : option string) (l : list value) :
  steady key (VList l) ->
  (forallb is_str l = true /\
   (Z.of_nat (List.length l) <= max_count_of key + 1)%Z /\
   Forall fences_even (strings_of l)) \/
  (forallb is_str l = false /\ Forall (steady key) l).
Proof. intros H. inversion H; subst; [left|right]; auto. Qed.

Lemma steady_dict_inv (key : option string) (d : list (string * value)) :
  steady key (VDict d) ->
  Forall (fun kv => mem (fst kv) SKIP_KEYS = false -> steady (Some (fst kv)) (snd kv)) d.
Proof. intros H. inversion H. assumption. Qed.

Section Stable.

Context {R : Runtime}.
Variable style_chars : option Z.
Variable global_cap : Z.
Variable token_cap : option Z.
Variable tokenizer : option Tokenizer.
Hypothesis Hstyle : forall c, style_chars = Some c -> (1 <= c)%Z.
Hypothesis Hcap : (1 <= global_cap)%Z.
Hypothesis Hidle : token_cap_idle token_cap.

Let trim (key : option string) (v : value) : value :=
  _trim_value key v style_chars global_cap token_cap tokenizer.

Lemma trim_value_stable (v : value) :
  forall key, steady key v -> trim key (trim key v) = trim key v.
Proof.
  unfold trim.
  induction v as [a|s|l IH|d IH] using value_rect'; intros key Hst.
  - reflexivity.
  - apply steady_str_inv in Hst. rename Hst into Hev.
    cbn [_trim_value]. rewrite !token_idle_text by assumption.
    f_equal. apply enforce_char_cap_stable; [|now right].
    set (policy := get_default (KEY_POLICY (key_or_empty key)) text_policy).
    pose proof (or_else_positive style_chars global_cap Hstyle Hcap) as Hor.
    destruct (policy_max_chars (key_or_empty key)) as [Hp|Hp];
      fold policy in Hp; rewrite Hp; cbn [get_default]; lia.
  - apply steady_list_inv in Hst.
    destruct Hst as [(Hs & Hlen & Hev)|(Hs & Hall)].
    + cbn [_trim_value]. rewrite Hs. cbn [_trim_value].
      rewrite forallb_is_str_map, strings_of_map.
      f_equal. f_equal.
      apply enforce_bullets_stable;
        [| |rewrite (strings_of_length l Hs); exact Hlen|exact Hev].
      * pose proof (or_else_positive style_chars 250 Hstyle ltac:(lia)) as Hor.
        pose proof (policy_max_each (key_or_empty key) _ Hor). lia.
      * apply policy_max_count.
    + cbn [_trim_value]. rewrite Hs. cbn [_trim_value].
      assert (Hs' : forallb is_str
                      (List.map (fun x => _trim_value key x style_chars global_cap
                                                      token_cap tokenizer) l) = false).
      { rewrite <- Hs. clear. induction l as [|x l IHl]; [reflexivity|].
        cbn [List.map forallb]. now rewrite is_str_trim, IHl. }
      rewrite Hs'. f_equal. rewrite map_map. apply map_ext_in.
      intros x Hx. rewrite Forall_forall in IH, Hall. apply IH; auto.
  - apply steady_dict_inv in Hst. rename Hst into Hall.
    cbn [_trim_value]. f_equal. rewrite map_map. apply map_ext_in.
    intros [k x] Hx. rewrite Forall_forall in IH, Hall.
    destruct (mem k SKIP_KEYS) eqn:Hk; [now rewrite Hk|]. rewrite Hk.
    f_equal. apply (IH (k, x) Hx). apply (Hall (k, x) Hx). exact Hk.
Qed.

End Stable.




(** Why the other conditions are there: a short string with an open
    fence grows past the cap when the fence is closed, and is cut on
    the second pass; and the token cap of the fallback tokenizer cuts
    the closing fence off again and rejoins the words. *)
Example open_fence_not_stable :
  trim_payload (trim_payload (VStr (u "```abc")) None 6 None None) None 6 None None
  <> trim_payload (VStr (u "```abc")) None 6 None None.
Proof. vm_compute. discriminate. Qed.

Example token_cap_not_stable :
  trim_payload (trim_payload (VStr (u "```  a")) None 4000 (Some 2%Z) None)
    None 4000 (Some 2%Z) None
  <> trim_payload (VStr (u "```  a")) None 4000 (Some 2%Z) None.
Proof. vm_compute. discriminate. Qed.

End TrimProofs.

(** ** The Script Engine: the catalogue order and the outcomes of a turn *)

Module ScriptExtra.

Import ScriptCatalog NodesScript ScriptSpec ScriptOrder ScriptProofs.
Local Open Scope string_scope.

Lemma validb_spec (p : Progress) :
  validb p = true <->
  exists order, dict_get SECTION_ORDER (section p) = Some order /\
                (0 <= index p < Z.of_nat (List.length order))%Z.
Proof.
  unfold validb. destruct (dict_get SECTION_ORDER (section p)) as [order|].
  - rewrite andb_true_iff, Z.leb_le, Z.ltb_lt. split.
    + intros H. exists order. auto.
    + intros (o & [= <-] & H). exact H.
  - split; [discriminate|]. intros (o & H & _). discriminate.
Qed.

Lemma section_known (s : string) :
  In s flow -> exists order, dict_get SECTION_ORDER s = Some order /\ order <> [].
Proof.
  intros [<-|[<-|[<-|[<-|[]]]]]; eexists; (split; [reflexivity|discriminate]).
Qed.

Lemma section_in_flow (s : string) (order : list string) :
  dict_get SECTION_ORDER s = Some order -> In s flow.
Proof.
  intros H. apply section_order_some in H.
  destruct H as [[-> _]|[[-> _]|[[-> _]|[-> _]]]]; simpl; tauto.
Qed.

(** The linear step never raises on a known section. *)
Lemma next_progress_ok (p : Progress) :
  In (section p) flow -> exists r, next_progress p = Ok r.
Proof.
  intros H. destruct (section_known _ H) as (order & Ho & _).
  unfold next_progress. rewrite Ho.
  destruct (_ <? _)%Z; [eauto|].
  destruct (list_index (section p) flow) as [i|]; [|eauto].
  destruct (nth_error flow (i + 1)); eauto.
Qed.

Lemma next_progress_unknown (p : Progress) :
  ~ In (section p) flow -> next_progress p = Raise KeyError.
Proof.
  intros H. unfold next_progress. now rewrite (section_order_none _ H).
Qed.

(** The jump target of [choose_next_progress], when it jumps. *)
Lemma choose_cases (U : Unicode) (p : Progress) (text : pystr) :
  choose_next_progress p text = next_progress p \/
  exists top i, candidate p (section_slots p) top i /\
                choose_next_progress p text = Ok (Some (with_index p (Z.of_nat i))).
Proof.
  pose proof (section_slots_nodup p) as Hnd.
  unfold choose_next_progress. fold (section_slots p).
  destruct (section_slots p) as [|s0 order'] eqn:Hord; [now left|].
  rewrite <- Hord in *.
  destruct (remaining_slots (section_slots p) (answered p) (index p))
    as [|r0 rem'] eqn:Hrem; [now left|].
  destruct (sorted_desc_head (@snd string nat)
              (List.map (fun sid => (sid, _score_slot text sid)) (r0 :: rem')))
    as ([top sc] & rest & pre & post & Hs & Hl & _ & _); [discriminate|].
  rewrite Hs.
  destruct (0 <? sc)%nat; [|now left].
  assert (Hin : In (top, sc) (List.map (fun sid => (sid, _score_slot text sid)) (r0 :: rem')))
    by (rewrite Hl; apply in_elt).
  apply in_map_iff in Hin. destruct Hin as (sid & [= <- <-] & Hin).
  rewrite <- Hrem in Hin.
  apply (remaining_candidate p _ sid Hnd) in Hin. destruct Hin as (i & Hc).
  right. exists sid, i. split; [exact Hc|].
  destruct Hc as (Hn & _ & _). now rewrite (list_index_complete _ _ _ Hnd Hn).
Qed.

Lemma offsets (s : string) (order : list string) :
  dict_get SECTION_ORDER s = Some order ->
  (s = "A" /\ order = A_ORDER /\ section_offset s = 0%Z) \/
  (s = "B" /\ order = B_ORDER /\ section_offset s = 4%Z) \/
  (s = "C" /\ order = C_ORDER /\ section_offset s = 9%Z) \/
  (s = "D" /\ order = D_ORDER /\ section_offset s = 16%Z).
Proof.
  intros H. apply section_order_some in H.
  destruct H as [[-> ->]|[[-> ->]|[[-> ->]|[-> ->]]]]; auto 10.
Qed.

(** On a valid progress the linear step gives the very next slot of
    the catalogue, and nothing after the last one. *)
Lemma next_progress_valid (p : Progress) :
  validb p = true ->
  match next_progress p with
  | Ok (Some n) => validb n = true /\ rank n = (rank p + 1)%Z /\ answered n = answered p
  | Ok None => rank p = 25%Z
  | Raise _ => False
  end.
Proof.
  intros Hv. apply validb_spec in Hv. destruct Hv as (order & Ho & Hi).
  destruct p as [sec idx ans]. cbn [section index] in *.
  unfold next_progress, rank. cbn [section index answered]. rewrite Ho.
  destruct (offsets _ _ Ho) as [(-> & -> & ->)|[(-> & -> & ->)|[(-> & -> & ->)|(-> & -> & ->)]]];
    clear Ho; cbv [A_ORDER B_ORDER C_ORDER D_ORDER List.length] in Hi |- *;
    match goal with
    | |- context [(?a <? ?b)%Z] => destruct (Z.ltb_spec a b)
    end;
    cbn [list_index flow String.eqb Ascii.eqb Bool.eqb option_map nth_error Nat.add
         with_index section index answered];
    repeat match goal with
           | |- context [section_offset ?s] =>
             let v := eval vm_compute in (section_offset s) in
             change (section_offset s) with v
           end;
    first [ lia
          | split; [apply validb_spec; eexists; split; [reflexivity|cbn; lia]|];
            split; [lia|reflexivity] ].
Qed.

Lemma section_slots_eq (p : Progress) (order : list string) :
  dict_get SECTION_ORDER (section p) = Some order -> section_slots p = order.
Proof. unfold section_slots. now intros ->. Qed.

(** On a valid progress the choice never raises and never goes back. *)
Lemma choose_valid (U : Unicode) (p : Progress) (text : pystr) :
  validb p = true ->
  match choose_next_progress p text with
  | Ok (Some n) => validb n = true /\ (rank p < rank n)%Z /\ answered n = answered p
  | Ok None => rank p = 25%Z
  | Raise _ => False
  end.
Proof.
  intros Hv. pose proof (next_progress_valid p Hv) as Hn.
  destruct (choose_cases U p text) as [->|(top & i & Hc & ->)].
  - destruct (next_progress p) as [[n|]|e]; [|exact Hn|exact Hn].
    destruct Hn as (H1 & H2 & H3). repeat split; [assumption|lia|assumption].
  - apply validb_spec in Hv. destruct Hv as (order & Ho & Hi).
    rewrite (section_slots_eq _ _ Ho) in Hc. destruct Hc as (Hnth & Hlt & _).
    assert (Hlen : i < List.length order) by (apply nth_error_Some; congruence).
    repeat split.
    + apply validb_spec. exists order. cbn [with_index section index]. split; [exact Ho|lia].
    + unfold rank. cbn [with_index section index]. lia.
Qed.

Lemma validb_false (p : Progress) (segment : option string) :
  validb p = false -> current_question p segment = None.
Proof.
  intros Hv. apply current_question_invalid. unfold invalid_progress.
  unfold validb in Hv.
  destruct (dict_get SECTION_ORDER (section p)) as [order|] eqn:Ho.
  - right. exists order. split; [reflexivity|].
    apply andb_false_iff in Hv. destruct Hv as [H|H];
      [apply Z.leb_gt in H|apply Z.ltb_ge in H]; lia.
  - left. intros Hin. destruct (section_known _ Hin) as (o & Ho' & _). congruence.
Qed.

Lemma on_topic_flag (state : GraphState) :
  domain_isOnTopic state <> Some false ->
  negb (match domain_isOnTopic state with Some b => b | None => true end) = false.
Proof.
  intros H. destruct (domain_isOnTopic state) as [[|]|]; [reflexivity|congruence|reflexivity].
Qed.

Lemma marked_valid (p : Progress) (ans : list string) :
  validb (mkProgress (section p) (index p) ans) = validb p.
Proof. reflexivity. Qed.

Lemma marked_rank (p : Progress) (ans : list string) :
  rank (mkProgress (section p) (index p) ans) = rank p.
Proof. reflexivity. Qed.

Lemma add_answered_In (slot : string) (ans : list string) (x : string) :
  In x (add_answered slot ans) <-> In x ans \/ x = slot.
Proof.
  unfold add_answered. rewrite nodup_In, in_app_iff. simpl. intuition.
Qed.

Lemma answering_true (state : GraphState) (p : Progress) (q : Question) :
  match truthy (param_last_slot state), Some q, strip (_last_user_text (turns state)) with
  | Some a, Some q, _ :: _ => String.eqb a (q_id q)
  | _, _, _ => false
  end = true ->
  truthy (param_last_slot state) = Some (q_id q).
Proof.
  destruct (truthy (param_last_slot state)) as [a|]; [|discriminate].
  destruct (strip _); [discriminate|].
  intros H. apply String.eqb_eq in H. now subst.
Qed.

Lemma node_on_topic (U : Unicode) (state : GraphState) :
  domain_isOnTopic state <> Some false ->
  exists out kept,
    script_qna_node state = Ok (out, kept) /\
    match out with
    | Notice _ => False
    | End m =>
      validb (working_progress state) = false /\ m = END_MESSAGE /\
      kept = param_script_progress state
    | Ask t slot sec n =>
      validb (working_progress state) = true /\
      validb n = true /\ slot = slot_of n /\ sec = section n /\
      (rank (working_progress state) <= rank n)%Z /\
      current_question n (_get_segment state) = Some (mkQuestion slot t) /\
      incl (answered n)
           (slot_of (working_progress state) :: answered (working_progress state))
    end.
Proof.
  intros Ht. unfold script_qna_node. rewrite (on_topic_flag _ Ht).
  fold (working_progress state). cbv zeta.
  set (p := working_progress state). set (seg := _get_segment state).
  destruct (validb p) eqn:Hv.
  - destruct (current_question_valid p seg Hv) as (t0 & Hq). rewrite Hq. cbn [q_id q_text].
    match goal with |- context [if ?b then _ else _] => destruct b eqn:Hans end.
    + apply (answering_true state p (mkQuestion (slot_of p) t0)) in Hans.
      cbn [q_id] in Hans. rewrite Hans.
      match goal with |- context [choose_next_progress ?m0 _] => set (m := m0) end.
      assert (Hvm : validb m = true) by (subst m; rewrite marked_valid; exact Hv).
      assert (Hrm : rank m = rank p) by (subst m; apply marked_rank).
      assert (Him : incl (answered m) (slot_of p :: answered p)).
      { subst m. cbn [answered]. intros x Hx. apply add_answered_In in Hx.
        destruct Hx as [Hx| ->]; [now right|now left]. }
      match goal with |- context [choose_next_progress m ?tx] =>
        pose proof (choose_valid U m tx Hvm) as Hc;
        destruct (choose_next_progress m tx) as [[n|]|e]
      end; cbn [bind]; [| |destruct Hc].
      * destruct Hc as (Hvn & Hlt & Ha).
        destruct (current_question_valid n seg Hvn) as (t & Hqn). rewrite Hqn.
        cbn [q_id q_text].
        do 2 eexists. split; [reflexivity|]. cbv beta iota. rewrite Ha.
           repeat split; auto. lia.
      * pose proof (next_progress_valid m Hvm) as Hn.
        destruct (next_progress m) as [[n|]|e]; cbn [bind]; [| |destruct Hn].
        -- destruct Hn as (Hvn & Hlt & Ha).
           destruct (current_question_valid n seg Hvn) as (t & Hqn). rewrite Hqn.
           cbn [q_id q_text].
           do 2 eexists. split; [reflexivity|]. cbv beta iota. rewrite Ha.
           repeat split; auto. lia.
        -- destruct (current_question_valid m seg Hvm) as (t & Hqm). rewrite Hqm.
           cbn [q_id q_text].
           do 2 eexists. split; [reflexivity|]. repeat split; auto. lia.
    + do 2 eexists. split; [reflexivity|]. repeat split; auto; [lia|].
      intros x Hx. now right.
  - rewrite (validb_false p seg Hv).
    destruct (truthy (param_last_slot state)); do 2 eexists; (split; [reflexivity|cbn; auto]).
Qed.

Lemma node_total (U : Unicode) (state : GraphState) :
  exists r, script_qna_node state = Ok r.
Proof.
  destruct (domain_isOnTopic state) as [[|]|] eqn:Ht.
  2: { eexists. unfold script_qna_node. rewrite Ht. reflexivity. }
  all: destruct (node_on_topic U state) as (out & kept & He & _);
    [rewrite Ht; discriminate|eauto].
Qed.


Lemma choose_unknown (U : Unicode) (p : Progress) (text : pystr) :
  ~ In (section p) flow -> choose_next_progress p text = Raise KeyError.
Proof.
  intros H. unfold choose_next_progress. rewrite (section_order_none _ H).
  now apply next_progress_unknown.
Qed.

Lemma choose_ok (U : Unicode) (p : Progress) (text : pystr) :
  In (section p) flow -> exists r, choose_next_progress p text = Ok r.
Proof.
  intros H. destruct (choose_cases U p text) as [->|(top & i & _ & ->)]; [|eauto].
  now apply next_progress_ok.
Qed.


Lemma slot_rank (p : Progress) :
  validb p = true -> slot_of p = nth (Z.to_nat (rank p)) ALL_SLOTS EmptyString.
Proof.
  intros Hv. apply validb_spec in Hv. destruct Hv as (order & Ho & Hi).
  destruct p as [sec idx ans]. cbn [section index] in *.
  unfold slot_of, section_slots, rank. cbn [section index]. rewrite Ho.
  replace idx with (Z.of_nat (Z.to_nat idx)) by lia.
  set (i := Z.to_nat idx) in *.
  assert (Hl : i < List.length order) by lia. clearbody i. clear Hi.
  destruct (offsets _ _ Ho) as [(-> & -> & ->)|[(-> & -> & ->)|[(-> & -> & ->)|(-> & -> & ->)]]];
    clear Ho; cbv [A_ORDER B_ORDER C_ORDER D_ORDER List.length] in Hl;
    cbn [Nat.ltb] in Hl;
    repeat (first [exfalso; lia | destruct i as [|i]; [reflexivity|]]).
Qed.

Lemma rank_bound (p : Progress) : validb p = true -> (0 <= rank p <= 25)%Z.
Proof.
  intros Hv. apply validb_spec in Hv. destruct Hv as (order & Ho & Hi).
  unfold rank.
  destruct (offsets _ _ Ho) as [(_ & -> & ->)|[(_ & -> & ->)|[(_ & -> & ->)|(_ & -> & ->)]]];
    cbv [A_ORDER B_ORDER C_ORDER D_ORDER List.length] in Hi; lia.
Qed.

(** X2. On a valid progress the linear step moves to the very next
    slot of the catalogue, crossing from one section into the next, and
    keeps the answered set; it gives [None] exactly on the last slot. *)
Theorem X2_next_progress_walks_the_catalogue (p : Progress) :
  validb p = true ->
  slot_of p = nth (Z.to_nat (rank p)) ALL_SLOTS EmptyString /\
  match next_progress p with
  | Ok (Some n) =>
    validb n = true /\ rank n = (rank p + 1)%Z /\ answered n = answered p /\
    (rank p < 25)%Z
  | Ok None => rank p = 25%Z
  | Raise _ => False
  end.
Proof.
  intros Hv. split; [now apply slot_rank|].
  pose proof (next_progress_valid p Hv) as Hn.
  destruct (next_progress p) as [[n|]|e]; try exact Hn.
  destruct Hn as (H1 & H2 & H3). pose proof (rank_bound n H1).
  repeat split; auto. lia.
Qed.

Lemma X2_witness :
  slot_of (mkProgress "B" 4 []) = nth (Z.to_nat (rank (mkProgress "B" 4 []))) ALL_SLOTS EmptyString /\
  match next_progress (mkProgress "B" 4 []) with
  | Ok (Some n) =>
    validb n = true /\ rank n = (rank (mkProgress "B" 4 []) + 1)%Z /\
    answered n = answered (mkProgress "B" 4 []) /\
    (rank (mkProgress "B" 4 []) < 25)%Z
  | Ok None => rank (mkProgress "B" 4 []) = 25%Z
  | Raise _ => False
  end.
Proof. apply (X2_next_progress_walks_the_catalogue (mkProgress "B" 4 [])). reflexivity. Defined.

Lemma answering_false (state : GraphState) (p : Progress) (q : Question) :
  q_id q = slot_of p ->
  strip (_last_user_text (turns state)) = [] \/ param_last_slot state <> Some (slot_of p) ->
  match truthy (param_last_slot state), Some q, strip (_last_user_text (turns state)) with
  | Some a, Some q, _ :: _ => String.eqb a (q_id q)
  | _, _, _ => false
  end = false.
Proof.
  intros Hq [Hb|Hs].
  - rewrite Hb. destruct (truthy (param_last_slot state)); reflexivity.
  - destruct (param_last_slot state) as [a|]; [|reflexivity].
    destruct (strip _); [destruct (truthy (Some a)); reflexivity|].
    destruct a as [|c a]; [reflexivity|]. cbn [truthy]. rewrite Hq.
    apply String.eqb_neq. congruence.
Qed.

(** X4. A turn that does not answer the question asked, because its
    text is blank or because the resubmitted slot id is not the slot
    the progress points at, changes nothing: the node asks the same
    slot again and returns the progress, with its answered set, as it
    received it. *)
Theorem X4_unanswered_turn_repeats_the_question
    (U : Unicode) (state : GraphState) (p : Progress) :
  domain_isOnTopic state <> Some false ->
  param_script_progress state = Some p ->
  validb p = true ->
  strip (_last_user_text (turns state)) = [] \/ param_last_slot state <> Some (slot_of p) ->
  exists t,
    current_question p (_get_segment state) = Some (mkQuestion (slot_of p) t) /\
    script_qna_node state = Ok (Ask t (slot_of p) (section p) p, Some p).
Proof.
  intros Ht Hp Hv Hno.
  destruct (current_question_valid p (_get_segment state) Hv) as (t & Hq).
  exists t. split; [exact Hq|].
  unfold script_qna_node. rewrite (on_topic_flag _ Ht), Hp. cbv zeta. rewrite Hq.
  rewrite (answering_false state p (mkQuestion (slot_of p) t) eq_refl Hno).
  reflexivity.
Qed.

Lemma X4_witness :
  exists t,
    current_question first_progress (_get_segment blank_answer_state)
    = Some (mkQuestion (slot_of first_progress) t) /\
    script_qna_node blank_answer_state
    = Ok (Ask t (slot_of first_progress) (section first_progress) first_progress,
          Some first_progress).
Proof.
  apply (X4_unanswered_turn_repeats_the_question plain_unicode blank_answer_state
           first_progress).
  - discriminate.
  - reflexivity.
  - reflexivity.
  - left. reflexivity.
Defined.

(** X5. A turn that answers the question asked, with a text that is
    not blank, marks exactly that slot as answered, in the caller's
    progress and in the progress of the question asked next, and loses
    none of the earlier ones.  The next question is strictly later in
    the catalogue unless the slot answered is the last one, [D10_trust],
    which is then asked again. *)
Theorem X5_answered_turn_marks_the_slot
    (U : Unicode) (state : GraphState) (p : Progress) :
  domain_isOnTopic state <> Some false ->
  param_script_progress state = Some p ->
  validb p = true ->
  param_last_slot state = Some (slot_of p) ->
  strip (_last_user_text (turns state)) <> [] ->
  exists t n m,
    script_qna_node state = Ok (Ask t (slot_of n) (section n) n, Some m) /\
    section m = section p /\ index m = index p /\
    (forall x, In x (answered m) <-> In x (answered p) \/ x = slot_of p) /\
    NoDup (answered m) /\
    answered n = answered m /\ validb n = true /\
    ((rank p < 25)%Z -> (rank p < rank n)%Z) /\
    (rank p = 25%Z -> n = m).
Proof.
  intros Ht Hp Hv Hslot Htext.
  destruct (current_question_valid p (_get_segment state) Hv) as (t0 & Hq).
  pose proof (slot_of_nonempty p Hv) as Hne.
  unfold script_qna_node. rewrite (on_topic_flag _ Ht), Hp, Hslot. cbv zeta.
  replace (truthy (Some (slot_of p))) with (Some (slot_of p))
    by (unfold truthy; destruct (slot_of p); congruence).
  set (seg := _get_segment state). fold seg in Hq. rewrite Hq. cbn [q_id].
  destruct (strip (_last_user_text (turns state))) as [|c r] eqn:Hs; [congruence|].
  rewrite String.eqb_refl. fold (mark p).
  set (m := mark p).
  assert (Hvm : validb m = true) by exact Hv.
  assert (Hrm : rank m = rank p) by reflexivity.
  pose proof (rank_bound p Hv) as Hb.
  assert (Hm : section m = section p /\ index m = index p /\
               (forall x, In x (answered m) <-> In x (answered p) \/ x = slot_of p) /\
               NoDup (answered m)).
  { repeat split; [apply add_answered_In|apply add_answered_In|apply NoDup_nodup]. }
  destruct Hm as (Hm1 & Hm2 & Hm3 & Hm4).
  pose proof (choose_valid U m (c :: r) Hvm) as Hc.
  destruct (choose_next_progress m (c :: r)) as [[n|]|e]; cbn [bind]; [| |destruct Hc].
  - destruct Hc as (Hvn & Hlt & Ha).
    destruct (current_question_valid n seg Hvn) as (t & ->). cbn [q_id q_text].
    exists t, n, m. pose proof (rank_bound n Hvn). repeat split; auto; try apply Hm3; lia.
  - pose proof (next_progress_valid m Hvm) as Hn.
    destruct (next_progress m) as [[n|]|e]; cbn [bind]; [| |destruct Hn].
    + destruct Hn as (Hvn & Hlt & Ha). pose proof (rank_bound n Hvn). exfalso. lia.
    + destruct (current_question_valid m seg Hvm) as (t & ->). cbn [q_id q_text].
      exists t, m, m. repeat split; auto; try apply Hm3; lia.
Qed.

Lemma X5_witness :
  exists t n m,
    script_qna_node (answering_state (mkProgress "A" 3 []) (u "ok") None)
    = Ok (Ask t (slot_of n) (section n) n, Some m) /\
    section m = "A" /\ index m = 3%Z /\
    (forall x, In x (answered m) <-> In x [] \/ x = slot_of (mkProgress "A" 3 [])) /\
    NoDup (answered m) /\
    answered n = answered m /\ validb n = true /\
    ((rank (mkProgress "A" 3 []) < 25)%Z -> (rank (mkProgress "A" 3 []) < rank n)%Z) /\
    (rank (mkProgress "A" 3 []) = 25%Z -> n = m).
Proof.
  apply (X5_answered_turn_marks_the_slot plain_unicode
           (answering_state (mkProgress "A" 3 []) (u "ok") None) (mkProgress "A" 3 [])).
  - discriminate.
  - reflexivity.
  - reflexivity.
  - reflexivity.
  - discriminate.
Defined.

Ltac static_slot :=
  split; [vm_compute; reflexivity
         |split; [vm_compute; discriminate|intros _; vm_compute; reflexivity]].

Lemma valid_cases (p : Progress) :
  validb p = true ->
  exists i ans, i < 26 /\ slot_of p = nth i ALL_SLOTS EmptyString /\
                p = mkProgress (section p) (index p) ans /\
                In (section p) flow.
Proof.
  intros Hv. pose proof (slot_rank p Hv) as Hs. pose proof (rank_bound p Hv) as Hb.
  exists (Z.to_nat (rank p)), (answered p). split; [lia|]. split; [exact Hs|].
  split; [now destruct p|].
  apply validb_spec in Hv. destruct Hv as (order & Ho & _).
  eapply section_in_flow; eauto.
Qed.

(** The text of the current question is the one [_dyn_question]
    builds: the lookup in [QUESTIONS] that follows it is never used. *)
Lemma current_question_text (p : Progress) (segment : option string) :
  validb p = true ->
  current_question p segment
  = Some (mkQuestion (slot_of p) (_dyn_question (slot_of p) segment)).
Proof.
  intros Hv. apply validb_spec in Hv. destruct Hv as (order & Ho & Hi).
  destruct p as [sec idx ans]. cbn [section index] in *.
  replace idx with (Z.of_nat (Z.to_nat idx)) by lia.
  set (i := Z.to_nat idx) in *.
  assert (Hl : i < List.length order) by lia. clearbody i. clear Hi.
  destruct (offsets _ _ Ho) as [(-> & -> & _)|[(-> & -> & _)|[(-> & -> & _)|(-> & -> & _)]]];
    clear Ho; cbv [A_ORDER B_ORDER C_ORDER D_ORDER List.length] in Hl.
  - do 4 (destruct i as [|i]; [vm_compute; reflexivity|]). exfalso; lia.
  - do 5 (destruct i as [|i]; [vm_compute; reflexivity|]). exfalso; lia.
  - do 3 (destruct i as [|i]; [vm_compute; reflexivity|]).
    destruct i as [|i];
      [|do 3 (destruct i as [|i]; [vm_compute; reflexivity|]); exfalso; lia].
    change (slot_of {| section := "C"; index := Z.of_nat 3; answered := ans |})
      with "C4_market_size".
    unfold current_question, _dyn_question.
    cbn [section index dict_get SECTION_ORDER String.eqb Ascii.eqb Bool.eqb].
    destruct (app_nonempty
                (match SEG_LABEL segment with Some l => l | None => u "여행·레저" end)
                (u " 시장 규모와 최근 성장 추세에 대해 알고 있나요?")) as (c & r & E);
      [discriminate|].
    cbn [C_ORDER Z.of_nat Z.ltb Z.leb Z.compare orb Pos.of_succ_nat Pos.succ Z.to_nat
         Pos.to_nat Pos.iter_op Nat.add nth_error List.length].
    now rewrite E.
  - do 10 (destruct i as [|i]; [vm_compute; reflexivity|]). exfalso; lia.
Qed.

Lemma slot_in_catalogue (p : Progress) : validb p = true -> In (slot_of p) ALL_SLOTS.
Proof.
  intros Hv. destruct (valid_cases p Hv) as (i & ans & Hi & -> & _).
  apply nth_In. exact Hi.
Qed.

(** X6. Every slot of the catalogue has a question for every segment
    value, known or not: on a valid progress [current_question] gives
    the slot the progress points at with a text that is not empty.  The
    text is the one [_dyn_question] builds, and only the market-size
    slot depends on the segment. *)
Theorem X6_every_slot_has_a_question (p : Progress) (segment : option string) :
  validb p = true ->
  current_question p segment
  = Some (mkQuestion (slot_of p) (_dyn_question (slot_of p) segment)) /\
  _dyn_question (slot_of p) segment <> [] /\
  (slot_of p <> "C4_market_size" ->
   _dyn_question (slot_of p) segment = _dyn_question (slot_of p) None).
Proof.
  intros Hv. apply validb_spec in Hv. destruct Hv as (order & Ho & Hi).
  destruct p as [sec idx ans]. cbn [section index] in *.
  replace idx with (Z.of_nat (Z.to_nat idx)) by lia.
  set (i := Z.to_nat idx) in *.
  assert (Hl : i < List.length order) by lia. clearbody i. clear Hi.
  destruct (offsets _ _ Ho) as [(-> & -> & _)|[(-> & -> & _)|[(-> & -> & _)|(-> & -> & _)]]];
    clear Ho; cbv [A_ORDER B_ORDER C_ORDER D_ORDER List.length] in Hl.
  - do 4 (destruct i as [|i]; [static_slot|]). exfalso; lia.
  - do 5 (destruct i as [|i]; [static_slot|]). exfalso; lia.
  - do 3 (destruct i as [|i]; [static_slot|]).
    destruct i as [|i]; [|do 3 (destruct i as [|i]; [static_slot|]); exfalso; lia].
    (* the market-size slot *)
    change (slot_of {| section := "C"; index := Z.of_nat 3; answered := ans |})
      with "C4_market_size".
    unfold current_question, _dyn_question.
    cbn [section index dict_get SECTION_ORDER String.eqb Ascii.eqb Bool.eqb].
    destruct (app_nonempty
                (match SEG_LABEL segment with Some l => l | None => u "여행·레저" end)
                (u " 시장 규모와 최근 성장 추세에 대해 알고 있나요?")) as (c & r & E);
      [discriminate|].
    cbn [C_ORDER Z.of_nat Z.ltb Z.leb Z.compare orb Pos.of_succ_nat Pos.succ Z.to_nat
         Pos.to_nat Pos.iter_op Nat.add nth_error List.length].
    rewrite E. repeat split; [discriminate|congruence].
  - do 10 (destruct i as [|i]; [static_slot|]). exfalso; lia.
Qed.

Lemma X6_witness :
  current_question (mkProgress "C" 3 []) (Some "surfing")
  = Some (mkQuestion (slot_of (mkProgress "C" 3 []))
            (_dyn_question (slot_of (mkProgress "C" 3 [])) (Some "surfing"))) /\
  _dyn_question (slot_of (mkProgress "C" 3 [])) (Some "surfing") <> [] /\
  (slot_of (mkProgress "C" 3 []) <> "C4_market_size" ->
   _dyn_question (slot_of (mkProgress "C" 3 [])) (Some "surfing")
   = _dyn_question (slot_of (mkProgress "C" 3 [])) None).
Proof.
  apply (X6_every_slot_has_a_question (mkProgress "C" 3 []) (Some "surfing")).
  reflexivity.
Defined.

End ScriptExtra.

(** ** The Router: the score, the decision table and the classifier *)

Module RouterExtra.

Import Router RouterNodes RouterSpec RouterTable RouterProofs.
Local Open Scope string_scope.

Lemma router_mem_In (x : string) (l : list string) : Router.mem x l = true <-> In x l.
Proof.
  unfold Router.mem. rewrite existsb_exists. split.
  - intros (y & Hy & He). apply String.eqb_eq in He. now subst.
  - intros H. exists x. split; [assumption|apply String.eqb_refl].
Qed.

Lemma hits_bound (U : Unicode) (msg : pystr) : on_topic_hits msg <= 12.
Proof.
  unfold on_topic_hits.
  match goal with
  | |- context [List.length (List.filter ?f ?l)] =>
    pose proof (filter_length_le f l) as H; change (List.length l) with 11 in H
  end.
  destruct (existsb _ _); lia.
Qed.

(** X7. The on-topic score moves in steps of one fifth: it is the
    number of hits over five, capped at one.  At most twelve hits can
    be counted, the threshold of 0.28 is reached exactly from two hits
    on, and rounding to two decimals never changes the score. *)
Theorem X7_on_topic_score_steps (U : Unicode) (msg : pystr) :
  on_topic_hits msg <= 12 /\
  (on_topic_score msg ==
   if (on_topic_hits msg <? 5)%nat then Z.of_nat (on_topic_hits msg) # 5 else 1)%Q /\
  Qle_bool ON_TOPIC_THRESHOLD (on_topic_score msg) = (2 <=? on_topic_hits msg)%nat /\
  (round2 (on_topic_score msg) == on_topic_score msg)%Q.
Proof.
  pose proof (hits_bound U msg) as Hb. split; [exact Hb|].
  unfold on_topic_score. set (h := on_topic_hits msg) in *. clearbody h.
  do 13 (destruct h as [|h]; [vm_compute; repeat split; reflexivity|]).
  exfalso. lia.
Qed.

(** X8. The decision table of [domain_detect_node].  A turn with an
    explicit routing label is passed through.  Otherwise the step is
    [script_qna] and the decision is one of six rows, selected by the
    relevance flag, the segment parameter, the keyword rule, the remote
    classifier and the on-topic score, in this order of precedence; each
    row fixes the segment, the provenance tag, the confidence and the
    on-topic flag. *)
Theorem X8_domain_decision_table
    (U : Unicode) (zero_shot : pystr -> pystr -> option string) (state : GraphState) :
  match domain_detect_node zero_shot state with
  | (Explicit s, st) => In (step state) INTENTS /\ s = step state /\ st = step state
  | (Decision d, st) =>
    ~ In (step state) INTENTS /\ st = "script_qna" /\
    intent d = "script_qna" /\ domain d = "travel" /\ subdomain d = segment d /\
    ((related state = false /\ d = unrelated_decision) \/
     (related state = true /\
      onTopicScore d = round2 (on_topic_score (message state)) /\
      ((exists s, in_segments (param_segment state) = Some s /\
                  row d (Some s) "param" (95 # 100) true) \/
       (in_segments (param_segment state) = None /\
        ((exists s, rule_segment (message state) = Some s /\
                    row d (Some s) "rule" (90 # 100) true) \/
         (rule_segment (message state) = None /\
          ((exists z, param_allow_zero_shot state = true /\
                      in_segments (zero_shot (message state) (history state)) = Some z /\
                      row d (Some z) "zero-shot" (65 # 100) true) \/
           ((param_allow_zero_shot state = false \/
             in_segments (zero_shot (message state) (history state)) = None) /\
            ((Qle_bool ON_TOPIC_THRESHOLD (on_topic_score (message state)) = true /\
              row d None "default" (50 # 100) true) \/
             (Qle_bool ON_TOPIC_THRESHOLD (on_topic_score (message state)) = false /\
              row d None "unrelated" (30 # 100) false))))))))))
  end.
Proof.
  unfold domain_detect_node, row.
  fold (message state) (history state) (related state).
  destruct (Router.mem (step state) INTENTS) eqn:Hm.
  - apply router_mem_In in Hm. auto.
  - assert (Hn : ~ In (step state) INTENTS)
      by (intros Hin; apply router_mem_In in Hin; congruence).
    set (score := on_topic_score (message state)).
    set (rs := rule_segment (message state)).
    set (zs := in_segments (zero_shot (message state) (history state))).
    destruct (related state); cbn [negb]; [|repeat split; auto].
    destruct (in_segments (param_segment state)) as [s|].
    { cbn beta iota zeta. rewrite orb_true_r. cbn [negb].
      repeat split; auto. right. repeat split. left. exists s. repeat split. }
    destruct rs as [s|].
    { cbn beta iota zeta. rewrite orb_true_r. cbn [negb].
      repeat split; auto. right. repeat split. right. split; [reflexivity|].
      left. exists s. repeat split. }
    destruct (param_allow_zero_shot state) eqn:Haz; [destruct zs as [z|] eqn:Hz|].
    { cbn beta iota zeta. rewrite orb_true_r. cbn [negb].
      repeat split; auto. right. repeat split. right. split; [reflexivity|].
      right. split; [reflexivity|]. left. exists z. repeat split; auto. }
    all: cbn beta iota zeta; rewrite orb_false_r;
      destruct (Qle_bool ON_TOPIC_THRESHOLD score) eqn:Hs; cbn [negb];
      (split; [exact Hn|]); do 4 (split; [reflexivity|]);
      right; do 2 (split; [reflexivity|]);
      right; (split; [reflexivity|]); right; (split; [reflexivity|]);
      right; (split; [auto|]).
    all: first [left; repeat split; reflexivity | right; repeat split; reflexivity].
Qed.

Lemma strip_length_le (s : pystr) : List.length (strip s) <= List.length s.
Proof.
  unfold strip.
  assert (Hl : forall t, List.length (lstrip t) <= List.length t).
  { induction t as [|c t IH]; simpl; [lia|]. destruct (isspace c); simpl; lia. }
  assert (Hr : forall t, List.length (rstrip t) <= List.length t).
  { induction t as [|c t IH]; simpl; [lia|].
    destruct (rstrip t); [destruct (isspace c)|]; simpl in *; lia. }
  specialize (Hl s). specialize (Hr (lstrip s)). lia.
Qed.

(** X9. A message that fails the relevance check is not routed.  When
    the last user message has fewer than two characters, or holds no
    ASCII letter, digit or Hangul syllable, the relevance node marks it
    unrelated and the router answers with the fixed unrelated decision:
    the segment parameter, the keywords and the remote classifier are
    not consulted. *)
Theorem X9_unrelated_message_is_not_routed
    (U : Unicode) (zero_shot : pystr -> pystr -> option string) (state : GraphState) :
  ~ In (step state) INTENTS ->
  List.length (message state) < 2 \/
  Forall (fun c => is_alnum_hangul c = false) (message state) ->
  relevance_related (relevance_check_node state) = Some false /\
  domain_detect_node zero_shot (relevance_check_node state)
  = (Decision unrelated_decision, "script_qna").
Proof.
  intros Hn Hmsg.
  assert (Hu : is_unrelated (message state) = true).
  { unfold is_unrelated, UNRELATED_MIN_LEN.
    destruct Hmsg as [Hlen|Hall].
    - pose proof (strip_length_le (message state)).
      destruct (Nat.ltb_spec (List.length (strip (message state))) 2); [reflexivity|lia].
    - destruct (_ <? _)%nat; [reflexivity|].
      replace (existsb is_alnum_hangul (message state)) with false; [reflexivity|].
      symmetry. apply not_true_is_false. intros He.
      apply existsb_exists in He. destruct He as (c & Hc & Hcl).
      rewrite Forall_forall in Hall. rewrite (Hall c Hc) in Hcl. discriminate. }
  unfold relevance_check_node. cbv zeta. fold (message state). rewrite Hu.
  split; [reflexivity|].
  unfold domain_detect_node. cbn [step relevance_related negb].
  destruct (Router.mem (step state) INTENTS) eqn:Hm; [|reflexivity].
  apply router_mem_In in Hm. contradiction.
Qed.

Lemma X9_witness :
  relevance_related (relevance_check_node override_state) = Some false /\
  domain_detect_node no_classifier (relevance_check_node override_state)
  = (Decision unrelated_decision, "script_qna").
Proof.
  apply (X9_unrelated_message_is_not_routed plain_unicode no_classifier override_state).
  - simpl. intuition discriminate.
  - left. vm_compute. lia.
Defined.

Lemma zero_shot_none (U : Unicode) (awaited : res pystr)
    (read_segment : pystr -> res (option pystr)) (msg hist : pystr) :
  classify_segment_zero_shot awaited read_segment msg hist = None.
Proof. reflexivity. Qed.

(** X10. The remote classifier never answers.  [ask_llm] takes the
    parameters [messages], [scope] and [use_cache]; the call in
    [classify_segment_zero_shot] passes [prompt], [system],
    [temperature] and [max_tokens], so binding the arguments raises
    [TypeError] inside the [try] and the function returns [None],
    whatever the model would reply.  The router therefore decides as
    if [allow_zero_shot] were off, and never reports a decision taken
    by the classifier. *)
Theorem X10_zero_shot_never_answers
    (U : Unicode) (awaited : res pystr) (read_segment : pystr -> res (option pystr))
    (state : GraphState) :
  PyCall.bind_keywords LlmSig.ask_llm_params
    ["prompt"; "system"; "temperature"; "max_tokens"] = Raise TypeError /\
  (forall msg hist, classify_segment_zero_shot awaited read_segment msg hist = None) /\
  domain_detect_node (classify_segment_zero_shot awaited read_segment) state
  = domain_detect_node no_classifier
      (Router.mkState (step state) (turns state) (param_segment state) false
         (relevance_related state)) /\
  match domain_detect_node (classify_segment_zero_shot awaited read_segment) state with
  | (Decision d, _) => via d <> Some "zero-shot"
  | (Explicit _, _) => True
  end.
Proof.
  split; [reflexivity|]. split; [intros; apply zero_shot_none|].
  assert (He : domain_detect_node (classify_segment_zero_shot awaited read_segment) state
               = domain_detect_node no_classifier
                   (Router.mkState (step state) (turns state) (param_segment state) false
                      (relevance_related state))).
  { unfold domain_detect_node.
    cbn [step turns param_segment param_allow_zero_shot relevance_related].
    rewrite zero_shot_none. unfold no_classifier. cbn [in_segments].
    destruct (param_allow_zero_shot state); reflexivity. }
  split; [exact He|]. rewrite He. unfold domain_detect_node.
  cbn [step turns param_segment param_allow_zero_shot relevance_related].
  destruct (Router.mem (step state) INTENTS); [exact I|].
  destruct (negb _); [discriminate|].
  destruct (in_segments (param_segment state)) as [s|];
    [|destruct (rule_segment _) as [s|]];
    cbn beta iota zeta; rewrite ?orb_true_r, ?orb_false_r;
    try destruct (Qle_bool ON_TOPIC_THRESHOLD _); cbn [negb via]; discriminate.
Qed.

End RouterExtra.

(** ** The Length Governor: contracts of the caps *)

Module LengthExtra.

Import Regex LengthControl LengthSpec LengthBounds.
Import CountProofs FenceProofs MatchProofs CutProofs CapBound ShapeProofs TrimProofs.
Local Open Scope string_scope.

Lemma closers_spec (s : pystr) : _balance_fences s = (s ++ closers s)%list.
Proof. rewrite balance_spec. unfold closers. now rewrite app_assoc. Qed.

Lemma closers_length (s : pystr) : List.length (closers s) <= 8.
Proof.
  unfold closers.
  destruct (Nat.odd (count _FENCE_TRIPLE s)), (Nat.odd (count _FENCE_TILDES s));
    simpl; lia.
Qed.

Lemma enforce_short (text : pystr) (max_chars : Z) (is_code : bool) :
  (Z.of_nat (List.length text) <= max_chars)%Z ->
  enforce_char_cap text max_chars is_code = _balance_fences text.
Proof.
  intros H. unfold enforce_char_cap.
  destruct (Z.leb_spec (Z.of_nat (List.length text)) max_chars); [reflexivity|lia].
Qed.

(** X11. The contract of the char cap, for a positive cap.  The result
    never has an unclosed fence.  A text longer than the cap comes back
    with at most cap + 1 characters, the one extra being the ellipsis,
    and with at most cap characters in code mode.  A text within the
    cap comes back whole, followed by the closing lines of the fences
    it left open, which add at most 8 characters. *)
Theorem X11_char_cap_contract (text : pystr) (max_chars : Z) (is_code : bool) :
  (1 <= max_chars)%Z ->
  fences_even (enforce_char_cap text max_chars is_code) /\
  ((max_chars < Z.of_nat (List.length text))%Z ->
   (Z.of_nat (List.length (enforce_char_cap text max_chars is_code))
    <= max_chars + (if is_code then 0 else 1))%Z) /\
  ((Z.of_nat (List.length text) <= max_chars)%Z ->
   enforce_char_cap text max_chars is_code = (text ++ closers text)%list /\
   List.length (closers text) <= 8 /\
   (fences_even text -> enforce_char_cap text max_chars is_code = text)).
Proof.
  intros H1. split; [apply enforce_char_cap_balanced|]. split.
  - intros H2. destruct (cap_as_nat text max_chars H1 H2) as (n & -> & Hn1 & Hn2).
    destruct is_code.
    + pose proof (enforce_code_length text n Hn1 Hn2). lia.
    + pose proof (enforce_char_cap_length text (Z.of_nat n) false H1 H2). lia.
  - intros H2. rewrite (enforce_short text max_chars is_code H2).
    split; [apply closers_spec|]. split; [apply closers_length|].
    intros He. now apply balance_id.
Qed.

Lemma X11_witness :
  fences_even (enforce_char_cap (u "Hello. World and more") 10 false) /\
  ((10 < Z.of_nat (List.length (u "Hello. World and more")))%Z ->
   (Z.of_nat (List.length (enforce_char_cap (u "Hello. World and more") 10 false))
    <= 10 + (if false then 0 else 1))%Z) /\
  ((Z.of_nat (List.length (u "Hello. World and more")) <= 10)%Z ->
   enforce_char_cap (u "Hello. World and more") 10 false
   = (u "Hello. World and more" ++ closers (u "Hello. World and more"))%list /\
   List.length (closers (u "Hello. World and more")) <= 8 /\
   (fences_even (u "Hello. World and more") ->
    enforce_char_cap (u "Hello. World and more") 10 false = u "Hello. World and more")).
Proof. apply (X11_char_cap_contract (u "Hello. World and more") 10 false). lia. Defined.

(** X12. In code mode the cut never lands inside a fenced block.  For
    a text longer than a positive cap the result is a prefix of the
    text with its trailing whitespace removed: the prefix has at least
    one and at most cap characters, its end is not inside a code
    block, and neither a closing fence nor an ellipsis is appended. *)
Theorem X12_code_cut_outside_fences (text : pystr) (n : nat) :
  1 <= n -> n < List.length text ->
  exists k,
    1 <= k <= n /\
    enforce_char_cap text (Z.of_nat n) true = rstrip (firstn k text) /\
    _inside_code_block text k = false.
Proof.
  intros H1 H2. exists (Nat.max 1 (retreat text n)).
  pose proof (retreat_le text n) as Hle.
  split; [lia|]. split; [now apply enforce_code_long|].
  apply inside_false.
  destruct (Nat.eq_dec (retreat text n) 0) as [Hz|Hz].
  - rewrite Hz. cbn [Nat.max]. apply short_fences_even. rewrite length_firstn. lia.
  - replace (Nat.max 1 (retreat text n)) with (retreat text n) by lia.
    apply retreat_even.
Qed.

Lemma X12_witness :
  exists k,
    1 <= k <= 6 /\
    enforce_char_cap (u "ab ```cd efg") (Z.of_nat 6) true
    = rstrip (firstn k (u "ab ```cd efg")) /\
    _inside_code_block (u "ab ```cd efg") k = false.
Proof.
  apply (X12_code_cut_outside_fences (u "ab ```cd efg") 6); vm_compute; lia.
Defined.

(** X13. In text mode the cut can land inside a fenced block only
    through the link backoff.  For a text longer than a positive cap,
    if the backoff leaves the fence-free cut where it is, which it does
    whenever none of the link tokens occurs in the six characters
    before it, then both fence counts before the final cut point are
    even and the result is the cut text followed by the ellipsis alone. *)
Theorem X13_cut_outside_fences_without_backoff (text : pystr) (n : nat) :
  1 <= n -> n < List.length text ->
  _backoff_link_boundary text (fence_free_cut text n) = fence_free_cut text n ->
  fences_even (firstn (cut_point text (Z.of_nat n)) text) /\
  enforce_char_cap text (Z.of_nat n) false
  = (rstrip (firstn (cut_point text (Z.of_nat n)) text) ++ ELLIPSIS)%list.
Proof.
  intros H1 H2 Hb. unfold fence_free_cut in Hb.
  pose proof (cut_point_eq text n H1 H2) as Hc. rewrite Hb in Hc.
  pose proof (c1_le text n) as Hle.
  pose proof (stage_cut_le (firstn n text)) as Hs. rewrite length_firstn in Hs.
  assert (He : fences_even (firstn (cut_point text (Z.of_nat n)) text)).
  { rewrite Hc.
    destruct (Nat.eq_dec (retreat text (stage_cut (firstn n text))) 0) as [Hz|Hz].
    - rewrite Hz. apply short_fences_even. rewrite length_firstn. lia.
    - replace (Nat.max 1 (Nat.min (retreat text (stage_cut (firstn n text))) n))
        with (retreat text (stage_cut (firstn n text))) by lia.
      apply retreat_even. }
  split; [exact He|].
  unfold enforce_char_cap.
  destruct (Z.leb_spec (Z.of_nat (List.length text)) (Z.of_nat n)); [lia|].
  rewrite (soft_cut_long text n true H2). cbv zeta.
  rewrite balance_id; [reflexivity|]. now apply fences_even_rstrip.
Qed.

Lemma X13_witness :
  fences_even (firstn (cut_point (u "```a b``` tail") (Z.of_nat 12)) (u "```a b``` tail")) /\
  enforce_char_cap (u "```a b``` tail") (Z.of_nat 12) false
  = (rstrip (firstn (cut_point (u "```a b``` tail") (Z.of_nat 12)) (u "```a b``` tail"))
     ++ ELLIPSIS)%list.
Proof.
  apply (X13_cut_outside_fences_without_backoff (u "```a b``` tail") 12).
  - lia.
  - vm_compute. lia.
  - vm_compute. reflexivity.
Defined.

(** X14. The char cap reaches a fixed point.  For a positive cap the
    result of a second application is never changed by a third; and
    for a text that is longer than the cap, or has no unclosed fence,
    the first result is already fixed. *)
Theorem X14_char_cap_fixed_point (text : pystr) (max_chars : Z) (is_code : bool) :
  (1 <= max_chars)%Z ->
  enforce_char_cap
    (enforce_char_cap (enforce_char_cap text max_chars is_code) max_chars is_code)
    max_chars is_code
  = enforce_char_cap (enforce_char_cap text max_chars is_code) max_chars is_code /\
  ((max_chars < Z.of_nat (List.length text))%Z \/ fences_even text ->
   enforce_char_cap (enforce_char_cap text max_chars is_code) max_chars is_code
   = enforce_char_cap text max_chars is_code).
Proof.
  intros H1. split.
  - apply enforce_char_cap_stable; [exact H1|]. right. apply enforce_char_cap_balanced.
  - intros Hor. now apply enforce_char_cap_stable.
Qed.

Lemma X14_witness :
  enforce_char_cap
    (enforce_char_cap (enforce_char_cap (u "```abc") 6 false) 6 false) 6 false
  = enforce_char_cap (enforce_char_cap (u "```abc") 6 false) 6 false /\
  ((6 < Z.of_nat (List.length (u "```abc")))%Z \/ fences_even (u "```abc") ->
   enforce_char_cap (enforce_char_cap (u "```abc") 6 false) 6 false
   = enforce_char_cap (u "```abc") 6 false).
Proof. apply (X14_char_cap_fixed_point (u "```abc") 6 false). lia. Defined.

(** *** The whitespace fallback of the tokenizer *)

Lemma split_from_word (w cur rest : pystr) :
  Forall (fun c => isspace c = false) w ->
  split_from cur (w ++ rest)%list = split_from (rev w ++ cur)%list rest.
Proof.
  intros Hw. revert cur. induction Hw as [|c w Hc Hw IH]; intros cur; [reflexivity|].
  cbn [app split_from]. rewrite Hc, IH. cbn [rev]. now rewrite <- app_assoc.
Qed.

Lemma rev_cons_nonempty {A} (x : A) (l : list A) : rev (x :: l) <> [].
Proof.
  intros H. apply (f_equal (@List.length A)) in H. rewrite length_rev in H. discriminate.
Qed.

Lemma split_from_words (s cur : pystr) :
  Forall (fun c => isspace c = false) cur -> Forall word (split_from cur s).
Proof.
  revert cur. induction s as [|c s IH]; intros cur Hcur; cbn [split_from].
  - destruct cur as [|x cur]; constructor; [|constructor].
    split; [apply rev_cons_nonempty|]. now apply Forall_rev.
  - destruct (isspace c) eqn:Hc.
    + destruct cur as [|x cur]; [apply IH; constructor|].
      constructor; [|apply IH; constructor].
      split; [apply rev_cons_nonempty|]. now apply Forall_rev.
    + apply IH. now constructor.
Qed.

Lemma split_words (s : pystr) : Forall word (split s).
Proof. apply split_from_words. constructor. Qed.

Lemma split_join (ws : list pystr) : Forall word ws -> split (join [32%N] ws) = ws.
Proof.
  induction 1 as [|w ws [Hne Hw] Hws IH]; [reflexivity|].
  assert (Hrev : exists x r, rev w = x :: r).
  { destruct (rev w) as [|x r] eqn:E; [|eauto].
    apply (f_equal (@rev N)) in E. rewrite rev_involutive in E. contradiction. }
  destruct Hrev as (x & r & Hr).
  unfold split in *. destruct ws as [|w2 ws].
  - cbn [join]. rewrite <- (app_nil_r w) at 1.
    rewrite (split_from_word w [] [] Hw), app_nil_r, Hr. cbn [split_from].
    now rewrite <- Hr, rev_involutive.
  - change (join [32%N] (w :: w2 :: ws))
      with (w ++ 32%N :: join [32%N] (w2 :: ws))%list.
    rewrite (split_from_word w [] _ Hw), app_nil_r, Hr.
    cbn [split_from]. change (isspace 32) with true. cbv iota.
    rewrite IH. now rewrite <- Hr, rev_involutive.
Qed.

Lemma fallback_cap (R : Runtime) (text : pystr) (mt : Z) :
  (1 <= mt)%Z ->
  enforce_token_cap text (Some mt) (Some fallback) =
  if (Z.of_nat (List.length (split text)) <=? mt)%Z then text
  else join [32%N] (firstn (Z.to_nat mt) (split text)).
Proof.
  intros Hm. unfold enforce_token_cap, fallback, encode, decode. cbn [_enc ids_length ids_firstn].
  destruct (Z.leb_spec mt 0); [lia|].
  destruct (Z.leb_spec (Z.of_nat (List.length (split text))) mt); [reflexivity|].
  destruct (firstn (Z.to_nat mt) (split text)); reflexivity.
Qed.

(** X15. Without an exact encoder the token cap counts whitespace
    separated words and keeps the first ones.  For a positive cap the
    words of the result are exactly the first [max_tokens] words of the
    text; a text within the cap is returned as it is, a longer one as
    its first words joined by single spaces; and capping the result
    again changes nothing. *)
Theorem X15_fallback_token_cap_keeps_the_first_words
    (R : Runtime) (text : pystr) (mt : Z) :
  (1 <= mt)%Z ->
  split (enforce_token_cap text (Some mt) (Some fallback))
  = firstn (Z.to_nat mt) (split text) /\
  ((Z.of_nat (List.length (split text)) <= mt)%Z ->
   enforce_token_cap text (Some mt) (Some fallback) = text) /\
  ((mt < Z.of_nat (List.length (split text)))%Z ->
   enforce_token_cap text (Some mt) (Some fallback)
   = join [32%N] (firstn (Z.to_nat mt) (split text))) /\
  enforce_token_cap (enforce_token_cap text (Some mt) (Some fallback))
    (Some mt) (Some fallback)
  = enforce_token_cap text (Some mt) (Some fallback).
Proof.
  intros Hm. rewrite (fallback_cap R text mt Hm).
  destruct (Z.leb_spec (Z.of_nat (List.length (split text))) mt) as [Hle|Hgt].
  - repeat split.
    + now rewrite firstn_all2 by lia.
    + intros; lia.
    + rewrite (fallback_cap R text mt Hm).
      destruct (Z.leb_spec (Z.of_nat (List.length (split text))) mt); [reflexivity|lia].
  - assert (Hs : split (join [32%N] (firstn (Z.to_nat mt) (split text)))
                 = firstn (Z.to_nat mt) (split text))
      by (apply split_join, Forall_firstn, split_words).
    repeat split; [exact Hs|intros; lia|].
    rewrite (fallback_cap R _ mt Hm), Hs, length_firstn.
    destruct (Z.leb_spec (Z.of_nat (Nat.min (Z.to_nat mt) (List.length (split text)))) mt);
      [reflexivity|lia].
Qed.

Lemma X15_witness :
  split (enforce_token_cap (u "one  two" ++ [10%N] ++ u "three four")%list (Some 3%Z) (Some fallback))
  = firstn (Z.to_nat 3) (split (u "one  two" ++ [10%N] ++ u "three four")%list) /\
  ((Z.of_nat (List.length (split (u "one  two" ++ [10%N] ++ u "three four")%list)) <= 3)%Z ->
   enforce_token_cap (u "one  two" ++ [10%N] ++ u "three four")%list (Some 3%Z) (Some fallback)
   = (u "one  two" ++ [10%N] ++ u "three four")%list) /\
  ((3 < Z.of_nat (List.length (split (u "one  two" ++ [10%N] ++ u "three four")%list)))%Z ->
   enforce_token_cap (u "one  two" ++ [10%N] ++ u "three four")%list (Some 3%Z) (Some fallback)
   = join [32%N] (firstn (Z.to_nat 3) (split (u "one  two" ++ [10%N] ++ u "three four")%list))) /\
  enforce_token_cap
    (enforce_token_cap (u "one  two" ++ [10%N] ++ u "three four")%list (Some 3%Z) (Some fallback))
    (Some 3%Z) (Some fallback)
  = enforce_token_cap (u "one  two" ++ [10%N] ++ u "three four")%list (Some 3%Z) (Some fallback).
Proof.
  apply (X15_fallback_token_cap_keeps_the_first_words plain_runtime
           (u "one  two" ++ [10%N] ++ u "three four")%list 3).
  lia.
Defined.

(** *** Bullets *)

Lemma char_cap_bound8 (s : pystr) (cap : Z) (is_code : bool) :
  (1 <= cap)%Z ->
  (Z.of_nat (List.length (enforce_char_cap s cap is_code)) <= cap + 8)%Z.
Proof.
  intros H1. destruct (Z.leb_spec (Z.of_nat (List.length s)) cap) as [Hle|Hgt].
  - rewrite (enforce_short s cap is_code Hle), closers_spec, length_app.
    pose proof (closers_length s). lia.
  - pose proof (enforce_char_cap_length s cap is_code H1 Hgt). lia.
Qed.

Lemma bullets_without_tail (lst : list pystr) (each cnt : Z) :
  (0 <= cnt)%Z ->
  enforce_bullets lst each cnt false
  = List.map (fun s => enforce_char_cap s each false) (firstn (Z.to_nat cnt) lst).
Proof.
  intros Hc. unfold enforce_bullets, slice_to.
  destruct (Z.leb_spec 0 cnt); [reflexivity|lia].
Qed.

(** X16. The contract of [enforce_bullets], for a positive entry cap
    and a count that is not negative.  The result is the first
    [max_count] entries, each passed through the char cap, followed by
    at most one marker: the marker is there exactly when the tail flag
    is set and entries were dropped, and it names their number.  Every
    kept entry has no unclosed fence and at most [max_each] + 8
    characters. *)
Theorem X16_bullets_contract (lst : list pystr) (each cnt : Z) (tail : bool) :
  (1 <= each)%Z -> (0 <= cnt)%Z ->
  exists kept,
    enforce_bullets lst each cnt tail
    = (kept ++ if tail && (cnt <? Z.of_nat (List.length lst))%Z
               then [more_marker (List.length lst - Z.to_nat cnt)] else [])%list /\
    kept = List.map (fun s => enforce_char_cap s each false) (firstn (Z.to_nat cnt) lst) /\
    List.length kept = Nat.min (Z.to_nat cnt) (List.length lst) /\
    Forall (fun e => fences_even e /\ (Z.of_nat (List.length e) <= each + 8)%Z) kept.
Proof.
  intros He Hc.
  exists (List.map (fun s => enforce_char_cap s each false) (firstn (Z.to_nat cnt) lst)).
  split; [|split; [reflexivity|split]].
  - unfold enforce_bullets. unfold slice_to.
    destruct (Z.leb_spec 0 cnt); [|lia].
    replace (Z.to_nat (Z.max 0 (Z.of_nat (List.length lst) - cnt)))
      with (List.length lst - Z.to_nat cnt) by lia.
    destruct (Z.ltb_spec cnt (Z.of_nat (List.length lst))),
             (Nat.ltb_spec 0 (List.length lst - Z.to_nat cnt)); try lia;
      destruct tail; cbn [andb]; now rewrite ?app_nil_r.
  - now rewrite length_map, length_firstn.
  - apply Forall_forall. intros e Hin. apply in_map_iff in Hin.
    destruct Hin as (s0 & <- & _).
    split; [apply enforce_char_cap_balanced|now apply char_cap_bound8].
Qed.

Lemma X16_witness :
  exists kept,
    enforce_bullets three_bullets 250 2 true
    = (kept ++ if true && (2 <? Z.of_nat (List.length three_bullets))%Z
               then [more_marker (List.length three_bullets - Z.to_nat 2)] else [])%list /\
    kept = List.map (fun s => enforce_char_cap s 250 false) (firstn (Z.to_nat 2) three_bullets) /\
    List.length kept = Nat.min (Z.to_nat 2) (List.length three_bullets) /\
    Forall (fun e => fences_even e /\ (Z.of_nat (List.length e) <= 250 + 8)%Z) kept.
Proof. apply (X16_bullets_contract three_bullets 250 2 true); lia. Defined.

(** *** Style resolution *)

Lemma decided_style_cases (user_query : pystr) (default : string) :
  In (decide_length_style user_query default) STYLES /\
  decide_length_style user_query default
  = match detect_user_style user_query with
    | Some s => s
    | None => auto_classify_style user_query
    end.
Proof.
  unfold decide_length_style, detect_user_style, auto_classify_style, STYLES.
  cbn [USER_HINTS List.find fst snd option_map].
  repeat match goal with
         | |- context [if any_in ?h user_query then _ else _] =>
           destruct (any_in h user_query); cbn [option_map fst]
         end;
    (split; [simpl; tauto|reflexivity]).
Qed.

Lemma styles_have_presets (style : string) :
  In style STYLES -> exists p, LENGTH_PRESETS style = Some p /\
                               (140 <= chars p)%Z /\ (50 <= tokens p)%Z.
Proof.
  intros [<-|[<-|[<-|[<-|[]]]]]; eexists; (split; [reflexivity|cbn; lia]).
Qed.

(** X17. [decide_length_style] always names one of the four presets,
    so the style the pipeline resolves always has char and token caps;
    and its [default] argument is never used, because the automatic
    classification always gives a style. *)
Theorem X17_decided_style_is_a_preset (user_query : pystr) (default : string) :
  In (decide_length_style user_query default) STYLES /\
  (exists p, LENGTH_PRESETS (decide_length_style user_query default) = Some p) /\
  decide_length_style user_query default
  = match detect_user_style user_query with
    | Some s => s
    | None => auto_classify_style user_query
    end.
Proof.
  destruct (decided_style_cases user_query default) as [Hin He].
  split; [exact Hin|]. split; [|exact He].
  destruct (styles_have_presets _ Hin) as (p & Hp & _). eauto.
Qed.

(** *** The caps of the pipeline entry *)

Lemma to_int_raises (R : Runtime) (v : pyval) (d : option Z) (e : exn) :
  _to_int v d = Raise e -> not_finite v.
Proof.
  unfold not_finite. destruct v as [|b|z|[q| | |]|s|]; cbn [_to_int int_of_float];
    try discriminate; auto.
  destruct (strip s); [discriminate|].
  destruct (float_of_str _) as [f|]; [|discriminate].
  destruct (int_of_float f); discriminate.
Qed.

Lemma global_cap_positive (R : Runtime) (v : pyval) (c : Z) :
  global_cap_of v = Ok c -> (1 <= c)%Z.
Proof.
  unfold global_cap_of. destruct (_to_int v (Some 4000%Z)) as [gc|e]; cbn [bind]; [|discriminate].
  intros [= <-]. destruct (Z.leb_spec (or_else gc 4000) 0); lia.
Qed.

Lemma token_cap_positive (R : Runtime) (v : pyval) (c : option Z) (t : Z) :
  token_cap_of v = Ok c -> c = Some t -> (1 <= t)%Z.
Proof.
  unfold token_cap_of. destruct (_to_int v None) as [tc|e]; cbn [bind]; [|discriminate].
  intros [= <-]. destruct tc as [x|]; [|discriminate].
  destruct (Z.leb_spec x 0); [discriminate|]. intros [= <-]. lia.
Qed.


(** *** A bound on every text of the trimmed payload *)

Lemma cap_chars_range (key : string) (style_chars : option Z) (global_cap : Z) :
  (forall c, style_chars = Some c -> (1 <= c)%Z) -> (1 <= global_cap)%Z ->
  (1 <= Z.min (get_default (p_max_chars (get_default (KEY_POLICY key) text_policy))
                 (or_else style_chars global_cap)) global_cap <= global_cap)%Z.
Proof.
  intros Hs Hg. pose proof (or_else_positive style_chars global_cap Hs Hg).
  destruct (policy_max_chars key) as [-> | ->]; cbn [get_default]; lia.
Qed.

Lemma trim_texts_within (R : Runtime) (style_chars : option Z) (global_cap : Z)
    (token_cap : option Z) (tokenizer : option Tokenizer) :
  (forall c, style_chars = Some c -> (1 <= c)%Z) -> (1 <= global_cap)%Z ->
  forall (v : value) (key : option string),
    texts_within (global_cap + 8)
      (_trim_value key v style_chars global_cap token_cap tokenizer).
Proof.
  intros Hs Hg v. induction v as [a|s|l IH|d IH] using value_rect'; intros key.
  - constructor.
  - cbn [_trim_value]. constructor.
    pose proof (cap_chars_range (key_or_empty key) style_chars global_cap Hs Hg) as Hr.
    match goal with
    | |- context [enforce_char_cap ?t ?c ?b] =>
      pose proof (char_cap_bound8 t c b (proj1 Hr))
    end. lia.
  - cbn [_trim_value]. destruct (forallb is_str l) eqn:Hl.
    + apply within_strings. apply forallb_is_str_map.
    + apply within_list.
      * rewrite <- Hl. clear. induction l as [|x l IHl]; [reflexivity|].
        cbn [List.map forallb]. now rewrite is_str_trim, IHl.
      * apply Forall_map. rewrite Forall_forall in IH |- *. intros x Hx. now apply IH.
  - cbn [_trim_value]. constructor. apply Forall_map.
    rewrite Forall_forall in IH |- *. intros [k x] Hx.
    destruct (mem k SKIP_KEYS) eqn:Hk; cbn [fst snd]; [congruence|].
    intros _. apply (IH (k, x) Hx).
Qed.

(** X19. A bound on every text of a trimmed payload.  For a positive
    char cap, every string of the result that is neither an entry of a
    list of strings nor under a metadata key has at most [max_chars] + 8
    characters, whatever the style, the token cap and the tokenizer:
    the char cap is applied last, and closing an open fence adds at
    most 8 characters. *)
Theorem X19_texts_within_the_cap (R : Runtime) (payload : value)
    (length_style : option string) (max_chars : Z) (max_tokens : option Z)
    (tokenizer : option Tokenizer) :
  (1 <= max_chars)%Z ->
  texts_within (max_chars + 8)
    (trim_payload payload length_style max_chars max_tokens tokenizer).
Proof.
  intros H. unfold trim_payload. apply trim_texts_within; [|exact H].
  apply style_chars_positive.
Qed.

Lemma X19_witness :
  texts_within (10 + 8) (trim_payload steady_payload (Some "short") 10 None None).
Proof.
  apply (X19_texts_within_the_cap plain_runtime steady_payload (Some "short") 10 None None).
  lia.
Defined.

End LengthExtra.

(** ** The request handler *)

Module ChatProofs.

Import ScriptCatalog LengthControl LengthSpec LengthBounds RouterNodes AppServer ChatSpec.
Import ScriptExtra LengthExtra ShapeProofs.
Local Open Scope string_scope.

Lemma int_caps (R : Runtime) (a b : option Z) :
  exists c t, global_cap_of (int_param a) = Ok c /\ token_cap_of (int_param b) = Ok t /\
              (1 <= c)%Z.
Proof.
  destruct (global_cap_of (int_param a)) as [c|e] eqn:Hc.
  - destruct (token_cap_of (int_param b)) as [t|e] eqn:Ht.
    + exists c, t. repeat split. eapply global_cap_positive; eauto.
    + destruct b; discriminate.
  - destruct a; discriminate.
Qed.

(** The response of [chat], stage by stage. *)
Lemma chat_runs (U : Unicode) (R : Runtime) (awaited : res pystr)
    (read_segment : pystr -> res (option pystr)) (query : pystr) (req : ChatRequest) :
  exists out kept style cap tcap,
    NodesScript.script_qna_node (script_state (routed awaited read_segment req) req)
    = Ok (out, kept) /\
    global_cap_of (int_param (req_max_chars req)) = Ok cap /\
    token_cap_of (int_param (req_max_tokens req)) = Ok tcap /\
    (1 <= cap)%Z /\
    style = match nonempty (req_length_style req) with
            | Some s => s
            | None => decide_length_style query "medium"
            end /\
    chat awaited read_segment query req
    = Ok (mkResponse
            (domain_value (routed awaited read_segment req))
            (_trim_value (Some "script") (script_value out)
               (option_map chars (style_preset (Some style))) cap
               (merged_token_cap (Some style) tcap) (Some new_tokenizer))
            kept (Some style)).
Proof.
  unfold chat, routed. fold (routed_state req).
  destruct (Router.domain_detect_node _ (routed_state req)) as [domain step].
  cbn [fst]. fold (script_state domain req).
  destruct (node_total U (script_state domain req)) as ([out kept] & Hn).
  destruct (int_caps R (req_max_chars req) (req_max_tokens req)) as (c & t & Hc & Ht & Hpos).
  exists out, kept. eexists. exists c, t.
  split; [exact Hn|]. split; [exact Hc|]. split; [exact Ht|]. split; [exact Hpos|].
  split; [reflexivity|].
  rewrite Hn. cbn [bind fst snd]. unfold apply_length_control.
  cbn [LengthControl.query param_length_style param_max_chars param_max_tokens
       LengthControl.outputs].
  rewrite Hc, Ht. cbn [bind]. reflexivity.
Qed.

Lemma answered_cut (R : Runtime) (n : Progress) (sc : option Z) (cap : Z)
    (tc : option Z) (tok : option Tokenizer) (q : pystr) (slot sec : string) :
  answered_of (_trim_value (Some "script")
                 (script_value (NodesScript.Ask q slot sec n)) sc cap tc tok)
  = List.map VStr
      (List.map (fun s => enforce_char_cap s (Z.min (or_else sc 250) 250) false)
         (firstn 7 (List.map u (answered n)))).
Proof.
  unfold answered_of, script_value, progress_value, names, entry.
  cbn [_trim_value List.map mem existsb SKIP_KEYS String.eqb Ascii.eqb Bool.eqb orb
       dict_get fst snd].
  rewrite forallb_is_str_map, TrimProofs.strings_of_map.
  change (key_or_empty (Some "answered")) with "answered".
  change (KEY_POLICY "answered") with (@None Policy).
  cbn [get_default list_policy p_max_each p_max_count p_tail].
  now rewrite bullets_without_tail by lia.
Qed.


(** *** Texts the caps leave alone *)

Lemma smallb_spec (t : pystr) :
  smallb t = true ->
  List.length t <= 60 /\ List.length (split t) <= 14 /\ fences_even t.
Proof.
  unfold smallb, fences_even. rewrite !andb_true_iff, !negb_true_iff, !Nat.leb_le. tauto.
Qed.

Lemma small_entry (t : pystr) (each : Z) :
  smallb t = true -> (60 <= each)%Z -> enforce_char_cap t each false = t.
Proof.
  intros Hs He. apply smallb_spec in Hs. destruct Hs as (Hl & _ & Hf).
  rewrite enforce_short by lia. now apply FenceProofs.balance_id.
Qed.

Lemma small_kept (R : Runtime) (t : pystr) (key : string) (sc : option Z) (cap : Z)
    (tc : option Z) :
  tiktoken = None -> smallb t = true -> KEY_POLICY key = None ->
  (forall c, sc = Some c -> (60 <= c)%Z) -> (60 <= cap)%Z ->
  (forall x, tc = Some x -> (14 <= x)%Z) ->
  _trim_value (Some key) (VStr t) sc cap tc (Some new_tokenizer) = VStr t.
Proof.
  intros Htik Hs Hpol Hsc Hcap Htc.
  pose proof (smallb_spec t Hs) as (Hl & Hw & Hf).
  cbn [_trim_value]. change (key_or_empty (Some key)) with key. rewrite Hpol.
  cbn [get_default text_policy p_type p_max_chars].
  change (String.eqb "text" "code") with false. cbn [negb andb].
  assert (Htxt : (if truthy_cap tc then enforce_token_cap t tc (Some new_tokenizer) else t) = t).
  { destruct tc as [x|]; [|reflexivity]. specialize (Htc x eq_refl).
    cbn [truthy_cap]. destruct (Z.eqb_spec x 0); [lia|]. cbn [negb].
    unfold new_tokenizer. rewrite Htik. fold fallback.
    rewrite fallback_cap by lia.
    destruct (Z.leb_spec (Z.of_nat (List.length (split t))) x); [reflexivity|lia]. }
  rewrite Htxt. f_equal.
  assert (Ho : (60 <= or_else sc cap)%Z).
  { unfold or_else. destruct sc as [c|]; [|exact Hcap].
    specialize (Hsc c eq_refl). destruct (Z.eqb_spec c 0); lia. }
  apply small_entry; [exact Hs|lia].
Qed.

Lemma small_names :
  forallb (fun x => smallb (u x)) (ScriptSpec.ALL_SLOTS ++ flow ++ ["ask"; "notice"; "end"])
  = true.
Proof. vm_compute. reflexivity. Qed.

Lemma small_name (x : string) :
  In x (ScriptSpec.ALL_SLOTS ++ flow ++ ["ask"; "notice"; "end"])%list -> smallb (u x) = true.
Proof.
  intros H. pose proof small_names as Hall. rewrite forallb_forall in Hall. now apply Hall.
Qed.

Lemma small_messages :
  smallb NodesScript.NOTICE_MESSAGE = true /\ smallb NodesScript.END_MESSAGE = true.
Proof. split; vm_compute; reflexivity. Qed.

Lemma small_question (x : string) (segment : option string) :
  In x ScriptSpec.ALL_SLOTS -> smallb (_dyn_question x segment) = true.
Proof.
  intros H. unfold ScriptSpec.ALL_SLOTS, A_ORDER, B_ORDER, C_ORDER, D_ORDER in H.
  cbn [app In] in H.
  repeat (destruct H as [<-|H]; [try (vm_compute; reflexivity)|]); [|destruct H].
  unfold _dyn_question. rewrite String.eqb_refl. unfold SEG_LABEL.
  destruct segment as [s|]; [|vm_compute; reflexivity].
  destruct (String.eqb s "camping"); [vm_compute; reflexivity|].
  destruct (String.eqb s "experience"); [vm_compute; reflexivity|].
  destruct (String.eqb s "sports"); vm_compute; reflexivity.
Qed.

Lemma map_small (l : list pystr) (each : Z) :
  Forall (fun t => smallb t = true) l -> (60 <= each)%Z ->
  List.map (fun s => enforce_char_cap s each false) l = l.
Proof.
  intros Hl He. induction Hl as [|t l Ht Hl IH]; [reflexivity|].
  cbn [List.map]. now rewrite small_entry, IH.
Qed.

(** What the Script Engine writes passes the trimmer unchanged, except
    for the cut of the answered ids. *)
Lemma trim_script (R : Runtime) (out : NodesScript.ScriptOutput) (sc : option Z) (cap : Z)
    (tc : option Z) :
  tiktoken = None ->
  (forall c, sc = Some c -> (60 <= c)%Z) -> (60 <= cap)%Z ->
  (forall x, tc = Some x -> (14 <= x)%Z) ->
  match out with
  | NodesScript.Notice m => smallb m = true
  | NodesScript.End m => smallb m = true
  | NodesScript.Ask q slot sec n =>
    smallb q = true /\ In slot ScriptSpec.ALL_SLOTS /\ In sec flow /\
    sec = section n /\ incl (answered n) ScriptSpec.ALL_SLOTS
  end ->
  _trim_value (Some "script") (script_value out) sc cap tc (Some new_tokenizer)
  = script_value (cut_answered out).
Proof.
  intros Htik Hsc Hcap Htc Hout.
  assert (Hk : forall key t, smallb t = true -> KEY_POLICY key = None ->
               _trim_value (Some key) (VStr t) sc cap tc (Some new_tokenizer) = VStr t)
    by (intros; now apply small_kept).
  assert (Hname : forall x, In x ["ask"; "notice"; "end"] -> smallb (u x) = true).
  { intros x Hx. apply small_name. apply in_or_app. right. apply in_or_app. now right. }
  destruct out as [m|q slot sec n|m]; unfold script_value, cut_answered.
  - change (_trim_value (Some "script") (VDict [("mode", VStr (u "notice")); ("message", VStr m)])
              sc cap tc (Some new_tokenizer))
      with (VDict [("mode", _trim_value (Some "mode") (VStr (u "notice")) sc cap tc
                              (Some new_tokenizer));
                   ("message", _trim_value (Some "message") (VStr m) sc cap tc
                                 (Some new_tokenizer))]).
    rewrite !Hk by (auto; apply Hname; simpl; tauto). reflexivity.
  - destruct Hout as (Hq & Hslot & Hsec & -> & Hans).
    assert (Hs1 : smallb (u "ask") = true) by (apply Hname; simpl; tauto).
    assert (Hs2 : smallb (u slot) = true)
      by (apply small_name; apply in_or_app; now left).
    assert (Hs3 : smallb (u (section n)) = true)
      by (apply small_name; apply in_or_app; right; apply in_or_app; now left).
    unfold progress_value, names. cbn [section index answered].
    change (_trim_value (Some "script") ?v sc cap tc (Some new_tokenizer))
      with (VDict
              [("mode", _trim_value (Some "mode") (VStr (u "ask")) sc cap tc
                          (Some new_tokenizer));
               ("question", _trim_value (Some "question") (VStr q) sc cap tc
                              (Some new_tokenizer));
               ("slot_key", _trim_value (Some "slot_key") (VStr (u slot)) sc cap tc
                              (Some new_tokenizer));
               ("section", _trim_value (Some "section") (VStr (u (section n))) sc cap tc
                             (Some new_tokenizer));
               ("progress",
                VDict
                  [("section", _trim_value (Some "section") (VStr (u (section n))) sc cap tc
                                 (Some new_tokenizer));
                   ("index", VAtom (AInt (index n)));
                   ("answered", _trim_value (Some "answered")
                                  (VList (List.map VStr (List.map u (answered n))))
                                  sc cap tc (Some new_tokenizer))])]).
    rewrite !Hk by auto.
    cbn [_trim_value]. rewrite forallb_is_str_map, TrimProofs.strings_of_map.
    change (key_or_empty (Some "answered")) with "answered".
    change (KEY_POLICY "answered") with (@None Policy).
    cbn [get_default list_policy p_max_each p_max_count p_tail].
    rewrite bullets_without_tail by lia.
    rewrite map_small.
    + change (Z.to_nat 7) with 7. now rewrite firstn_map.
    + apply TrimProofs.Forall_firstn. apply Forall_forall. intros t Ht.
      apply in_map_iff in Ht. destruct Ht as (x & <- & Hx).
      apply small_name. apply in_or_app. left. now apply Hans.
    + assert (Ho : (60 <= or_else sc 250)%Z).
      { unfold or_else. destruct sc as [c|]; [|lia].
        specialize (Hsc c eq_refl). destruct (Z.eqb_spec c 0); lia. }
      lia.
  - change (_trim_value (Some "script") ?v sc cap tc (Some new_tokenizer))
      with (VDict [("mode", _trim_value (Some "mode") (VStr (u "end")) sc cap tc
                              (Some new_tokenizer));
                   ("message", _trim_value (Some "message") (VStr m) sc cap tc
                                 (Some new_tokenizer));
                   ("progress", VAtom ANone)]).
    rewrite !Hk by (auto; apply Hname; simpl; tauto). reflexivity.
Qed.

Lemma preset_sizes (style : string) (p : Preset) :
  LENGTH_PRESETS style = Some p -> (140 <= chars p)%Z /\ (50 <= tokens p)%Z.
Proof.
  unfold LENGTH_PRESETS.
  repeat match goal with
         | |- context [String.eqb style ?k] => destruct (String.eqb style k)
         end; intros [= <-]; cbn; lia.
Qed.

Lemma node_output_small (U : Unicode) (state : NodesScript.GraphState)
    (out : NodesScript.ScriptOutput) (kept : option Progress) :
  NodesScript.script_qna_node state = Ok (out, kept) ->
  (forall p, NodesScript.param_script_progress state = Some p ->
             incl (answered p) ScriptSpec.ALL_SLOTS) ->
  match out with
  | NodesScript.Notice m => smallb m = true
  | NodesScript.End m => smallb m = true
  | NodesScript.Ask q slot sec n =>
    smallb q = true /\ In slot ScriptSpec.ALL_SLOTS /\ In sec flow /\
    sec = section n /\ incl (answered n) ScriptSpec.ALL_SLOTS
  end.
Proof.
  intros Hn Hans.
  destruct (NodesScript.domain_isOnTopic state) as [[|]|] eqn:Ht.
  2: { unfold NodesScript.script_qna_node in Hn. rewrite Ht in Hn. cbn [negb] in Hn.
       injection Hn as <- _. apply small_messages. }
  all: destruct (node_on_topic U state) as (out' & kept' & He & Hm);
    [rewrite Ht; discriminate|];
    rewrite Hn in He; injection He as <- <-;
    destruct out as [m|q slot sec n|m]; [destruct Hm| |];
    try (destruct Hm as (_ & -> & _); apply small_messages).
  all: destruct Hm as (Hvw & Hvn & -> & -> & _ & Hq & Hin);
    rewrite (current_question_text n _ Hvn) in Hq; injection Hq as <-;
    pose proof (slot_in_catalogue n Hvn) as Hslot;
    (split; [now apply small_question|]); (split; [exact Hslot|]);
    (split; [destruct (valid_cases n Hvn) as (_ & _ & _ & _ & _ & Hf); exact Hf|]);
    (split; [reflexivity|]);
    intros x Hx; apply Hin in Hx; destruct Hx as [<-|Hx];
    [now apply slot_in_catalogue|];
    unfold ScriptOrder.working_progress in Hx;
    destruct (NodesScript.param_script_progress state) as [p0|] eqn:Hp;
    [now apply (Hans p0 eq_refl)|destruct Hx].
Qed.

(** X21. With the whitespace tokenizer, the Script Engine's output
    reaches the client as it was written, but for the answered ids.
    When no exact encoder is installed, the char cap sent is absent or
    at least 60, the token cap sent is absent or at least 14, and the
    answered ids resubmitted are slot ids of the catalogue, [chat]
    returns as [script] entry exactly what the node wrote: mode,
    message or question, slot key and section are not altered under any
    style, and only the answered ids are cut to the first seven. *)
Theorem X21_script_reaches_the_client (U : Unicode) (R : Runtime) (awaited : res pystr)
    (read_segment : pystr -> res (option pystr)) (query : pystr) (req : ChatRequest) :
  tiktoken = None ->
  (forall c, req_max_chars req = Some c -> (60 <= c)%Z) ->
  (forall t, req_max_tokens req = Some t -> (14 <= t)%Z) ->
  (forall p, req_script_progress req = Some p -> incl (answered p) ScriptSpec.ALL_SLOTS) ->
  exists out kept resp,
    NodesScript.script_qna_node (script_state (routed awaited read_segment req) req)
    = Ok (out, kept) /\
    chat awaited read_segment query req = Ok resp /\
    resp_script resp = script_value (cut_answered out).
Proof.
  intros Htik Hchars Htokens Hans.
  destruct (chat_runs U R awaited read_segment query req)
    as (out & kept & style & cap & tcap & Hn & Hc & Ht & Hpos & Hs & Hchat).
  exists out, kept. eexists. split; [exact Hn|]. split; [exact Hchat|].
  cbn [resp_script]. apply trim_script; [exact Htik| | | |].
  - intros c Hsc. unfold style_preset in Hsc.
    destruct (match nonempty (Some style) with Some s => LENGTH_PRESETS s | None => None end)
      as [p|] eqn:Hp; [|discriminate].
    injection Hsc as <-. destruct (nonempty (Some style)); [|discriminate].
    apply preset_sizes in Hp. lia.
  - destruct (req_max_chars req) as [c|]; cbn [int_param] in Hc.
    + specialize (Hchars c eq_refl). unfold global_cap_of in Hc.
      cbn [_to_int bind or_else] in Hc.
      destruct (Z.eqb_spec c 0); [lia|]. destruct (Z.leb_spec c 0); [lia|].
      injection Hc as <-. exact Hchars.
    + vm_compute in Hc. injection Hc as <-. lia.
  - intros x Hx. unfold merged_token_cap in Hx.
    assert (Htc : forall t, tcap = Some t -> (14 <= t)%Z).
    { intros t ->. destruct (req_max_tokens req) as [t0|]; cbn [int_param] in Ht.
      - specialize (Htokens t0 eq_refl). unfold token_cap_of in Ht.
        cbn [_to_int bind] in Ht. destruct (Z.leb_spec t0 0); [discriminate|].
        injection Ht as <-. exact Htokens.
      - vm_compute in Ht. discriminate. }
    unfold style_preset in Hx.
    destruct (match nonempty (Some style) with Some s => LENGTH_PRESETS s | None => None end)
      as [p|] eqn:Hp.
    + destruct (nonempty (Some style)); [|discriminate]. apply preset_sizes in Hp.
      destruct tcap as [t|]; cbn [option_map opt_min] in Hx; injection Hx as <-;
        [specialize (Htc t eq_refl)|]; lia.
    + destruct tcap as [t|]; cbn [option_map opt_min] in Hx; [|discriminate].
      injection Hx as <-. now apply Htc.
  - eapply node_output_small; [exact Hn|exact Hans].
Qed.

Lemma X21_witness :
  exists out kept resp,
    NodesScript.script_qna_node
      (script_state (routed (Ok []) (fun _ => Ok None) ninth_answer) ninth_answer)
    = Ok (out, kept) /\
    chat (Ok []) (fun _ => Ok None) [] ninth_answer = Ok resp /\
    resp_script resp = script_value (cut_answered out).
Proof.
  apply (X21_script_reaches_the_client plain_unicode plain_runtime (Ok [])
           (fun _ => Ok None) [] ninth_answer).
  - reflexivity.
  - discriminate.
  - discriminate.
  - intros p [= <-] x Hx. simpl in Hx |- *. tauto.
Defined.

(** The ninth answer: nine ids in the parameters, seven in the script. *)
Example ninth_answer_loses_ids :
  match chat (Ok []) (fun _ => Ok None) [] ninth_answer with
  | Ok resp =>
    Some (List.length (answered_of (resp_script resp)),
          option_map (fun p => List.length (answered p)) (resp_script_progress resp))
  | Raise _ => None
  end = Some (7, Some 9).
Proof. vm_compute. reflexivity. Qed.

End ChatProofs.

(** ** JSON texts: the escapes form a prefix code *)

Module JsonProofs.

Import Json JsonSpec.

Lemma special_in (c : N) : is_special c = true -> In c SPECIALS.
Proof.
  unfold is_special, SPECIALS. rewrite !orb_true_iff, N.ltb_lt, !N.eqb_eq.
  intros [[H| ->]| ->]; apply in_or_app; [left|right; simpl; tauto|right; simpl; tauto].
  rewrite <- (N2Nat.id c). apply in_map, in_seq. lia.
Qed.

Lemma plain_escape (c : N) : is_special c = false -> escape_char c = [c].
Proof.
  unfold is_special. rewrite !orb_false_iff, N.ltb_ge, !N.eqb_neq.
  intros [[H1 H2] H3]. unfold escape_char.
  destruct (N.eqb_spec c 34); [congruence|]. destruct (N.eqb_spec c 92); [congruence|].
  destruct (N.eqb_spec c 10); [lia|]. destruct (N.eqb_spec c 13); [lia|].
  destruct (N.eqb_spec c 9); [lia|]. destruct (N.eqb_spec c 8); [lia|].
  destruct (N.eqb_spec c 12); [lia|]. destruct (N.ltb_spec c 32); [lia|reflexivity].
Qed.

Lemma special_heads :
  forallb (fun c => match escape_char c with h :: _ :: _ => (h =? 92)%N | _ => false end)
          SPECIALS = true.
Proof. vm_compute. reflexivity. Qed.

Lemma special_prefix_free :
  forallb (fun c => forallb (fun d => negb (compatible (escape_char c) (escape_char d))
                                      || (c =? d)%N) SPECIALS) SPECIALS = true.
Proof. vm_compute. reflexivity. Qed.

Lemma app_compatible (a b x y : pystr) : (a ++ x = b ++ y)%list -> compatible a b = true.
Proof.
  unfold compatible. revert b. induction a as [|c a IH]; intros b H; [reflexivity|].
  destruct b as [|d b]; [reflexivity|].
  simpl in H. injection H as -> H. simpl. rewrite N.eqb_refl. simpl. now apply IH.
Qed.

(** The escapes form a prefix code. *)
Lemma escape_char_inj (c d : N) (x y : pystr) :
  (escape_char c ++ x = escape_char d ++ y)%list -> c = d /\ x = y.
Proof.
  intros H.
  assert (Hcd : c = d).
  { destruct (is_special c) eqn:Hc, (is_special d) eqn:Hd.
    - pose proof special_prefix_free as Hp. rewrite forallb_forall in Hp.
      specialize (Hp c (special_in c Hc)). rewrite forallb_forall in Hp.
      specialize (Hp d (special_in d Hd)).
      rewrite (app_compatible _ _ _ _ H) in Hp. simpl in Hp. now apply N.eqb_eq.
    - pose proof special_heads as Hh. rewrite forallb_forall in Hh.
      specialize (Hh c (special_in c Hc)). rewrite (plain_escape d Hd) in H.
      destruct (escape_char c) as [|h [|h2 t]]; try discriminate.
      apply N.eqb_eq in Hh. subst h.
      simpl in H. injection H as <- _. discriminate Hd.
    - pose proof special_heads as Hh. rewrite forallb_forall in Hh.
      specialize (Hh d (special_in d Hd)). rewrite (plain_escape c Hc) in H.
      destruct (escape_char d) as [|h [|h2 t]]; try discriminate.
      apply N.eqb_eq in Hh. subst h.
      simpl in H. injection H as -> _. discriminate Hc.
    - rewrite (plain_escape c Hc), (plain_escape d Hd) in H. simpl in H. congruence. }
  subst d. split; [reflexivity|]. eapply app_inv_head; eauto.
Qed.

Lemma escape_char_head (c : N) : exists h t, escape_char c = h :: t /\ h <> 34%N.
Proof.
  destruct (is_special c) eqn:Hc.
  - pose proof special_heads as Hh. rewrite forallb_forall in Hh.
    specialize (Hh c (special_in c Hc)).
    destruct (escape_char c) as [|h [|h2 t]]; try discriminate.
    apply N.eqb_eq in Hh. subst h. exists 92%N, (h2 :: t). split; [reflexivity|]. discriminate.
  - rewrite (plain_escape c Hc). exists c, []. split; [reflexivity|].
    intros ->. discriminate.
Qed.

(** An escaped string is closed by the first quote that follows it. *)
Lemma escape_inj (s t x y : pystr) :
  (escape s ++ 34%N :: x = escape t ++ 34%N :: y)%list -> s = t /\ x = y.
Proof.
  revert t. induction s as [|c s IH]; intros [|d t] H; cbn [escape flat_map app] in H.
  - injection H as ->. auto.
  - destruct (escape_char_head d) as (h & r & E & Hh). rewrite E in H.
    simpl in H. injection H as <- _. congruence.
  - destruct (escape_char_head c) as (h & r & E & Hh). rewrite E in H.
    simpl in H. injection H as -> _. congruence.
  - rewrite <- !app_assoc in H. apply escape_char_inj in H. destruct H as [-> H].
    apply IH in H. destruct H as [-> ->]. auto.
Qed.

Lemma dumps_str_inj (s t x y : pystr) :
  (dumps_str s ++ x = dumps_str t ++ y)%list -> s = t /\ x = y.
Proof.
  unfold dumps_str. rewrite <- !app_assoc. cbn [app]. intros [= H].
  now apply escape_inj in H.
Qed.

(** Escaped text holds no control character. *)
Lemma hex_digit_printable (n : N) : (32 <= hex_digit n)%N.
Proof. unfold hex_digit. destruct (n <? 10)%N; lia. Qed.

Lemma escape_char_printable (c : N) : printable (escape_char c).
Proof.
  unfold printable, escape_char.
  repeat match goal with
         | |- context [if ?b then _ else _] => destruct b eqn:?
         end;
    repeat constructor; try lia; try apply hex_digit_printable.
  apply N.ltb_ge in Heqb6. exact Heqb6.
Qed.

Lemma escape_printable (s : pystr) : printable (escape s).
Proof.
  unfold printable, escape. induction s as [|c s IH]; [constructor|].
  cbn [flat_map]. apply Forall_app. split; [apply escape_char_printable|exact IH].
Qed.

Lemma dumps_str_printable (s : pystr) : printable (dumps_str s).
Proof.
  unfold dumps_str, printable. apply Forall_app. split; [repeat constructor; lia|].
  apply Forall_app. split; [apply escape_printable|repeat constructor; lia].
Qed.

Lemma join_printable (sep : pystr) (l : list pystr) :
  printable sep -> Forall printable l -> printable (join sep l).
Proof.
  intros Hs Hl. induction Hl as [|x l Hx Hl IH]; [constructor|].
  cbn [join]. destruct l as [|y l]; [exact Hx|].
  apply Forall_app. split; [exact Hx|]. apply Forall_app. split; [exact Hs|exact IH].
Qed.

Lemma dumps_dict_printable (item_sep key_sep : pystr) (d : object) :
  printable item_sep -> printable key_sep -> printable (dumps_dict item_sep key_sep d).
Proof.
  intros Hi Hk. unfold dumps_dict.
  apply Forall_app. split; [repeat constructor; lia|].
  apply Forall_app. split; [|repeat constructor; lia].
  apply join_printable; [exact Hi|]. apply Forall_map, Forall_forall. intros [k v] _.
  unfold dumps_item. cbn [fst snd].
  apply Forall_app. split; [apply dumps_str_printable|].
  apply Forall_app. split; [exact Hk|].
  destruct v as [s|[|]]; [apply dumps_str_printable| |];
    apply Forall_forall; intros c Hc; apply N.leb_le; revert c Hc;
    apply (proj1 (forallb_forall (fun c => (32 <=? c)%N) _)); vm_compute; reflexivity.
Qed.

End JsonProofs.

(** ** The cache, the completions and the frames *)

Module CoreProofs.

Import Services Cache Llm Json JsonSpec JsonProofs Prefetcher App CoreSpec.

(** *** The cache key *)

Lemma object_shape (item_sep key_sep k1 k2 v1 v2 : pystr) :
  dumps_dict item_sep key_sep [(k1, JStr v1); (k2, JStr v2)]
  = (([123%N] ++ dumps_str k1 ++ key_sep) ++ dumps_str v1
     ++ (item_sep ++ dumps_str k2 ++ key_sep) ++ dumps_str v2 ++ [125%N])%list.
Proof.
  unfold dumps_dict, dumps_item. cbn [List.map join fst snd dumps_scalar].
  now rewrite <- !app_assoc.
Qed.

Lemma object_inj (item_sep key_sep k1 k2 v1 v2 v1' v2' x y : pystr) :
  (dumps_dict item_sep key_sep [(k1, JStr v1); (k2, JStr v2)] ++ x
   = dumps_dict item_sep key_sep [(k1, JStr v1'); (k2, JStr v2')] ++ y)%list ->
  v1 = v1' /\ v2 = v2' /\ x = y.
Proof.
  rewrite !object_shape.
  remember ([123%N] ++ dumps_str k1 ++ key_sep)%list as A.
  remember (item_sep ++ dumps_str k2 ++ key_sep)%list as B.
  rewrite <- !app_assoc. intros H. apply app_inv_head in H.
  apply dumps_str_inj in H. destruct H as [-> H]. apply app_inv_head in H.
  apply dumps_str_inj in H. destruct H as [-> H]. apply app_inv_head in H. auto.
Qed.

Lemma object_head (item_sep key_sep sep : pystr) (d : object) (rest : list pystr)
    (x : pystr) :
  exists r, (join sep (dumps_dict item_sep key_sep d :: rest) ++ x)%list = 123%N :: r.
Proof. destruct rest; cbn [join]; unfold dumps_dict; cbn [app]; eauto. Qed.

Lemma messages_inj (l l' : list Message) (x y : pystr) :
  (join (u ",") (List.map (dumps_dict (u ",") (u ":")) (List.map message_object l))
     ++ 93%N :: x
   = join (u ",") (List.map (dumps_dict (u ",") (u ":")) (List.map message_object l'))
     ++ 93%N :: y)%list ->
  List.map fields l = List.map fields l'.
Proof.
  revert l'. induction l as [|m l IH]; intros [|m' l'] H.
  - reflexivity.
  - exfalso. cbn [List.map] in H.
    destruct (object_head (u ",") (u ":") (u ",") (message_object m')
                (List.map (dumps_dict (u ",") (u ":")) (List.map message_object l'))
                (93%N :: y)) as [t E].
    rewrite E in H. discriminate.
  - exfalso. cbn [List.map] in H.
    destruct (object_head (u ",") (u ":") (u ",") (message_object m)
                (List.map (dumps_dict (u ",") (u ":")) (List.map message_object l))
                (93%N :: x)) as [t E].
    rewrite E in H. discriminate.
  - cbn [List.map]. specialize (IH l').
    destruct l as [|b l], l' as [|b' l']; cbn [List.map join] in H.
    + apply object_inj in H. destruct H as (Hr & Hc & _). unfold fields. now rewrite Hr, Hc.
    + exfalso. rewrite <- app_assoc in H. apply object_inj in H.
      destruct H as (_ & _ & H). change (u ",") with [44%N] in H. discriminate.
    + exfalso. rewrite <- app_assoc in H. apply object_inj in H.
      destruct H as (_ & _ & H). change (u ",") with [44%N] in H. discriminate.
    + rewrite <- !app_assoc in H. apply object_inj in H.
      destruct H as (Hr & Hc & H). apply app_inv_head in H.
      f_equal; [unfold fields; now rewrite Hr, Hc|]. apply IH. exact H.
Qed.

Lemma words_of_fields (l : list Message) :
  List.map normal l = List.map (fun f => (fst f, split (snd f))) (List.map fields l).
Proof.
  rewrite map_map. apply map_ext. intros [r c]. unfold normal, fields. cbn [fst snd role content].
  change (u " ") with [32%N]. now rewrite LengthExtra.split_join by apply LengthExtra.split_words.
Qed.

Lemma fields_of_words (l : list Message) :
  List.map fields l = List.map (fun n => (fst n, join (u " ") (snd n))) (List.map normal l).
Proof. rewrite map_map. apply map_ext. now intros [r c]. Qed.

Lemma objects_of_fields (l : list Message) :
  List.map message_object l
  = List.map (fun f => [(u "role", JStr (fst f)); (u "content", JStr (snd f))])
      (List.map fields l).
Proof. rewrite map_map. apply map_ext. now intros [r c]. Qed.

Lemma normalize_iff (l l' : list Message) :
  _normalize_messages l = _normalize_messages l' <-> List.map normal l = List.map normal l'.
Proof.
  unfold _normalize_messages, dumps_list.
  change (fun m : Message => _) with message_object. split.
  - intros H. cbn [app] in H. injection H as H. rewrite !words_of_fields. f_equal.
    now apply (messages_inj l l' [] []).
  - intros H. now rewrite !objects_of_fields, !fields_of_words, H.
Qed.

(** X22. Two message lists get the same cache key text exactly when
    they agree message by message on the role, up to the whitespace
    around it, and on the words of the content. *)
Theorem X22_normalized_messages_identify_the_words (l l' : list Message) :
  _normalize_messages l = _normalize_messages l' <-> List.map normal l = List.map normal l'.
Proof. apply normalize_iff. Qed.

Lemma cache_key_normal (S : Settings) (l l' : list Message) :
  List.map normal l = List.map normal l' -> cache_key l = cache_key l'.
Proof. intros H. unfold cache_key. now rewrite (proj2 (normalize_iff l l') H). Qed.

(** *** The memory layer *)

Lemma eqb_str_refl (k : pystr) : eqb_str k k = true.
Proof. unfold eqb_str. now destruct (list_eq_dec N.eq_dec k k). Qed.

Lemma mem_get_set (mem : Mem) (k : pystr) (v : CacheEntry) :
  mem_get (mem_set mem k v) k = Some v.
Proof. unfold mem_set. cbn [mem_get]. now rewrite eqb_str_refl. Qed.

Lemma get_of_mem (H : Hashlib) (w : World) (mem : Mem) (scope raw ver : pystr)
    (e : CacheEntry) :
  mem_get mem (_key scope raw ver) = Some e ->
  get w mem scope raw ver = (Returned (value e), mem).
Proof. intros E. unfold get. now rewrite E. Qed.

Lemma get_some (H : Hashlib) (w : World) (mem mem' : Mem) (scope raw ver x : pystr) :
  get w mem scope raw ver = (Returned (Some x), mem') ->
  exists e, mem_get mem' (_key scope raw ver) = Some e /\ value e = Some x.
Proof.
  unfold get. destruct (mem_get mem (_key scope raw ver)) as [v|] eqn:E.
  - intros [= Hv <-]. eauto.
  - destruct (redis_get w (_key scope raw ver)) as [[rv|]|]; try discriminate.
    destruct (truthy rv); [|discriminate]. intros [= <- <-].
    eexists. split; [apply mem_get_set|reflexivity].
Qed.

(** X23. What [set] stores is what [get] returns for the same scope,
    text and version from then on, without a call to Redis, also when
    the write to Redis raised. *)
Theorem X23_set_then_get (S : Settings) (H : Hashlib) (w w' : World) (mem : Mem)
    (scope raw ver : pystr) (val : option pystr) (ttl : option Z) :
  let mem' := snd (set w mem scope raw ver val ttl) in
  get w' mem' scope raw ver = (Returned val, mem').
Proof.
  intros mem'. subst mem'. unfold set. cbn [snd].
  now rewrite (get_of_mem H w' _ scope raw ver _ (mem_get_set _ _ _)).
Qed.

(** X24. A text that [get] returned once is returned by every later
    [get] for the same scope, text and version, whatever Redis holds
    by then, and the memory layer no longer changes. *)
Theorem X24_hits_are_kept (H : Hashlib) (w w' : World) (mem mem' : Mem)
    (scope raw ver x : pystr) :
  get w mem scope raw ver = (Returned (Some x), mem') ->
  get w' mem' scope raw ver = (Returned (Some x), mem').
Proof.
  intros E. destruct (get_some H w mem mem' scope raw ver x E) as (e & He & Hv).
  now rewrite (get_of_mem H w' mem' scope raw ver e He), Hv.
Qed.

Lemma X24_witness :
  get (H := sample_hashlib) dead_world
      (mem_set [] (_key (H := sample_hashlib) (u "chat") (u "q") (u "v1"))
               (mkEntry (Some (u "a")) 0%Q (u "v1")))
      (u "chat") (u "q") (u "v1")
  = (Returned (Some (u "a")),
     mem_set [] (_key (H := sample_hashlib) (u "chat") (u "q") (u "v1"))
             (mkEntry (Some (u "a")) 0%Q (u "v1"))).
Proof.
  apply (X24_hits_are_kept sample_hashlib sample_world dead_world
           (mem_set [] (_key (H := sample_hashlib) (u "chat") (u "q") (u "v1"))
                    (mkEntry (Some (u "a")) 0%Q (u "v1")))).
  vm_compute. reflexivity.
Defined.

(** *** Answers *)

Lemma ask_stores (S : Settings) (H : Hashlib) (w : World) (mem mem' : Mem)
    (messages : list Message) (scope a : pystr) :
  ask_llm w mem messages scope true = (Returned (Some a), mem') ->
  exists e, mem_get mem' (_key scope (cache_key messages) KNOWLEDGE_VERSION) = Some e
            /\ value e = Some a.
Proof.
  unfold ask_llm.
  destruct (get w mem scope (cache_key messages) KNOWLEDGE_VERSION) as [[hit|e] mem1] eqn:G;
    [|discriminate].
  destruct (truthy_opt hit) eqn:T.
  - intros [= -> <-]. eapply get_some; eauto.
  - destruct (completion w messages) as [out|e]; [|discriminate].
    unfold set. destruct (redis_set _ _ _ _); [|discriminate].
    intros [= -> <-]. eexists. split; [apply mem_get_set|reflexivity].
Qed.

(** X25. Once [ask_llm] has returned a non-empty answer through the
    cache, every later call in the same scope whose messages differ at
    most in whitespace returns that answer with the cache unchanged:
    neither the API nor Redis decides the result. *)
Theorem X25_answers_are_repeated (S : Settings) (H : Hashlib) (w w' : World)
    (mem mem' : Mem) (messages messages' : list Message) (scope a : pystr) :
  ask_llm w mem messages scope true = (Returned (Some a), mem') ->
  a <> [] ->
  List.map normal messages' = List.map normal messages ->
  ask_llm w' mem' messages' scope true = (Returned (Some a), mem').
Proof.
  intros E Ha Hn. destruct (ask_stores S H w mem mem' messages scope a E) as (e & He & Hv).
  unfold ask_llm. rewrite (cache_key_normal S _ _ Hn).
  rewrite (get_of_mem H w' mem' scope _ _ e He), Hv.
  destruct a as [|c a]; [contradiction|reflexivity].
Qed.

Lemma X25_witness :
  exists mem',
    ask_llm (H := sample_settings) (H0 := sample_hashlib) sample_world [] sample_messages
            (u "chat") true = (Returned (Some (u "hello")), mem') /\
    ask_llm (H := sample_settings) (H0 := sample_hashlib) dead_world mem'
            [(u " user", u " hi there ")] (u "chat") true
    = (Returned (Some (u "hello")), mem').
Proof.
  eexists. split; [vm_compute; reflexivity|].
  apply (X25_answers_are_repeated sample_settings sample_hashlib sample_world dead_world
           [] _ sample_messages).
  - vm_compute. reflexivity.
  - discriminate.
  - vm_compute. reflexivity.
Defined.

(** *** Streams *)

Lemma text_of_tokens (meta last : Event) (acc : list pystr) :
  (forall d, meta <> Token d) -> (forall d, last <> Token d) ->
  text_of (meta :: List.map Token acc ++ [last]) = List.concat acc.
Proof.
  intros Hm Hl. unfold text_of. cbn [flat_map]. rewrite flat_map_app. cbn [flat_map].
  destruct meta; [|now elim (Hm delta)|]; destruct last; try (now elim (Hl delta));
    cbn [app]; rewrite app_nil_r; f_equal;
    induction acc as [|t acc IH]; cbn [List.map flat_map app]; congruence.
Qed.

Lemma done_in_tokens (T : Type) (f : T -> pystr) (meta last d : Event) (l : list T) :
  (forall x, d <> Token (f x)) -> d <> meta -> d <> last ->
  ~ In d (meta :: List.map (fun x => Token (f x)) l ++ [last]).
Proof.
  intros Hf Hm Hl [E|E]; [congruence|]. apply in_app_or in E. destruct E as [E|[E|[]]].
  - apply in_map_iff in E. destruct E as (x & E & _). symmetry in E. now apply Hf in E.
  - congruence.
Qed.

(** X26. A stream that ran to its end without an error is replayed by
    every later [stream_llm] on the cache, in the same scope and for
    messages that differ at most in whitespace: the same text, one
    token per character, marked as cached when the text is not empty.
    The first stream stores its text also when it was asked not to use
    the cache. *)
Theorem X26_finished_streams_are_replayed (S : Settings) (H : Hashlib) (w w' : World)
    (mem mem' : Mem) (messages messages' : list Message) (scope : pystr)
    (use_cache : bool) (events : list Event) :
  stream_llm w mem messages scope use_cache = (events, None, mem') ->
  In (Done false None) events ->
  List.map normal messages' = List.map normal messages ->
  stream_llm w' mem' messages' scope true = (replay (text_of events), None, mem').
Proof.
  intros E Hd Hn.
  assert (Hs : exists e, mem_get mem' (_key scope (cache_key messages) KNOWLEDGE_VERSION)
                         = Some e /\ value e = Some (text_of events)).
  { unfold stream_llm in E.
    destruct (if use_cache then get w mem scope (cache_key messages) KNOWLEDGE_VERSION
              else (Returned None, mem)) as [[hit|e] mem1]; [|discriminate].
    destruct hit as [text|].
    - injection E as <- <-. exfalso. revert Hd.
      apply (done_in_tokens N (fun ch => [ch])); intros; discriminate.
    - destruct (completion_stream w messages) as [chunks [e|]].
      + injection E as <- <-. exfalso. revert Hd.
        apply (done_in_tokens pystr (fun t => t)); intros; discriminate.
      + unfold set in E. destruct (redis_set _ _ _ _).
        * injection E as <- <-. eexists. split; [apply mem_get_set|].
          cbn [value]. f_equal. symmetry. apply text_of_tokens; intros; discriminate.
        * injection E as <- <-. exfalso. revert Hd.
          apply (done_in_tokens pystr (fun t => t)); intros; discriminate. }
  destruct Hs as (e & He & Hv).
  unfold stream_llm. rewrite (cache_key_normal S _ _ Hn).
  now rewrite (get_of_mem H w' mem' scope _ _ e He), Hv.
Qed.

Lemma X26_witness :
  exists events mem',
    stream_llm (H := sample_settings) (H0 := sample_hashlib) sample_world []
               sample_messages (u "chat") false = (events, None, mem') /\
    text_of events = u "hello" /\
    stream_llm (H := sample_settings) (H0 := sample_hashlib) dead_world mem'
               [(u "user ", u "hi there")] (u "chat") true
    = (replay (H := sample_settings) (text_of events), None, mem').
Proof.
  eexists. eexists. split; [vm_compute; reflexivity|]. split; [vm_compute; reflexivity|].
  apply (X26_finished_streams_are_replayed sample_settings sample_hashlib sample_world
           dead_world [] _ sample_messages _ (u "chat") false).
  - vm_compute. reflexivity.
  - vm_compute. tauto.
  - vm_compute. reflexivity.
Defined.

(** *** Frames *)

Lemma stream_shape (S : Settings) (H : Hashlib) (w : World) (mem : Mem)
    (messages : list Message) (scope : pystr) (use_cache : bool) :
  exists events raised mem',
    stream_llm w mem messages scope use_cache = (events, raised, mem') /\
    ((events = [] /\ exists e, raised = Some e) \/
     (raised = None /\ exists c toks d e,
        events = (Meta LLM_MODEL c :: List.map Token toks ++ [Done d e])%list)).
Proof.
  unfold stream_llm.
  destruct (if use_cache then get w mem scope (cache_key messages) KNOWLEDGE_VERSION
            else (Returned None, mem)) as [[hit|e] mem1].
  - destruct hit as [text|].
    + do 3 eexists. split; [reflexivity|]. right. split; [reflexivity|].
      exists (truthy_opt (Some text)), (List.map (fun ch => [ch]) text), true, None.
      now rewrite map_map.
    + destruct (completion_stream w messages) as [chunks [e|]].
      * do 3 eexists. split; [reflexivity|]. right. split; [reflexivity|]. now eauto.
      * destruct (set _ _ _ _ _ _ _) as [[[]|e] mem2];
          do 3 eexists; (split; [reflexivity|]); right; (split; [reflexivity|]); now eauto.
  - do 3 eexists. split; [reflexivity|]. left. eauto.
Qed.

Lemma is_done_frame (ev : Event) (data : object) :
  is_done (sse_pack (event_name ev) data)
  = match ev with Done _ _ => true | _ => false end.
Proof. destruct ev; vm_compute; reflexivity. Qed.

Lemma token_frames (toks : list pystr) :
  forallb (fun f => negb (is_done f))
          (List.map (fun ev => sse_pack (event_name ev) (event_data ev))
                    (List.map Token toks)) = true.
Proof.
  induction toks as [|t toks IH]; [reflexivity|]. cbn [List.map forallb].
  now rewrite (is_done_frame (Token t)), IH.
Qed.


Lemma bool_inj (c c' : bool) (x y : pystr) :
  (dumps_scalar (JBool c) ++ 125%N :: x = dumps_scalar (JBool c') ++ y)%list ->
  c = c' /\ 125%N :: x = y.
Proof.
  destruct c, c'; intros H; vm_compute in H; try discriminate H;
    injection H as <-; auto.
Qed.

Lemma meta_frame (m : pystr) (c : bool) :
  sse_pack (u "meta") [(u "model", JStr m); (u "cached", JBool c)]
  = ((u "event: meta" ++ [10%N] ++ u "data: {" ++ dumps_str (u "model") ++ KEY_SEP)
     ++ dumps_str m ++ (ITEM_SEP ++ dumps_str (u "cached") ++ KEY_SEP)
     ++ dumps_scalar (JBool c) ++ [125%N; 10%N; 10%N])%list.
Proof.
  unfold sse_pack, dumps_dict, dumps_item. cbn [List.map join fst snd].
  change (dumps_scalar (JStr m)) with (dumps_str m).
  change (u "event: " ++ u "meta")%list with (u "event: meta").
  change (u "data: {") with (u "data: " ++ [123%N])%list.
  now rewrite <- !app_assoc.
Qed.

Lemma token_frame (d : pystr) :
  sse_pack (u "token") [(u "delta", JStr d)]
  = ((u "event: token" ++ [10%N] ++ u "data: {" ++ dumps_str (u "delta") ++ KEY_SEP)
     ++ dumps_str d ++ [125%N; 10%N; 10%N])%list.
Proof.
  unfold sse_pack, dumps_dict, dumps_item. cbn [List.map join fst snd].
  change (dumps_scalar (JStr d)) with (dumps_str d).
  change (u "event: " ++ u "token")%list with (u "event: token").
  change (u "data: {") with (u "data: " ++ [123%N])%list.
  now rewrite <- !app_assoc.
Qed.

Lemma done_frame (c : bool) (err : option pystr) :
  sse_pack (u "done") (event_data (Done c err))
  = ((u "event: done" ++ [10%N] ++ u "data: {" ++ dumps_str (u "cached") ++ KEY_SEP)
     ++ dumps_scalar (JBool c)
     ++ match err with
        | None => [125%N; 10%N; 10%N]
        | Some e => (ITEM_SEP ++ dumps_str (u "error") ++ KEY_SEP)
                    ++ dumps_str e ++ [125%N; 10%N; 10%N]
        end)%list.
Proof.
  unfold sse_pack, dumps_dict, dumps_item.
  change (u "event: " ++ u "done")%list with (u "event: done").
  change (u "data: {") with (u "data: " ++ [123%N])%list.
  destruct err as [e|]; cbn [event_data List.map join fst snd];
    [change (dumps_scalar (JStr e)) with (dumps_str e)|]; now rewrite <- !app_assoc.
Qed.

Lemma frame_inj (ev ev' : Event) :
  sse_pack (event_name ev) (event_data ev) = sse_pack (event_name ev') (event_data ev') ->
  ev = ev'.
Proof.
  destruct ev as [m c|d|c e], ev' as [m' c'|d'|c' e']; intros H;
    try (exfalso; vm_compute in H; discriminate H).
  - cbn [event_name event_data] in H. rewrite !meta_frame in H.
    apply app_inv_head in H. apply dumps_str_inj in H. destruct H as [-> H].
    apply app_inv_head in H. apply bool_inj in H. now destruct H as [-> _].
  - cbn [event_name event_data] in H. rewrite !token_frame in H.
    apply app_inv_head in H. apply dumps_str_inj in H. now destruct H as [-> _].
  - cbn [event_name] in H. rewrite !done_frame in H. apply app_inv_head in H.
    destruct e as [e|], e' as [e'|].
    + assert (Hc : c = c') by (destruct c, c'; vm_compute in H; congruence).
      subst c'. apply app_inv_head in H. apply app_inv_head in H.
      apply dumps_str_inj in H. now destruct H as [-> _].
    + exfalso. destruct c, c'; vm_compute in H; discriminate H.
    + exfalso. destruct c, c'; vm_compute in H; discriminate H.
    + apply bool_inj in H. now destruct H as [-> _].
Qed.

Lemma separators_printable : printable ITEM_SEP /\ printable KEY_SEP.
Proof.
  split; apply Forall_forall; intros c Hc; apply N.leb_le; revert c Hc;
    apply (proj1 (forallb_forall (fun c => (32 <=? c)%N) _)); vm_compute; reflexivity.
Qed.

(** X28. Every event goes out as one frame of an [event] line and a
    [data] line closed by an empty line; the data holds no control
    character, so no line break whatever the text of a delta or of an
    error, and the frame determines the event. *)
Theorem X28_frames_carry_the_events (ev : Event) :
  exists body,
    sse_pack (event_name ev) (event_data ev)
    = (u "event: " ++ event_name ev ++ [10%N] ++ u "data: " ++ body ++ [10%N; 10%N])%list /\
    printable body /\
    forall ev', sse_pack (event_name ev') (event_data ev')
                = sse_pack (event_name ev) (event_data ev) <-> ev' = ev.
Proof.
  exists (dumps_dict ITEM_SEP KEY_SEP (event_data ev)). split; [reflexivity|]. split.
  - apply dumps_dict_printable; apply separators_printable.
  - intros ev'. split; [apply frame_inj|now intros ->].
Qed.

(** *** The prefetch key *)

Lemma state_shape (t s a p : pystr) :
  prefetch_key t s a p
  = (([123%N] ++ dumps_str (u "topic") ++ KEY_SEP) ++ dumps_str t
     ++ (ITEM_SEP ++ dumps_str (u "season") ++ KEY_SEP) ++ dumps_str s
     ++ (ITEM_SEP ++ dumps_str (u "audience") ++ KEY_SEP) ++ dumps_str a
     ++ (ITEM_SEP ++ dumps_str (u "phase") ++ KEY_SEP) ++ dumps_str p ++ [125%N])%list.
Proof.
  unfold prefetch_key, dumps_dict, dumps_item. cbn [List.map join fst snd dumps_scalar].
  now rewrite <- !app_assoc.
Qed.

Lemma state_key_of_chat (in_ : ChatIn) :
  _state_key (state_of in_)
  = prefetch_key (topic in_) (season in_) (audience in_) (phase in_).
Proof. reflexivity. Qed.

(** X29. The key under which the prefetcher stores the texts for the
    state of a chat turn is the key [get_prefetch] computes from its
    four query parameters exactly when these are the turn's topic,
    season, audience and phase: one character of difference gives
    another key. *)
Theorem X29_prefetch_keys_meet (in_ : ChatIn) (t s a p : pystr) :
  _state_key (state_of in_) = prefetch_key t s a p
  <-> topic in_ = t /\ season in_ = s /\ audience in_ = a /\ phase in_ = p.
Proof.
  rewrite state_key_of_chat. split.
  - rewrite !state_shape. intros H.
    apply app_inv_head in H. apply dumps_str_inj in H. destruct H as [Ht H].
    apply app_inv_head in H. apply dumps_str_inj in H. destruct H as [Hs H].
    apply app_inv_head in H. apply dumps_str_inj in H. destruct H as [Ha H].
    apply app_inv_head in H. apply dumps_str_inj in H. destruct H as [Hp _]. auto.
  - now intros (-> & -> & -> & ->).
Qed.

End CoreProofs.
